(** * trello-to-prometheus: the aggregation core and its exposition formatter

    A shallow embedding of [src/index.js]: the label escaping
    ([escapeLabel]), the text formatter ([formatPrometheusMetrics]), the
    static configuration tables and the aggregation done by [buildMetrics],
    then the configuration, the query string, the authorization check and
    the request handler, followed by the properties the specification
    states about them and by further properties of the code.

    The five payloads that [buildMetrics] awaits from the Trello API are
    the parameters of the model; the transport is not modelled. *)

From Stdlib Require Import ZArith Ascii DecimalString.
From stdpp Require Import gmap strings list fin_maps.

Set Warnings "-register-all".

(** ** JavaScript values, as [JSON.parse] builds them *)

Module Js.

(** The values a parsed JSON payload is made of, plus [undefined], which
    reading a missing property produces.  A number is an integer that a
    double holds exactly and that prints in plain decimal; a string is the
    sequence of its characters, one [ascii] for each; an object lists its
    members, all of them data properties, in the order of the text. *)
Inductive val : Type :=
  | VUndefined
  | VNull
  | VBool (b : bool)
  | VNum (n : Z)
  | VStr (s : string)
  | VArr (l : list val)
  | VObj (o : list (string * val)).

(** What a throwing evaluation leaves behind instead of a value. *)
Inductive result (A : Type) : Type :=
  | Ok (a : A)
  | TypeError.
Arguments Ok {A} a.
Arguments TypeError {A}.

Definition bind {A B} (r : result A) (k : A -> result B) : result B :=
  match r with
  | Ok a => k a
  | TypeError => TypeError
  end.

Notation "'let!' x ':=' r 'in' k" := (bind r (fun x => k))
  (at level 10, x name, r at level 100, k at level 200).

(** [ToBoolean]. *)
Definition truthy (v : val) : bool :=
  match v with
  | VUndefined | VNull => false
  | VBool b => b
  | VNum n => negb (n =? 0)%Z
  | VStr s => negb (String.eqb s EmptyString)
  | VArr _ | VObj _ => true
  end.

(** [a || b]. *)
Definition or (a b : val) : val := if truthy a then a else b.

Definition nullish (v : val) : bool :=
  match v with
  | VUndefined | VNull => true
  | _ => false
  end.

Definition isArray (v : val) : bool :=
  match v with
  | VArr _ => true
  | _ => false
  end.

(** The last member with a given name is the one [JSON.parse] keeps. *)
Fixpoint member (k : string) (o : list (string * val)) : option val :=
  match o with
  | [] => None
  | (k', v) :: o' =>
      match member k o' with
      | Some w => Some w
      | None => if String.eqb k k' then Some v else None
      end
  end.

(** [v.k] for a [v] that is neither [undefined] nor [null], and [v?.k] for
    every [v].  [k] ranges over the property names the program reads
    ([id], [name], [idList], ...): none of them is defined on the
    prototype of an object, a string, a number, a boolean or an array. *)
Definition prop (v : val) (k : string) : val :=
  match v with
  | VObj o => default VUndefined (member k o)
  | _ => VUndefined
  end.

(** [v.k] where the source does not guard [v]. *)
Definition get (v : val) (k : string) : result val :=
  if nullish v then TypeError else Ok (prop v k).

Fixpoint join (sep : string) (l : list string) : string :=
  match l with
  | [] => EmptyString
  | [s] => s
  | s :: l' => s +:+ sep +:+ join sep l'
  end.

Definition string_of_Z (n : Z) : string := NilZero.string_of_int (Z.to_int n).

Definition string_of_N (n : N) : string :=
  NilZero.string_of_uint (N.to_uint n).

(** [String(v)], which is also how [v] is turned into a property key.  An
    array is the texts of its elements joined by commas, [null] and
    [undefined] among them as the empty text.  An object without a member
    of its own named [toString] is the text [[object Object]] of
    [Object.prototype.toString]; with one, which in a parsed payload is
    never a function, the conversion turns to [valueOf], gets from it
    nothing that is primitive, and throws a [TypeError]. *)
Fixpoint to_string (v : val) : result string :=
  match v with
  | VUndefined => Ok "undefined"
  | VNull => Ok "null"
  | VBool true => Ok "true"
  | VBool false => Ok "false"
  | VNum n => Ok (string_of_Z n)
  | VStr s => Ok s
  | VArr l =>
      let! parts :=
        (fix each (l : list val) : result (list string) :=
           match l with
           | [] => Ok []
           | e :: l' =>
               let! s := (if nullish e then Ok EmptyString else to_string e) in
               let! r := each l' in
               Ok (s :: r)
           end) l in
      Ok (join "," parts)
  | VObj o =>
      match member "toString" o with
      | Some _ => TypeError
      | None => Ok "[object Object]"
      end
  end.

(** [xs.includes(v)] for an array [xs] of strings: only a string equal to
    one of them is found. *)
Definition includes (xs : list string) (v : val) : bool :=
  match v with
  | VStr s => bool_decide (s ∈ xs)
  | _ => false
  end.

(** The elements [for (const x of v || [])] visits. *)
Definition iterate (v : val) : result (list val) :=
  match or v (VArr []) with
  | VArr l => Ok l
  | VStr s =>
      Ok (List.map (fun c => VStr (String c EmptyString)) (String.list_ascii_of_string s))
  | _ => TypeError
  end.

(** The array [(v || []).filter(...)] runs over. *)
Definition filterable (v : val) : result (list val) :=
  match or v (VArr []) with
  | VArr l => Ok l
  | _ => TypeError
  end.

Fixpoint mapM {A B} (f : A -> result B) (l : list A) : result (list B) :=
  match l with
  | [] => Ok []
  | a :: l' =>
      let! b := f a in
      let! r := mapM f l' in
      Ok (b :: r)
  end.

Fixpoint filterM {A} (f : A -> result bool) (l : list A) : result (list A) :=
  match l with
  | [] => Ok []
  | a :: l' =>
      let! b := f a in
      let! r := filterM f l' in
      Ok (if b then a :: r else r)
  end.

Fixpoint foldM {A S} (f : S -> A -> result S) (l : list A) (s : S) : result S :=
  match l with
  | [] => Ok s
  | a :: l' => let! s' := f s a in foldM f l' s'
  end.

(** *** Plain objects *)

(** Whether a property name is an array index: the decimal text, without
    leading zeros, of an integer below 2^32 - 1. *)
Definition arrayIndex (k : string) : option N :=
  match NilZero.uint_of_string k with
  | Some u =>
      let n := N.of_uint u in
      if String.eqb (string_of_N n) k && (n <? 4294967295)%N then Some n else None
  | None => None
  end.

Definition isIndex {A} (kv : string * A) : bool :=
  bool_decide (is_Some (arrayIndex (fst kv))).

Definition indexOf {A} (kv : string * A) : N := default 0%N (arrayIndex (fst kv)).

(** [o[k] = a] on the properties of [o] in the order of their creation: a
    property that is there keeps its place. *)
Definition setOwn {A} (o : list (string * A)) (kv : string * A) : list (string * A) :=
  if existsb (fun e => String.eqb (fst e) (fst kv)) o
  then List.map (fun e => if String.eqb (fst e) (fst kv) then kv else e) o
  else o ++ [kv].

Fixpoint insertByIndex {A} (kv : string * A) (l : list (string * A))
  : list (string * A) :=
  match l with
  | [] => [kv]
  | kv' :: l' =>
      if (indexOf kv <? indexOf kv')%N then kv :: l
      else kv' :: insertByIndex kv l'
  end.

(** [Object.entries(o)] for the object that a literal, or a sequence of
    assignments, with the pairs [o] creates: each name once, with the
    value given last; the names that are array indices first, in
    ascending order, then the other names in the order of their
    creation. *)
Definition entries {A} (o : list (string * A)) : list (string * A) :=
  let props := fold_left setOwn o [] in
  fold_right insertByIndex [] (List.filter isIndex props)
  ++ List.filter (fun kv => negb (isIndex kv)) props.

(** *** Plain objects used as dictionaries *)

(** The members that an object created by [{}] inherits from
    [Object.prototype], as Node has them. *)
Definition inheritedNames : list string :=
  [ "constructor"; "__defineGetter__"; "__defineSetter__"; "hasOwnProperty";
    "__lookupGetter__"; "__lookupSetter__"; "isPrototypeOf"; "propertyIsEnumerable";
    "toString"; "valueOf"; "__proto__"; "toLocaleString" ].

Definition inherited (k : string) : bool := bool_decide (k ∈ inheritedNames).

(** [String(Object.prototype[k])]: under [__proto__] the prototype itself,
    an object; under [constructor] the function [Object]; under the other
    names functions of that name.  Node prints them so. *)
Definition protoText (k : string) : string :=
  if String.eqb k "__proto__" then "[object Object]"
  else "function " +:+ (if String.eqb k "constructor" then "Object" else k)
       +:+ "() { [native code] }".

(** What a dictionary of counts holds under a key, and so the value of a
    sample: a number; or, under the name [k] of an inherited member, that
    member itself ([added] is empty) or the text that [+] has made of it,
    which is the text of the member followed by the numbers added to it,
    in order. *)
Inductive cell : Type :=
  | Num (n : N)
  | Grown (k : string) (added : list N).

(** The own properties of a dictionary. *)
Abbreviation dict := (gmap string cell).

(** [ToBoolean]: a function, an object and a text that is not empty are
    truthy. *)
Definition truthyCell (c : cell) : bool :=
  match c with
  | Num n => negb (n =? 0)%N
  | Grown _ _ => true
  end.

(** [d[k] || 0]. *)
Definition count (d : dict) (k : string) : cell :=
  match d !! k with
  | Some c => if truthyCell c then c else Num 0
  | None => if inherited k then Grown k [] else Num 0
  end.

(** [c + n] for a number [n]: a sum of numbers, or the text of [c]
    followed by the text of [n]. *)
Definition plus (c : cell) (n : N) : cell :=
  match c with
  | Num m => Num (m + n)
  | Grown k added => Grown k (added ++ [n])
  end.

(** [d[k] = (d[k] || 0) + n].  The setter of [__proto__] drops a value
    that is no object; under every other name the assignment creates or
    updates a property of [d]. *)
Definition bump (k : string) (n : N) (d : dict) : dict :=
  let v := plus (count d k) n in
  if String.eqb k "__proto__" then d else <[k := v]> d.

(** [c > 0]: the text of a function or of an object is no numeral, and
    [NaN > 0] is false. *)
Definition positive (c : cell) : bool :=
  match c with
  | Num n => (0 <? n)%N
  | Grown _ _ => false
  end.

(** [String(c)], as a template literal inserts it. *)
Definition cellText (c : cell) : string :=
  match c with
  | Num n => string_of_N n
  | Grown k added => protoText k +:+ String.concat EmptyString (List.map string_of_N added)
  end.

End Js.
Import Js.

(** ** Helpers to format the Prometheus exposition *)

Definition backslash : ascii := "092"%char.
Definition dquote : ascii := "034"%char.
Definition newline : ascii := "010"%char.

Definition str (c : ascii) : string := String c EmptyString.

(** [s.replace(/c/g, r)] for a pattern that is the single character [c]
    and a replacement text [r] without [$]. *)
Fixpoint replaceAll (c : ascii) (r : string) (s : string) : string :=
  match s with
  | EmptyString => EmptyString
  | String a s' =>
      if Ascii.eqb a c then r +:+ replaceAll c r s'
      else String a (replaceAll c r s')
  end.

(** The three replacements of [escapeLabel], on the text [String(value)]. *)
Definition escapeText (s : string) : string :=
  replaceAll newline (str backslash +:+ "n")
    (replaceAll dquote (str backslash +:+ str dquote)
       (replaceAll backslash (str backslash +:+ str backslash) s)).

(** [function escapeLabel(value = "")]: the default replaces [undefined]
    only. *)
Definition escapeLabel (value : val) : result string :=
  let value := match value with VUndefined => VStr EmptyString | _ => value end in
  let! s := to_string value in
  Ok (escapeText s).

(** A sample is an object with a [labels] object, whose values this
    program always builds as strings, and a [value], which is a count, a
    sum of seconds or what a dictionary holds. *)
Record sample : Type := { labels : list (string * string); value : cell }.

Record metric : Type := { help : string; samples : list sample }.

(** The [metrics] object, by the pairs that create it. *)
Definition metricsObj : Type := list (string * metric).

(** A label value [v] is a string: [escapeLabel(v)] is the three
    replacements on [v] itself. *)
Definition formatLabels (s : sample) : string :=
  join ", "
    (List.map
       (fun kv => fst kv +:+ "=" +:+ str dquote +:+ escapeText (snd kv) +:+ str dquote)
       (entries (labels s))).

Definition formatSample (metricName : string) (output : string) (s : sample)
  : string :=
  output +:+ metricName +:+ "{" +:+ formatLabels s +:+ "} "
         +:+ cellText (value s) +:+ str newline.

Definition formatPrometheusMetrics (metrics : metricsObj) : string :=
  fold_left
    (fun output entry =>
       let metricName := fst entry in
       let metricData := snd entry in
       let output := output +:+ "# TYPE " +:+ metricName +:+ " gauge" +:+ str newline in
       let output :=
         output +:+ "# HELP " +:+ metricName +:+ " " +:+ help metricData
                +:+ str newline in
       fold_left (formatSample metricName) (samples metricData) output)
    (entries metrics) EmptyString.

(** ** Domain constants *)

Record timeEntry : Type :=
  { t_range : string; t_max : string; t_med : string; t_s : N }.

(** The static tables are objects used as dictionaries, here by the pairs
    of their literals. *)
Definition timeMap : list (string * timeEntry) :=
  [ ("6317987e46e82a010a822ec0",
      {| t_range := "<5 min"; t_max := "5 min"; t_med := "3 minutes"; t_s := 180 |});
    ("6317987e46e82a010a822ec1",
      {| t_range := "5 min - 15 min"; t_max := "5 min"; t_med := "10 minutes"; t_s := 600 |});
    ("6317987e46e82a010a822ec2",
      {| t_range := "15 min - 30 min"; t_max := "5 min"; t_med := "23 minutes"; t_s := 1380 |});
    ("6317987e46e82a010a822ec3",
      {| t_range := "30 min - 1 hour"; t_max := "5 min"; t_med := "45 minutes"; t_s := 2700 |});
    ("6317987e46e82a010a822ec4",
      {| t_range := "1 hour - 3 hours"; t_max := "5 min"; t_med := "2 hours"; t_s := 7200 |});
    ("6317987e46e82a010a822ec5",
      {| t_range := "3+ hours"; t_max := "5 min"; t_med := "4 hours"; t_s := 14400 |}) ].

Definition priorityMap : list (string * string) :=
  [ ("63237551f4e1250062d584d7", "Highest");
    ("63237551f4e1250062d584d8", "High");
    ("63237551f4e1250062d584d9", "Medium");
    ("63237551f4e1250062d584da", "Low");
    ("63237551f4e1250062d584db", "Lowest") ].

Module listNameToId.
Definition Inbox := "67f45c29f80d25da0f543428".
Definition Ref := "640fbcf689fe9b86e3721b60".
Definition Decomp := "67291a8ff4e1941fe4df8c71".
Definition Ready := "62ba39f3660d8d5b9ec940fe".
Definition Today := "6601f48e27469813be23ba2e".
Definition Blocked := "62ba548b2155ca280fefba5b".
Definition Progress := "62ba39f599d17e0e24c5a212".
Definition Work := "65b184b75a5f898ab7010288".
Definition Done := "62ba39f7fc9ece2c518208a7".
End listNameToId.

Module labelNameToId.
Definition Divider := "681a3bbe267f382f9ed138e8".
End labelNameToId.

Definition listsToIgnore : list string := [listNameToId.Ref; listNameToId.Decomp].
Definition doneLists : list string := [listNameToId.Done].
Definition ignoreCardsWithAtLeastOneOfTheseLabelIds : list string :=
  [labelNameToId.Divider].

(** [Object.prototype.hasOwnProperty.call(tbl, k)] and [tbl[k]] for a table
    [tbl], whose names are pairwise distinct, and a property key [k] that
    is one of them: [None] is [undefined]. *)
Fixpoint own {A} (tbl : list (string * A)) (k : string) : option A :=
  match tbl with
  | [] => None
  | (k', a) :: tbl' => if String.eqb k k' then Some a else own tbl' k
  end.

Definition hasOwnProperty {A} (tbl : list (string * A)) (k : string) : bool :=
  bool_decide (is_Some (own tbl k)).

(** [Object.values(tbl)]. *)
Definition values {A} (tbl : list (string * A)) : list A := List.map snd (entries tbl).

(** ** Core logic to build metrics *)

(** The literal [metrics] starts from. *)
Definition metrics0 : metricsObj :=
  [ ("trello_boards_total",
      {| help := "Total number of Trello boards"; samples := [] |});
    ("trello_cards_in_list_total",
      {| help := "Number of cards per list"; samples := [] |});
    ("trello_labeled_cards_on_board",
      {| help := "Number of cards per board and label"; samples := [] |});
    ("trello_cards_per_board_member",
      {| help := "Number of cards per board and member"; samples := [] |});
    ("trello_lists_per_board",
      {| help := "Number of lists per board"; samples := [] |});
    ("trello_time_in_list_total",
      {| help := "Total estimated time in each list (in seconds)"; samples := [] |});
    ("trello_cards_by_priority_total",
      {| help := "Number of cards by priority (excluding done cards)"; samples := [] |});
    ("trello_cards_by_time_total",
      {| help := "Number of cards by time (excluding done cards)"; samples := [] |}) ].

(** [metrics.name.samples.push(s)]. *)
Definition push (name : string) (s : sample) (metrics : metricsObj) : metricsObj :=
  List.map
    (fun entry =>
       if String.eqb (fst entry) name
       then (fst entry,
             {| help := help (snd entry); samples := samples (snd entry) ++ [s] |})
       else entry)
    metrics.

(** [metrics.name.samples]. *)
Definition samplesOf (name : string) (metrics : metricsObj) : list sample :=
  match own metrics name with
  | Some d => samples d
  | None => []
  end.

(** The elements of [v] where the source has checked [Array.isArray(v)]. *)
Definition elements (v : val) : list val :=
  match v with
  | VArr l => l
  | _ => []
  end.

(** [v === s] for a string [s]. *)
Definition strictEq (v : val) (s : string) : bool :=
  match v with
  | VStr s' => String.eqb s' s
  | _ => false
  end.

(** The callback of [listsRaw.filter]. *)
Definition keepList (l : val) : result bool :=
  let! i := get l "id" in
  Ok (negb (includes listsToIgnore i)).

(** The callback of [cardsRaw.filter]. *)
Definition keepCard (c : val) : bool :=
  if negb (truthy c) || negb (truthy (prop c "idList")) then false
  else if includes listsToIgnore (prop c "idList") then false
  else if isArray (prop c "idLabels")
          && existsb (includes ignoreCardsWithAtLeastOneOfTheseLabelIds)
               (elements (prop c "idLabels"))
  then false
  else if strictEq (prop c "cardRole") "separator" then false
  else true.

Record customInfo : Type :=
  { time : option timeEntry; priority : option string }.

(** One turn of the loop over [customFieldItems].  Each of the two
    conditions turns [item.idValue] into a property key, and so does the
    read from the table that follows it, with the same outcome. *)
Definition scanItem (custom : customInfo) (item : val) : result customInfo :=
  let! custom :=
    (if truthy item && truthy (prop item "idValue") then
       let! k := to_string (prop item "idValue") in
       if hasOwnProperty timeMap k
       then Ok {| time := own timeMap k; priority := priority custom |}
       else Ok custom
     else Ok custom) in
  if truthy item && truthy (prop item "idValue") then
    let! k := to_string (prop item "idValue") in
    if hasOwnProperty priorityMap k
    then Ok {| time := time custom; priority := own priorityMap k |}
    else Ok custom
  else Ok custom.

(** A card after the enriching [map]: [{ ...c, customInfo: custom }]. *)
Record card : Type := { raw : val; custom : customInfo }.

Definition enrich (c : val) : result card :=
  let items :=
    if isArray (prop c "customFieldItems") then elements (prop c "customFieldItems")
    else [] in
  let! custom := foldM scanItem items {| time := None; priority := None |} in
  Ok {| raw := c; custom := custom |}.

Definition closed (c : card) : bool := truthy (prop (raw c) "closed").
Definition idList (c : card) : val := prop (raw c) "idList".
Definition idLabels (c : card) : val := prop (raw c) "idLabels".
Definition idMembers (c : card) : val := prop (raw c) "idMembers".

(** [card.customInfo?.priority] as a condition. *)
Definition hasPriority (c : card) : bool :=
  match priority (custom c) with
  | Some p => truthy (VStr p)
  | None => false
  end.

(** [card.customInfo?.time] as a condition: an entry of the table is an
    object. *)
Definition hasTime (c : card) : bool := bool_decide (is_Some (time (custom c))).

(** The six dictionaries the loops over [cards] fill. *)
Definition cardsByList (cards : list card) : result dict :=
  foldM
    (fun d card =>
       if negb (closed card) then
         let! k := to_string (idList card) in
         Ok (bump k 1 d)
       else Ok d)
    cards ∅.

Definition cardsByPriority (cards : list card) : dict :=
  fold_left
    (fun d card =>
       if negb (closed card) && hasPriority card
          && negb (includes doneLists (idList card))
       then match priority (custom card) with
            | Some p => bump p 1 d
            | None => d
            end
       else d)
    cards ∅.

Definition cardsByTime (cards : list card) : dict :=
  fold_left
    (fun d card =>
       if negb (closed card) && hasTime card
       then match time (custom card) with
            | Some t => bump (t_range t) 1 d
            | None => d
            end
       else d)
    cards ∅.

(** [card.customInfo.time.s || 0] is [t_s t]: zero is the only falsy
    number of seconds. *)
Definition cardTimeByList (cards : list card) : result dict :=
  foldM
    (fun d card =>
       if negb (closed card) && hasTime card
       then match time (custom card) with
            | Some t =>
                let! k := to_string (idList card) in
                Ok (bump k (t_s t) d)
            | None => Ok d
            end
       else Ok d)
    cards ∅.

(** The loops over [idLabels] and [idMembers] have the same shape. *)
Definition countEntries (field : card -> val) (cards : list card) : result dict :=
  foldM
    (fun d card =>
       if negb (closed card) && isArray (field card)
          && negb (length (elements (field card)) =? 0)%nat
       then foldM (fun d i => let! k := to_string i in Ok (bump k 1 d))
              (elements (field card)) d
       else Ok d)
    cards ∅.

Definition cardsByLabel : list card -> result dict := countEntries idLabels.
Definition cardsByMember : list card -> result dict := countEntries idMembers.

(** [escapeLabel(board?.name || "(unknown)")]. *)
Definition boardName (board : val) : result string :=
  escapeLabel (or (prop board "name") (VStr "(unknown)")).

(** The loops over the surviving lists, which read the dictionary [d]. *)
Definition pushLists (name : string) (boardName : string) (d : dict)
    (lists : list val) (metrics : metricsObj) : result metricsObj :=
  foldM
    (fun metrics list =>
       let! k := to_string (prop list "id") in
       let cardCount := count d k in
       let! listName := escapeLabel (prop list "name") in
       Ok (push name
             {| labels := [("board", boardName); ("list", listName)];
                value := cardCount |}
             metrics))
    lists metrics.

(** The loops over [labels] and over [members], which read the dictionary
    [d] and name the record by [nameOf]. *)
Definition pushNamed (name key : string) (nameOf : val -> val) (boardName : string)
    (d : dict) (xs : list val) (metrics : metricsObj) : result metricsObj :=
  foldM
    (fun metrics x =>
       let! i := get x "id" in
       let! k := to_string i in
       let n := count d k in
       if positive n then
         let! shown := escapeLabel (nameOf x) in
         Ok (push name
               {| labels := [("board", boardName); (key, shown)]; value := n |}
               metrics)
       else Ok metrics)
    xs metrics.

(** [label.name || label.color || "unlabeled"] and
    [m.fullName || m.username || m.id]. *)
Definition labelName (l : val) : val :=
  or (or (prop l "name") (prop l "color")) (VStr "unlabeled").

Definition memberName (m : val) : val :=
  or (or (prop m "fullName") (prop m "username")) (prop m "id").

(** The five payloads are what [Promise.all] resolves to; a rejected fetch
    never reaches this code. *)
Definition aggregate (board listsRaw labels members cardsRaw : val)
  : result metricsObj :=
  let metrics := metrics0 in
  let metrics := push "trello_boards_total" {| labels := []; value := Num 1 |} metrics in
  let! boardName := boardName board in
  (* Filter lists *)
  let! lists := (let! ls := filterable listsRaw in filterM keepList ls) in
  (* Filter cards, enrich them with customInfo *)
  let! cards := (let! cs := filterable cardsRaw in Ok (List.filter keepCard cs)) in
  let! cards := mapM enrich cards in
  (* Lists per board *)
  let metrics :=
    push "trello_lists_per_board"
      {| labels := [("board", boardName)]; value := Num (N.of_nat (length lists)) |}
      metrics in
  (* Cards per list *)
  let! d := cardsByList cards in
  let! metrics := pushLists "trello_cards_in_list_total" boardName d lists metrics in
  (* Cards by priority *)
  let d := cardsByPriority cards in
  let! metrics :=
    foldM
      (fun metrics priority =>
         let cardCount := count d priority in
         let! shown := escapeLabel (VStr priority) in
         Ok (push "trello_cards_by_priority_total"
               {| labels := [("board", boardName); ("priority", shown)];
                  value := cardCount |}
               metrics))
      (values priorityMap) metrics in
  (* Cards by time *)
  let d := cardsByTime cards in
  let! metrics :=
    foldM
      (fun metrics t =>
         let cardCount := count d (t_range t) in
         let! shown := escapeLabel (VStr (t_range t)) in
         Ok (push "trello_cards_by_time_total"
               {| labels := [("board", boardName); ("time", shown)];
                  value := cardCount |}
               metrics))
      (values timeMap) metrics in
  (* Total estimated time in each list *)
  let! d := cardTimeByList cards in
  let! metrics := pushLists "trello_time_in_list_total" boardName d lists metrics in
  (* Cards per label *)
  let! d := cardsByLabel cards in
  let! metrics :=
    (let! ls := iterate labels in
     pushNamed "trello_labeled_cards_on_board" "label" labelName boardName d ls
       metrics) in
  (* Cards per member *)
  let! d := cardsByMember cards in
  let! metrics :=
    (let! ms := iterate members in
     pushNamed "trello_cards_per_board_member" "member" memberName boardName d ms
       metrics) in
  Ok metrics.

Definition buildMetrics (board listsRaw labels members cardsRaw : val)
  : result string :=
  let! metrics := aggregate board listsRaw labels members cardsRaw in
  Ok (formatPrometheusMetrics metrics).

(** ** The vocabulary of the specification *)

Definition isOk {A} (r : result A) : bool :=
  match r with
  | Ok _ => true
  | TypeError => false
  end.

(** What [String(v)] and [escapeLabel(v)] return, when they return. *)
Definition text (v : val) : string :=
  match to_string v with
  | Ok s => s
  | TypeError => EmptyString
  end.

Definition escaped (v : val) : string :=
  match escapeLabel v with
  | Ok s => s
  | TypeError => EmptyString
  end.

(** The label [board] of the samples, when the board name converts. *)
Definition boardNameOf (board : val) : string :=
  match boardName board with
  | Ok s => s
  | TypeError => EmptyString
  end.

(** The card is archived. *)
Definition archived (c : val) : bool := truthy (prop c "closed").

(** The property key under which a card names its list, and the one under
    which a list, a label or a member is known: for identifiers that are
    strings, the identifier itself. *)
Definition listRef (c : val) : string := text (prop c "idList").
Definition idOf (x : val) : string := text (prop x "id").

(** The card sits in a terminal list. *)
Definition terminal (c : val) : bool := includes doneLists (prop c "idList").

(** The cards of the payload, those that pass the filtering pipeline, and
    those of them that are not archived. *)
Definition cardsOf (cardsRaw : val) : list val := elements (or cardsRaw (VArr [])).
Definition survivingCards (cardsRaw : val) : list val :=
  List.filter keepCard (cardsOf cardsRaw).
Definition openCards (cardsRaw : val) : list val :=
  List.filter (fun c => negb (archived c)) (survivingCards cardsRaw).

(** The lists of the payload that are not ignored. *)
Definition survivingLists (listsRaw : val) : list val :=
  List.filter (fun l => negb (includes listsToIgnore (prop l "id")))
    (elements (or listsRaw (VArr []))).

(** The enriched card, when the scan of its custom fields returns. *)
Definition cardOf (c : val) : card :=
  match enrich c with
  | Ok e => e
  | TypeError => {| raw := c; custom := {| time := None; priority := None |} |}
  end.

(** The scan of the custom fields of the card returns. *)
Definition scans (c : val) : bool := isOk (enrich c).

Definition resolvedTime (c : val) : option timeEntry := time (custom (cardOf c)).
Definition resolvedPriority (c : val) : option string := priority (custom (cardOf c)).

(** The seconds a card stands for: none without a TimeEstimate. *)
Definition seconds (c : val) : N :=
  match resolvedTime c with
  | Some t => t_s t
  | None => 0
  end.

Definition sumN (l : list N) : N := fold_right N.add 0%N l.

(** How many cards satisfy [p]. *)
Definition howMany (p : val -> bool) (cards : list val) : N :=
  N.of_nat (length (List.filter p cards)).


(** The sum of the values of the samples, when all of them are numbers. *)
Fixpoint sumValues (ss : list sample) : option N :=
  match ss with
  | [] => Some 0%N
  | s :: ss' =>
      match value s, sumValues ss' with
      | Num n, Some t => Some (n + t)%N
      | _, _ => None
      end
  end.


(** What a custom-field item stands for in a static table: the entry under
    its [idValue], when the item and its [idValue] are there; the
    conversion of the [idValue] to a property key may throw. *)
Definition recognized {A} (tbl : list (string * A)) (item : val) : result (option A) :=
  if truthy item && truthy (prop item "idValue")
  then let! k := to_string (prop item "idValue") in Ok (own tbl k)
  else Ok None.

(** A name that no plain object inherits a member under. *)
Definition ownKey (k : string) : bool := negb (inherited k).

(** ** What [aggregate] returns, in closed form *)

(** The enriched cards every loop of [buildMetrics] runs over. *)
Definition enriched (cardsRaw : val) : list card :=
  List.map cardOf (survivingCards cardsRaw).

(** Several pushes to one family, at once. *)
Definition pushAll (name : string) (ss : list sample) (metrics : metricsObj)
  : metricsObj :=
  List.map
    (fun entry =>
       if String.eqb (fst entry) name
       then (fst entry,
             {| help := help (snd entry); samples := samples (snd entry) ++ ss |})
       else entry)
    metrics.

(** A dictionary after the additions [ops], each a key and a number. *)
Definition fill (ops : list (string * N)) : dict :=
  fold_left (fun d op => bump (fst op) (snd op) d) ops ∅.

(** The additions one card makes to each of the six dictionaries. *)
Definition listOps (c : card) : list (string * N) :=
  if negb (closed c) then [(text (idList c), 1%N)] else [].

Definition priorityOps (c : card) : list (string * N) :=
  if negb (closed c) && negb (includes doneLists (idList c))
  then match priority (custom c) with
       | Some p => [(p, 1%N)]
       | None => []
       end
  else [].

Definition rangeOps (c : card) : list (string * N) :=
  if negb (closed c)
  then match time (custom c) with
       | Some t => [(t_range t, 1%N)]
       | None => []
       end
  else [].

Definition timeOps (c : card) : list (string * N) :=
  if negb (closed c)
  then match time (custom c) with
       | Some t => [(text (idList c), t_s t)]
       | None => []
       end
  else [].

Definition entryOps (field : card -> val) (c : card) : list (string * N) :=
  if negb (closed c)
  then List.map (fun i => (text i, 1%N)) (elements (field c))
  else [].

Definition tally (ops : card -> list (string * N)) (cards : list card) : dict :=
  fill (flat_map ops cards).

(** The addends a key receives, in order, and what the dictionary then
    holds under it. *)
Definition addends (x : string) (ops : list (string * N)) : list N :=
  List.map snd (List.filter (fun op => String.eqb (fst op) x) ops).

Definition held (x : string) (ns : list N) : cell :=
  if String.eqb x "__proto__" then Grown x []
  else if inherited x then Grown x ns
  else Num (sumN ns).

(** The sample of a list in a family that reads the dictionary [d]. *)
Definition listSample (boardName : string) (d : dict) (l : val) : sample :=
  {| labels := [("board", boardName); ("list", escaped (prop l "name"))];
     value := count d (idOf l) |}.

Definition prioritySample (boardName : string) (d : dict) (p : string) : sample :=
  {| labels := [("board", boardName); ("priority", escapeText p)];
     value := count d p |}.

Definition timeSample (boardName : string) (d : dict) (t : timeEntry) : sample :=
  {| labels := [("board", boardName); ("time", escapeText (t_range t))];
     value := count d (t_range t) |}.

(** The sample of a label or of a member, when there is one: none unless
    the count is a number above zero. *)
Definition namedSamples (key : string) (nameOf : val -> val) (boardName : string)
    (d : dict) (x : val) : list sample :=
  let n := count d (idOf x) in
  if positive n
  then [ {| labels := [("board", boardName); (key, escaped (nameOf x))];
            value := n |} ]
  else [].

(** The elements a [for ... of] loop visits, for payloads on which nothing
    throws. *)
Definition itemsOf (v : val) : list val :=
  match iterate v with
  | Ok l => l
  | TypeError => []
  end.

Definition objects (l : list val) : bool := forallb (fun e => negb (nullish e)) l.

(** Every entry of an array of identifiers converts to a property key. *)
Definition keys (ids : val) : bool :=
  forallb (fun i => isOk (to_string i)) (elements ids).

(** Nothing throws on a card that passes the filter, on a list that is
    not ignored, on a label or a member. *)
Definition cardRuns (c : val) : bool :=
  scans c
  && (archived c
      || isOk (to_string (prop c "idList"))
         && keys (prop c "idLabels") && keys (prop c "idMembers")).

Definition listRuns (l : val) : bool :=
  isOk (to_string (prop l "id")) && isOk (escapeLabel (prop l "name")).

Definition namedRuns (nameOf : val -> val) (d : dict) (x : val) : bool :=
  negb (nullish x) && isOk (to_string (prop x "id"))
  && (negb (positive (count d (idOf x))) || isOk (escapeLabel (nameOf x))).

(** Nothing throws on these payloads. *)
Definition runs (board listsRaw labels members cardsRaw : val) : bool :=
  isOk (boardName board)
  && match filterable listsRaw, iterate labels, iterate members, filterable cardsRaw with
     | Ok ls, Ok lb, Ok ms, Ok _ =>
         objects ls
         && forallb listRuns (survivingLists listsRaw)
         && forallb cardRuns (survivingCards cardsRaw)
         && forallb (namedRuns labelName (tally (entryOps idLabels) (enriched cardsRaw))) lb
         && forallb (namedRuns memberName (tally (entryOps idMembers) (enriched cardsRaw)))
              ms
     | _, _, _, _ => false
     end.

(** What [aggregate] returns when it returns. *)
Definition families (board listsRaw labels members cardsRaw : val) : metricsObj :=
  let boardName := boardNameOf board in
  let lists := survivingLists listsRaw in
  let cards := enriched cardsRaw in
  pushAll "trello_cards_per_board_member"
    (flat_map (namedSamples "member" memberName boardName (tally (entryOps idMembers) cards))
       (itemsOf members))
    (pushAll "trello_labeled_cards_on_board"
       (flat_map (namedSamples "label" labelName boardName (tally (entryOps idLabels) cards))
          (itemsOf labels))
       (pushAll "trello_time_in_list_total"
          (List.map (listSample boardName (tally timeOps cards)) lists)
          (pushAll "trello_cards_by_time_total"
             (List.map (timeSample boardName (tally rangeOps cards)) (values timeMap))
             (pushAll "trello_cards_by_priority_total"
                (List.map (prioritySample boardName (tally priorityOps cards))
                   (values priorityMap))
                (pushAll "trello_cards_in_list_total"
                   (List.map (listSample boardName (tally listOps cards)) lists)
                   (pushAll "trello_lists_per_board"
                      [ {| labels := [("board", boardName)];
                           value := Num (N.of_nat (length lists)) |} ]
                      (pushAll "trello_boards_total"
                         [ {| labels := []; value := Num 1 |} ] metrics0))))))).

(** ** A board to try the properties on *)

(** Three lists (one of them ignored, one terminal), three labels (one of
    them exclusionary), two members and six cards, followed by a [null]. *)
Definition demoBoard : val := VObj [("name", VStr "X")].

Definition demoLists : val :=
  VArr [ VObj [("id", VStr listNameToId.Inbox); ("name", VStr "Inbox")];
         VObj [("id", VStr listNameToId.Ref); ("name", VStr "Ref")];
         VObj [("id", VStr listNameToId.Done); ("name", VStr "Done")] ].

Definition demoLabels : val :=
  VArr [ VObj [("id", VStr "l1"); ("name", VStr "urgent"); ("color", VStr "red")];
         VObj [("id", VStr "l2"); ("name", VStr EmptyString); ("color", VStr "green")];
         VObj [("id", VStr labelNameToId.Divider); ("name", VStr "Divider")] ].

Definition demoMembers : val :=
  VArr [ VObj [("id", VStr "m1"); ("fullName", VStr "Ann"); ("username", VStr "ann")];
         VObj [("id", VStr "m2"); ("username", VStr "bob")] ].

Definition demoCards : val :=
  VArr [ VObj [ ("id", VStr "c1"); ("idList", VStr listNameToId.Inbox);
                ("closed", VBool false);
                ("idLabels", VArr [VStr "l1"; VStr "l1"]);
                ("idMembers", VArr [VStr "m1"]);
                ("customFieldItems",
                 VArr [ VObj [("idValue", VStr "6317987e46e82a010a822ec5")];
                        VObj [("idValue", VStr "63237551f4e1250062d584d8")];
                        VObj [("idValue", VStr "6317987e46e82a010a822ec0")] ]) ];
         VObj [ ("id", VStr "c2"); ("idList", VStr listNameToId.Inbox) ];
         VObj [ ("id", VStr "c3"); ("idList", VStr listNameToId.Done);
                ("idLabels", VArr [VStr "l2"]);
                ("customFieldItems",
                 VArr [ VObj [("idValue", VStr "63237551f4e1250062d584da")];
                        VObj [("idValue", VStr "6317987e46e82a010a822ec1")] ]) ];
         VObj [ ("id", VStr "c4"); ("idList", VStr listNameToId.Inbox);
                ("idLabels", VArr [VStr "l1"; VStr labelNameToId.Divider]) ];
         VObj [ ("id", VStr "c5"); ("idList", VStr "000000000000000000000000");
                ("idMembers", VArr [VStr "m2"; VStr "m2"]);
                ("customFieldItems",
                 VArr [ VObj [("idValue", VStr "63237551f4e1250062d584d7")] ]) ];
         VObj [ ("id", VStr "c6"); ("idList", VStr listNameToId.Inbox);
                ("closed", VBool true) ];
         VNull ].

Definition demoMetrics : metricsObj :=
  families demoBoard demoLists demoLabels demoMembers demoCards.

(** The board of the end-to-end example of the specification: one list,
    Inbox, with a card of 180 seconds and a card without custom fields. *)
Definition inboxLists : val :=
  VArr [ VObj [("id", VStr listNameToId.Inbox); ("name", VStr "Inbox")] ].

Definition inboxCards : val :=
  VArr [ VObj [ ("idList", VStr listNameToId.Inbox);
                ("customFieldItems",
                 VArr [ VObj [("idValue", VStr "6317987e46e82a010a822ec0")] ]) ];
         VObj [ ("idList", VStr listNameToId.Inbox) ] ].

(** Two list records under one identifier, and a card of that list. *)
Definition twinLists : val :=
  VArr [ VObj [("id", VStr "A"); ("name", VStr "To do")];
         VObj [("id", VStr "A"); ("name", VStr "Doing")] ].

Definition oneCard : val := VArr [ VObj [("id", VStr "c1"); ("idList", VStr "A")] ].

(** A list under the name of an inherited member, and two cards of it; a
    label under such a name, and a card that carries it twice. *)
Definition oddLists : val :=
  VArr [ VObj [("id", VStr "constructor"); ("name", VStr "Odd")] ].

Definition oddCards : val :=
  VArr [ VObj [ ("idList", VStr "constructor");
                ("customFieldItems",
                 VArr [ VObj [("idValue", VStr "6317987e46e82a010a822ec0")] ]) ];
         VObj [ ("idList", VStr "constructor");
                ("customFieldItems",
                 VArr [ VObj [("idValue", VStr "6317987e46e82a010a822ec1")] ]) ] ].



(** An object that [String] cannot convert, and a card that names it as
    its list. *)
Definition poison : val := VObj [("toString", VNum 1)].

Definition poisonCards : val := VArr [ VObj [("idList", poison)] ].

(** ** Well-typed payloads *)

(** A record of the payload; a primitive value, which is what the
    identifiers and the names of the Trello API are; a collection that is
    absent or an array. *)
Definition record (v : val) : bool :=
  match v with
  | VObj _ => true
  | _ => false
  end.

Definition primitive (v : val) : bool :=
  match v with
  | VArr _ | VObj _ => false
  | _ => true
  end.

Definition collection (elem : val -> bool) (v : val) : bool :=
  match v with
  | VUndefined | VNull => true
  | VArr l => forallb elem l
  | _ => false
  end.

(** The entries of an array property, if it is one, are primitive. *)
Definition primitives (v : val) : bool := forallb primitive (elements v).

Definition typedItems (v : val) : bool :=
  forallb (fun item => primitive (prop item "idValue")) (elements v).

Definition typedList (l : val) : bool :=
  record l && primitive (prop l "id") && primitive (prop l "name").

Definition typedLabel (l : val) : bool :=
  record l && primitive (prop l "id") && primitive (prop l "name")
  && primitive (prop l "color").

Definition typedMember (m : val) : bool :=
  record m && primitive (prop m "id") && primitive (prop m "fullName")
  && primitive (prop m "username").

Definition typedCard (c : val) : bool :=
  primitive (prop c "idList") && primitives (prop c "idLabels")
  && primitives (prop c "idMembers") && typedItems (prop c "customFieldItems").

(** The payloads the Trello API answers with: a board, arrays of list,
    label and member records, an array of cards. *)
Definition wellTyped (board listsRaw labelsRaw membersRaw cardsRaw : val) : bool :=
  primitive (prop board "name")
  && collection typedList listsRaw && collection typedLabel labelsRaw
  && collection typedMember membersRaw && collection typedCard cardsRaw.

(** The collections alone: absent or arrays, lists, labels and members
    records. *)
Definition shaped (listsRaw labelsRaw membersRaw cardsRaw : val) : bool :=
  collection record listsRaw && collection record labelsRaw
  && collection record membersRaw && collection (fun _ => true) cardsRaw.

(** The object [o] with the property [k] set to [v]. *)
Definition withProp (k : string) (v : val) (o : list (string * val)) : val :=
  VObj (o ++ [(k, v)]).

(** What the aggregation reads of a card. *)
Definition sameCard (c c' : val) : Prop :=
  keepCard c = keepCard c' /\ cardRuns c = cardRuns c'
  /\ listOps (cardOf c) = listOps (cardOf c')
  /\ priorityOps (cardOf c) = priorityOps (cardOf c')
  /\ rangeOps (cardOf c) = rangeOps (cardOf c')
  /\ timeOps (cardOf c) = timeOps (cardOf c')
  /\ entryOps idLabels (cardOf c) = entryOps idLabels (cardOf c')
  /\ entryOps idMembers (cardOf c) = entryOps idMembers (cardOf c').

(** ** The text, line by line *)

(** The lines of the text the formatter writes for one family, without
    the line ends. *)
Definition typeLine (metricName : string) : string :=
  "# TYPE " +:+ metricName +:+ " gauge".

Definition helpLine (metricName help : string) : string :=
  "# HELP " +:+ metricName +:+ " " +:+ help.

Definition sampleLine (metricName : string) (s : sample) : string :=
  metricName +:+ "{" +:+ formatLabels s +:+ "} " +:+ cellText (value s).

Definition block (entry : string * metric) : list string :=
  typeLine (fst entry)
  :: helpLine (fst entry) (help (snd entry))
  :: List.map (sampleLine (fst entry)) (samples (snd entry)).

(** Every line followed by a line end. *)
Fixpoint unlines (ls : list string) : string :=
  match ls with
  | [] => EmptyString
  | l :: ls' => l +:+ str newline +:+ unlines ls'
  end.

(** Reading the text back: its lines, ... *)
Fixpoint lines (s : string) : list string :=
  match s with
  | EmptyString => []
  | String c s' =>
      if Ascii.eqb c newline then EmptyString :: lines s'
      else match lines s' with
           | [] => [str c]
           | l :: ls => String c l :: ls
           end
  end.

Fixpoint stripPrefix (p s : string) : option string :=
  match p, s with
  | EmptyString, _ => Some s
  | String a p', String b s' => if Ascii.eqb a b then stripPrefix p' s' else None
  | String _ _, EmptyString => None
  end.

Fixpoint upTo (c : ascii) (s : string) : string :=
  match s with
  | EmptyString => EmptyString
  | String a s' => if Ascii.eqb a c then EmptyString else String a (upTo c s')
  end.

(** ... the family a [# TYPE] line announces, ... *)
Definition typeName (l : string) : option string :=
  match stripPrefix "# TYPE " l with
  | Some rest => Some (upTo " " rest)
  | None => None
  end.

(** ... and the families in the order of their [# TYPE] lines, each with
    the lines that follow it up to the next one. *)
Fixpoint grouped (ls : list string) : list string * list (string * list string) :=
  match ls with
  | [] => ([], [])
  | l :: ls' =>
      let (loose, fams) := grouped ls' in
      match typeName l with
      | Some n => ([], (n, loose) :: fams)
      | None => (l :: loose, fams)
      end
  end.

Definition familiesIn (output : string) : list (string * list string) :=
  snd (grouped (lines output)).

Fixpoint hasChar (c : ascii) (s : string) : bool :=
  match s with
  | EmptyString => false
  | String a s' => Ascii.eqb a c || hasChar c s'
  end.

(** Whether [sub] occurs in [s]. *)
Fixpoint contains (sub s : string) : bool :=
  match stripPrefix sub s with
  | Some _ => true
  | None => match s with
            | EmptyString => false
            | String _ s' => contains sub s'
            end
  end.

(** The family list of the specification, under the names of the code. *)
Definition specFamilyOrder : list string :=
  [ "trello_boards_total"; "trello_lists_per_board"; "trello_cards_in_list_total";
    "trello_cards_by_priority_total"; "trello_cards_by_time_total";
    "trello_time_in_list_total"; "trello_labeled_cards_on_board";
    "trello_cards_per_board_member" ].

Definition metricsOrder : list string :=
  [ "trello_boards_total"; "trello_cards_in_list_total";
    "trello_labeled_cards_on_board"; "trello_cards_per_board_member";
    "trello_lists_per_board"; "trello_time_in_list_total";
    "trello_cards_by_priority_total"; "trello_cards_by_time_total" ].

(** The label keys of a sample hold no line end. *)
Definition plainKeys (s : sample) : bool :=
  forallb (fun kv => negb (hasChar newline (fst kv))) (labels s).

(** What makes a line of a sample a line of its own that announces no
    family. *)
Definition plainLine (l : string) : Prop :=
  typeName l = None /\ hasChar newline l = false.

(** A mapping whose text reads back: the header lines are lines that
    announce their family, and the lines of the samples are plain. *)
Definition tidyEntry (entry : string * metric) : Prop :=
  (typeName (typeLine (fst entry)) = Some (fst entry)
   /\ hasChar newline (typeLine (fst entry)) = false)
  /\ plainLine (helpLine (fst entry) (help (snd entry)))
  /\ Forall (fun s => plainLine (sampleLine (fst entry) s)) (samples (snd entry)).

(** ** The escaping of the specification *)

(** What the escaping of the specification makes of one character:
    backslash, double quote and line end get a backslash in front (the
    line end as the letter n), every other character stays. *)
Definition escapeChar (c : ascii) : string :=
  if Ascii.eqb c backslash then str backslash +:+ str backslash
  else if Ascii.eqb c dquote then str backslash +:+ str dquote
  else if Ascii.eqb c newline then str backslash +:+ "n"
  else str c.

Fixpoint escapeOnce (s : string) : string :=
  match s with
  | EmptyString => EmptyString
  | String c s' => escapeChar c +:+ escapeOnce s'
  end.

(** The label text of the specification, [He said "hi"] and a line end,
    and what it reads when escaped once and twice. *)
Definition labelText : string :=
  "He said " +:+ str dquote +:+ "hi" +:+ str dquote +:+ str newline.

Definition escapedOnce : string :=
  "He said " +:+ str backslash +:+ str dquote +:+ "hi" +:+ str backslash
  +:+ str dquote +:+ str backslash +:+ "n".

Definition escapedTwice : string :=
  "He said " +:+ str backslash +:+ str backslash +:+ str backslash +:+ str dquote
  +:+ "hi" +:+ str backslash +:+ str backslash +:+ str backslash +:+ str dquote
  +:+ str backslash +:+ str backslash +:+ "n".

(** ** Config, the Trello query and the HTTP server *)

(** [process.env]: the variables that are set, each with its text. *)
Abbreviation env := (gmap string string).

(** [process.env.K || ""]. *)
Definition getenv (e : env) (k : string) : string := default EmptyString (e !! k).

(** The constants of the module that the functions below read; [PORT], a
    [Number(...)] of a text, is only handed to [server.listen]. *)
Record config : Type :=
  { TRELLO_KEY : string; TRELLO_TOKEN : string; BOARD_ID : string; API_TOKEN : string }.

Definition readConfig (e : env) : config :=
  {| TRELLO_KEY := getenv e "TRELLO_KEY";
     TRELLO_TOKEN := getenv e "TRELLO_TOKEN";
     BOARD_ID := getenv e "TRELLO_BOARD_ID";
     API_TOKEN := getenv e "API_TOKEN" |}.

(** A value, or the message of the [Error] that was thrown instead. *)
Inductive outcome (A : Type) : Type :=
  | Returned (a : A)
  | Threw (message : string).
Arguments Returned {A} a.
Arguments Threw {A} message.

(** [!s] for a string [s]. *)
Definition blank (s : string) : bool := String.eqb s EmptyString.

(** The checks the module makes when it is loaded, before anything is
    fetched; [fetchExists] is [typeof fetch === "function"]. *)
Definition loadModule (e : env) (fetchExists : bool) : outcome config :=
  let cfg := readConfig e in
  if blank (TRELLO_KEY cfg) || blank (TRELLO_TOKEN cfg) || blank (BOARD_ID cfg)
  then Threw "Missing env: TRELLO_KEY, TRELLO_TOKEN, BOARD_ID are required."
  else if negb fetchExists
  then Threw "Global fetch not found. Use Node.js v18+ or install a fetch polyfill."
  else Returned cfg.

(** [URLSearchParams.prototype.toString]: the name and the value of every
    pair as UTF-8 bytes, a space as [+], letters, digits and [* - . _] as
    they are, every other byte as [%] and two upper-case hexadecimal
    digits; [=] inside a pair and [&] between pairs. *)
Definition unreserved (b : N) : bool :=
  ((48 <=? b) && (b <=? 57) || (65 <=? b) && (b <=? 90) || (97 <=? b) && (b <=? 122)
   || (b =? 42) || (b =? 45) || (b =? 46) || (b =? 95))%N.

Definition hexDigit (n : N) : ascii :=
  ascii_of_N (if (n <? 10)%N then 48 + n else 55 + n).

Definition percentEncode (b : N) : string :=
  String "%" (String (hexDigit (b / 16)) (String (hexDigit (b mod 16)) EmptyString)).

Definition encodeByte (b : N) : string :=
  if (b =? 32)%N then "+"
  else if unreserved b then str (ascii_of_N b)
  else percentEncode b.

(** The UTF-8 bytes of a character, which here is at most U+00FF. *)
Definition utf8 (c : ascii) : list N :=
  let n := N_of_ascii c in
  if (n <? 128)%N then [n] else [192 + n / 64; 128 + n mod 64]%N.

Fixpoint urlencode (s : string) : string :=
  match s with
  | EmptyString => EmptyString
  | String c s' =>
      fold_right (fun b rest => encodeByte b +:+ rest) (urlencode s') (utf8 c)
  end.

Definition serialize (pairs : list (string * string)) : string :=
  join "&" (List.map (fun kv => urlencode (fst kv) +:+ "=" +:+ urlencode (snd kv)) pairs).

(** [params] is an object used as a list of named arguments, here by the
    pairs that create it; [sp] is the list of pairs of the
    [URLSearchParams]. *)
Definition trelloQuery (cfg : config) (params : list (string * val)) : result string :=
  let sp := [("key", TRELLO_KEY cfg); ("token", TRELLO_TOKEN cfg)] in
  let! sp :=
    foldM
      (fun sp kv =>
         if negb (nullish (snd kv)) then
           let! s := to_string (snd kv) in
           Ok (sp ++ [(fst kv, s)])
         else Ok sp)
      (entries params) sp in
  Ok (serialize sp).

(** [s.startsWith(p)] and [s.slice(n)] for an [n] that is not negative. *)
Definition startsWith (p s : string) : bool :=
  match stripPrefix p s with
  | Some _ => true
  | None => false
  end.

Fixpoint slice (n : nat) (s : string) : string :=
  match n, s with
  | O, _ => s
  | S n', String _ s' => slice n' s'
  | S _, EmptyString => EmptyString
  end.

(** [checkAuth(req)] reads [req.headers.authorization] only: the text of
    the header, or [None] when the request has none. *)
Definition checkAuth (cfg : config) (authorization : option string) : bool :=
  if blank (API_TOKEN cfg) then true
  else match authorization with
       | None => false
       | Some authHeader =>
           if blank authHeader || negb (startsWith "Bearer " authHeader) then false
           else String.eqb (slice 7 authHeader) (API_TOKEN cfg)
       end.

(** What the handler reads of a request: the [pathname] of
    [new URL(req.url, ...)], or what the constructor throws, and the
    authorization header. *)
Record request : Type :=
  { pathname : outcome string; authorization : option string }.

(** What the handler writes: the arguments of [res.writeHead] and of
    [res.end]. *)
Record response : Type :=
  { status : N; headers : list (string * string); body : string }.

Definition internalServerError (message : string) : response :=
  {| status := 500;
     headers := [("Content-Type", "text/plain; charset=utf-8")];
     body := "Internal Server Error" +:+ str newline +:+ message +:+ str newline |}.

(** The callback of [http.createServer]; [scrape] is what
    [await buildMetrics()] comes to for this request, if it is reached. *)
Definition handler (cfg : config) (req : request) (scrape : outcome string)
  : response :=
  match pathname req with
  | Threw message => internalServerError message
  | Returned path =>
      if String.eqb path "/metrics" then
        if negb (checkAuth cfg (authorization req))
        then {| status := 401; headers := []; body := EmptyString |}
        else if blank (TRELLO_KEY cfg) || blank (TRELLO_TOKEN cfg) || blank (BOARD_ID cfg)
        then {| status := 500;
                headers := [("Content-Type", "text/plain; charset=utf-8")];
                body := "Missing required environment variables: TRELLO_KEY, TRELLO_TOKEN, BOARD_ID."
                        +:+ str newline |}
        else match scrape with
             | Returned text =>
                 {| status := 200;
                    headers :=
                      [ ("Content-Type", "text/plain; version=0.0.4; charset=utf-8");
                        ("Cache-Control", "no-cache, no-store, must-revalidate");
                        ("Pragma", "no-cache"); ("Expires", "0") ];
                    body := text |}
             | Threw message => internalServerError message
             end
      else if String.eqb path "/health" then
        {| status := 200; headers := [("Content-Type", "text/plain")];
           body := "ok" +:+ str newline |}
      else
        {| status := 404;
           headers := [("Content-Type", "text/plain; charset=utf-8")];
           body := "Not Found" +:+ str newline |}
  end.

(** ** Yardsticks for the text and the query *)

(** The headers of a served scrape. *)
Definition metricsHeaders : list (string * string) :=
  [ ("Content-Type", "text/plain; version=0.0.4; charset=utf-8");
    ("Cache-Control", "no-cache, no-store, must-revalidate");
    ("Pragma", "no-cache"); ("Expires", "0") ].

Definition consFst (c : ascii) (r : option (string * string)) : option (string * string) :=
  match r with
  | Some (t, rest) => Some (String c t, rest)
  | None => None
  end.

(** A reader of the exposition format at a label value, just after the
    opening quote: the text up to the closing quote, with every backslash
    and the character after it read as one character (the letter n as a
    line end), and what follows the closing quote. *)
Fixpoint readQuoted (s : string) : option (string * string) :=
  match s with
  | EmptyString => None
  | String c s' =>
      if Ascii.eqb c dquote then Some (EmptyString, s')
      else if Ascii.eqb c backslash then
        match s' with
        | EmptyString => None
        | String e s'' =>
            consFst (if Ascii.eqb e "n" then newline else e) (readQuoted s'')
        end
      else consFst c (readQuoted s')
  end.

(** The characters [escapeLabel] touches, and how many of them a text
    holds. *)
Definition special (c : ascii) : bool :=
  Ascii.eqb c backslash || Ascii.eqb c dquote || Ascii.eqb c newline.

Fixpoint countSpecial (s : string) : nat :=
  match s with
  | EmptyString => 0
  | String c s' => (if special c then 1 else 0) + countSpecial s'
  end.

(** No name, help text, label key or value of the mapping holds a line
    end. *)
Definition oneLiners (metrics : metricsObj) : bool :=
  forallb
    (fun entry =>
       negb (hasChar newline (fst entry)) && negb (hasChar newline (help (snd entry)))
       && forallb
            (fun s => plainKeys s && negb (hasChar newline (cellText (value s))))
            (samples (snd entry)))
    metrics.

(** The names no two of which are the same and none of which is an array
    index: an object lists them in the order of their creation. *)
Definition plainNames (names : list string) : bool :=
  bool_decide (NoDup names) && forallb (fun k => negb (isIndex (k, tt))) names.

(** The pairs a query is made of. *)
Definition sentParams (params : list (string * val)) : list (string * val) :=
  List.filter (fun kv => negb (nullish (snd kv))) (entries params).

Fixpoint allChars (p : ascii -> bool) (s : string) : bool :=
  match s with
  | EmptyString => true
  | String c s' => p c && allChars p s'
  end.

Fixpoint countChar (c : ascii) (s : string) : nat :=
  match s with
  | EmptyString => 0
  | String a s' => (if Ascii.eqb a c then 1 else 0) + countChar c s'
  end.

(** What [urlencode] makes of one character. *)
Definition encodeChar (c : ascii) : string :=
  fold_right (fun b rest => encodeByte b +:+ rest) EmptyString (utf8 c).

(** The characters a query is made of: letters, digits, [* - . _], and
    [+ % & =]. *)
Definition queryChar (c : ascii) : bool :=
  unreserved (N_of_ascii c)
  || Ascii.eqb c "+" || Ascii.eqb c "%" || Ascii.eqb c "&" || Ascii.eqb c "=".

(** ** Loops that may throw *)

(** Settles a goal about an entry [H : x ∈ values tbl] of a static table by
    going through the entries. *)
Ltac each_entry H :=
  vm_compute in H;
  repeat (apply elem_of_cons in H as [->|H]; [reflexivity|]);
  by apply elem_of_nil in H.

Section Monads.

Lemma foldM_total {A S} (f : S -> A -> result S) (ok : A -> bool) (g : S -> A -> S) :
  (forall s a, f s a = if ok a then Ok (g s a) else TypeError) ->
  forall l s, foldM f l s = if forallb ok l then Ok (fold_left g l s) else TypeError.
Proof.
  intros Hf l. induction l as [|a l IH]; intros s; [reflexivity|].
  cbn [foldM forallb fold_left]. rewrite Hf. destruct (ok a); cbn [bind andb]; [apply IH|done].
Qed.

Lemma foldM_Ok {A S} (f : S -> A -> result S) (g : S -> A -> S) :
  (forall s a, f s a = Ok (g s a)) ->
  forall l s, foldM f l s = Ok (fold_left g l s).
Proof.
  intros Hf l s. rewrite (foldM_total f (fun _ => true) g).
  - by rewrite (proj2 (forallb_forall _ l)).
  - intros s' a. apply Hf.
Qed.

Lemma mapM_total {A B} (f : A -> result B) (g : A -> B) :
  (forall a b, f a = Ok b -> g a = b) ->
  forall l, mapM f l = if forallb (fun a => isOk (f a)) l then Ok (List.map g l) else TypeError.
Proof.
  intros Hg l. induction l as [|a l IH]; [reflexivity|].
  cbn [mapM forallb List.map]. destruct (f a) as [b|] eqn:E; cbn [bind isOk andb]; [|done].
  rewrite IH, (Hg _ _ E). by destruct (forallb _ l).
Qed.

Lemma fold_left_flat_map {A B S} (step : S -> B -> S) (ops : A -> list B) (l : list A) s :
  fold_left (fun s a => fold_left step (ops a) s) l s
  = fold_left step (flat_map ops l) s.
Proof.
  revert s. induction l as [|a l IH]; intros s; [reflexivity|].
  cbn [fold_left flat_map]. by rewrite fold_left_app, IH.
Qed.

Lemma fold_left_map {A B C} (f : A -> B -> A) (g : C -> B) (l : list C) a :
  fold_left f (List.map g l) a = fold_left (fun a c => f a (g c)) l a.
Proof. revert a. induction l as [|c l IH]; intros a; simpl; [reflexivity|apply IH]. Qed.

Lemma forallb_and {A} (p q : A -> bool) (l : list A) :
  forallb (fun a => p a && q a) l = forallb p l && forallb q l.
Proof.
  induction l as [|a l IH]; [reflexivity|]. cbn [forallb]. rewrite IH.
  destruct (p a), (q a), (forallb p l), (forallb q l); reflexivity.
Qed.

Lemma forallb_ext' {A} (p q : A -> bool) (l : list A) :
  (forall a, p a = q a) -> forallb p l = forallb q l.
Proof. intros H. induction l as [|a l IH]; [reflexivity|]. cbn. by rewrite H, IH. Qed.

Lemma forallb_map' {A B} (f : A -> B) (p : B -> bool) (l : list A) :
  forallb p (List.map f l) = forallb (fun a => p (f a)) l.
Proof. induction l as [|a l IH]; [reflexivity|]. cbn. by rewrite IH. Qed.

End Monads.

(** ** Conversions *)

Section Conversions.

Lemma to_string_text v s : to_string v = Ok s -> text v = s.
Proof. unfold text. by intros ->. Qed.

Lemma isOk_text v : isOk (to_string v) = true -> to_string v = Ok (text v).
Proof. unfold text. by destruct (to_string v). Qed.

Lemma isOk_escaped v : isOk (escapeLabel v) = true -> escapeLabel v = Ok (escaped v).
Proof. unfold escaped. by destruct (escapeLabel v). Qed.

Lemma escapeLabel_str s : escapeLabel (VStr s) = Ok (escapeText s).
Proof. reflexivity. Qed.

Lemma escaped_str s : escaped (VStr s) = escapeText s.
Proof. reflexivity. Qed.

Lemma primitive_to_string v : primitive v = true -> isOk (to_string v) = true.
Proof. destruct v as [| |[|]| | | |]; try discriminate; reflexivity. Qed.

Lemma primitive_escapeLabel v : primitive v = true -> isOk (escapeLabel v) = true.
Proof. destruct v as [| |[|]| | | |]; try discriminate; reflexivity. Qed.

Lemma raw_cardOf c : raw (cardOf c) = c.
Proof. unfold cardOf, enrich. by destruct (foldM _ _ _). Qed.

Lemma enrich_cardOf c e : enrich c = Ok e -> cardOf c = e.
Proof. unfold cardOf. by intros ->. Qed.

Lemma closed_cardOf c : closed (cardOf c) = archived c.
Proof. unfold closed. by rewrite raw_cardOf. Qed.

Lemma idList_cardOf c : idList (cardOf c) = prop c "idList".
Proof. unfold idList. by rewrite raw_cardOf. Qed.

Lemma idLabels_cardOf c : idLabels (cardOf c) = prop c "idLabels".
Proof. unfold idLabels. by rewrite raw_cardOf. Qed.

Lemma idMembers_cardOf c : idMembers (cardOf c) = prop c "idMembers".
Proof. unfold idMembers. by rewrite raw_cardOf. Qed.

End Conversions.

(** ** Dictionaries filled by a loop *)

Section Dictionaries.

Lemma sumN_app l1 l2 : sumN (l1 ++ l2) = (sumN l1 + sumN l2)%N.
Proof. induction l1 as [|a l1 IH]; simpl; lia. Qed.

Lemma count_empty x : count ∅ x = if inherited x then Grown x [] else Num 0.
Proof. unfold count. by rewrite lookup_empty. Qed.

Lemma truthy_plus c n : (if truthyCell (plus c n) then plus c n else Num 0) = plus c n.
Proof.
  destruct c as [m|k added]; simpl; [|reflexivity].
  destruct (m + n =? 0)%N eqn:E; simpl; [|reflexivity].
  apply N.eqb_eq in E. by rewrite E.
Qed.

(** Under every name but [__proto__], an addition shows in what the
    dictionary holds; under [__proto__] nothing ever does. *)
Lemma count_bump k n (d : dict) x :
  count (bump k n d) x
  = if String.eqb x "__proto__" then count d x
    else if String.eqb k x then plus (count d x) n else count d x.
Proof.
  unfold bump. destruct (String.eqb k "__proto__") eqn:Ek.
  - apply String.eqb_eq in Ek as ->.
    destruct (String.eqb x "__proto__") eqn:Ex; [reflexivity|].
    rewrite String.eqb_sym, Ex. reflexivity.
  - destruct (String.eqb x "__proto__") eqn:Ex.
    + apply String.eqb_eq in Ex as ->. unfold count at 1.
      rewrite lookup_insert_ne; [reflexivity|]. intros ->. by rewrite String.eqb_refl in Ek.
    + destruct (String.eqb k x) eqn:Ekx.
      * apply String.eqb_eq in Ekx as ->. unfold count at 1.
        rewrite lookup_insert_eq. apply truthy_plus.
      * apply String.eqb_neq in Ekx. unfold count at 1. by rewrite lookup_insert_ne.
Qed.

Lemma count_fold (ops : list (string * N)) (d : dict) x :
  count (fold_left (fun d op => bump (fst op) (snd op) d) ops d) x
  = if String.eqb x "__proto__" then count d x
    else fold_left plus (addends x ops) (count d x).
Proof.
  revert d. induction ops as [|[k n] ops IH]; intros d.
  - simpl. by destruct (String.eqb x "__proto__").
  - cbn [fold_left fst snd]. rewrite IH, count_bump. unfold addends. cbn [List.filter fst].
    destruct (String.eqb x "__proto__"); [reflexivity|].
    destruct (String.eqb k x); reflexivity.
Qed.

Lemma plus_Num ns m : fold_left plus ns (Num m) = Num (m + sumN ns).
Proof.
  revert m. induction ns as [|n ns IH]; intros m; simpl.
  - f_equal. lia.
  - rewrite IH. f_equal. lia.
Qed.

Lemma plus_Grown ns k added : fold_left plus ns (Grown k added) = Grown k (added ++ ns).
Proof.
  revert added. induction ns as [|n ns IH]; intros added; simpl.
  - by rewrite app_nil_r.
  - by rewrite IH, <- app_assoc.
Qed.

(** What a dictionary filled from nothing holds under a name: the sum of
    the addends; under the name of an inherited member, that member and
    the addends after it, as a text; under [__proto__], the prototype. *)
Lemma count_fill x ops : count (fill ops) x = held x (addends x ops).
Proof.
  unfold fill, held. rewrite count_fold, count_empty.
  destruct (String.eqb x "__proto__") eqn:E.
  - apply String.eqb_eq in E as ->. reflexivity.
  - destruct (inherited x); [by rewrite plus_Grown|by rewrite plus_Num].
Qed.

Lemma held_ownKey x ns : ownKey x = true -> held x ns = Num (sumN ns).
Proof.
  unfold ownKey, held. intros H%negb_true_iff. rewrite H.
  destruct (String.eqb x "__proto__") eqn:E; [|reflexivity].
  apply String.eqb_eq in E as ->. discriminate H.
Qed.

Lemma addends_app x ops1 ops2 : addends x (ops1 ++ ops2) = addends x ops1 ++ addends x ops2.
Proof. unfold addends. by rewrite List.filter_app, List.map_app. Qed.

Lemma addends_flat_map {A} x (ops : A -> list (string * N)) (l : list A) :
  addends x (flat_map ops l) = flat_map (fun a => addends x (ops a)) l.
Proof.
  induction l as [|a l IH]; [reflexivity|]. cbn [flat_map]. by rewrite addends_app, IH.
Qed.

Lemma sumN_flat_map {A} (f : A -> list N) (l : list A) :
  sumN (flat_map f l) = sumN (List.map (fun a => sumN (f a)) l).
Proof.
  induction l as [|a l IH]; [reflexivity|]. cbn [flat_map List.map]. rewrite sumN_app, IH.
  reflexivity.
Qed.

(** Under a name that is not inherited, a tally holds the sum of what the
    cards add under it. *)
Lemma count_tally ops (cards : list card) x :
  ownKey x = true ->
  count (tally ops cards) x
  = Num (sumN (List.map (fun c => sumN (addends x (ops c))) cards)).
Proof.
  intros Hx. unfold tally.
  by rewrite count_fill, held_ownKey, addends_flat_map, sumN_flat_map.
Qed.

(** A sum of zeros and ones counts the ones. *)
Lemma sumN_indicator {A} (p : A -> bool) (l : list A) :
  sumN (List.map (fun a => if p a then 1%N else 0%N) l)
  = N.of_nat (length (List.filter p l)).
Proof.
  induction l as [|a l IH]; simpl; [reflexivity|].
  rewrite IH. destruct (p a); simpl; lia.
Qed.

Lemma sumN_ext {A} (f g : A -> N) (l : list A) :
  (forall a, f a = g a) -> sumN (List.map f l) = sumN (List.map g l).
Proof. intros H. induction l as [|a l IH]; simpl; [reflexivity|]. by rewrite H, IH. Qed.

Lemma howMany_app p l1 l2 : howMany p (l1 ++ l2) = (howMany p l1 + howMany p l2)%N.
Proof. unfold howMany. rewrite List.filter_app, length_app. lia. Qed.

Lemma howMany_cons p a l :
  howMany p (a :: l) = ((if p a then 1 else 0) + howMany p l)%N.
Proof. unfold howMany. simpl. destruct (p a); simpl; lia. Qed.

End Dictionaries.

(** ** The loops of [buildMetrics] *)

Section Loops.

Local Opaque timeMap priorityMap.

(** One turn of the scan, by what the item stands for in each table. *)
Lemma scanItem_recognized c item :
  scanItem c item
  = let! rt := recognized timeMap item in
    let! rp := recognized priorityMap item in
    Ok {| time := match rt with Some t => Some t | None => time c end;
          priority := match rp with Some p => Some p | None => priority c end |}.
Proof.
  unfold scanItem, recognized, hasOwnProperty. destruct c as [ct cp].
  destruct (truthy item && truthy (prop item "idValue")); cbn [bind]; [|reflexivity].
  destruct (to_string (prop item "idValue")) as [k|]; cbn [bind]; [|reflexivity].
  destruct (own timeMap k) as [t|] eqn:Et; cbn [bind time priority];
    destruct (own priorityMap k) as [q|] eqn:Ep; reflexivity.
Qed.

Lemma foldM_app {A S} (f : S -> A -> result S) (l1 l2 : list A) s :
  foldM f (l1 ++ l2) s = let! s' := foldM f l1 s in foldM f l2 s'.
Proof.
  revert s. induction l1 as [|a l1 IH]; intros s; [reflexivity|].
  cbn [foldM app]. destruct (f s a); cbn [bind]; [apply IH|reflexivity].
Qed.

(** Items that stand for nothing in a table leave what was resolved. *)
Lemma scan_time_unrecognized items c0 c1 :
  Forall (fun item => recognized timeMap item = Ok None) items ->
  foldM scanItem items c0 = Ok c1 -> time c1 = time c0.
Proof.
  intros H. revert c0. induction H as [|item items Hi _ IH]; intros c0 Hc; cbn [foldM] in Hc.
  - by injection Hc as <-.
  - rewrite scanItem_recognized, Hi in Hc. cbn [bind] in Hc.
    destruct (recognized priorityMap item) as [rp|]; [|discriminate]. cbn [bind] in Hc.
    by rewrite (IH _ Hc).
Qed.

Lemma scan_priority_unrecognized items c0 c1 :
  Forall (fun item => recognized priorityMap item = Ok None) items ->
  foldM scanItem items c0 = Ok c1 -> priority c1 = priority c0.
Proof.
  intros H. revert c0. induction H as [|item items Hi _ IH]; intros c0 Hc; cbn [foldM] in Hc.
  - by injection Hc as <-.
  - rewrite scanItem_recognized, Hi in Hc.
    destruct (recognized timeMap item) as [rt|]; [|discriminate]. cbn [bind] in Hc.
    by rewrite (IH _ Hc).
Qed.

(** Whatever the scan resolves comes from the static tables. *)
Lemma own_values {A} (tbl : list (string * A)) k a :
  entries tbl = tbl -> own tbl k = Some a -> a ∈ values tbl.
Proof.
  unfold values. intros ->.
  induction tbl as [|[k' a'] tbl IH]; simpl; [done|].
  destruct (String.eqb k k').
  - intros [= ->]. apply list_elem_of_here.
  - intros H. apply list_elem_of_further. by apply IH.
Qed.

Lemma recognized_values {A} (tbl : list (string * A)) item a :
  entries tbl = tbl -> recognized tbl item = Ok (Some a) -> a ∈ values tbl.
Proof.
  intros He. unfold recognized. destruct (_ && _); [|discriminate].
  destruct (to_string _); [|discriminate]. cbn [bind]. intros [= H].
  by eapply own_values.
Qed.

Local Transparent timeMap priorityMap.

Lemma entries_timeMap : entries timeMap = timeMap.
Proof. vm_compute. reflexivity. Qed.

Lemma entries_priorityMap : entries priorityMap = priorityMap.
Proof. vm_compute. reflexivity. Qed.

Local Opaque timeMap priorityMap.

Lemma scan_priority items c0 c1 p :
  foldM scanItem items c0 = Ok c1 -> priority c1 = Some p ->
  priority c0 = Some p \/ p ∈ values priorityMap.
Proof.
  revert c0. induction items as [|item items IH]; intros c0 Hc Hp; cbn [foldM] in Hc.
  - injection Hc as <-. by left.
  - rewrite scanItem_recognized in Hc.
    destruct (recognized timeMap item) as [rt|]; [|discriminate]. cbn [bind] in Hc.
    destruct (recognized priorityMap item) as [rp|] eqn:E; [|discriminate]. cbn [bind] in Hc.
    destruct (IH _ Hc Hp) as [H1|H1]; [|by right]. cbn [priority] in H1.
    destruct rp as [q|]; [|by left].
    right. injection H1 as ->. eapply recognized_values; [apply entries_priorityMap|exact E].
Qed.

Lemma scan_time items c0 c1 t :
  foldM scanItem items c0 = Ok c1 -> time c1 = Some t ->
  time c0 = Some t \/ t ∈ values timeMap.
Proof.
  revert c0. induction items as [|item items IH]; intros c0 Hc Hp; cbn [foldM] in Hc.
  - injection Hc as <-. by left.
  - rewrite scanItem_recognized in Hc.
    destruct (recognized timeMap item) as [rt|] eqn:E; [|discriminate]. cbn [bind] in Hc.
    destruct (recognized priorityMap item) as [rp|]; [|discriminate]. cbn [bind] in Hc.
    destruct (IH _ Hc Hp) as [H1|H1]; [|by right]. cbn [time] in H1.
    destruct rt as [q|]; [|by left].
    right. injection H1 as ->. eapply recognized_values; [apply entries_timeMap|exact E].
Qed.

Lemma resolvedPriority_values c p :
  resolvedPriority c = Some p -> p ∈ values priorityMap.
Proof.
  unfold resolvedPriority, cardOf, enrich.
  destruct (foldM scanItem _ _) as [c1|] eqn:E; cbn [bind custom priority]; [|discriminate].
  intros H. by destruct (scan_priority _ _ _ _ E H) as [H'|H'].
Qed.

Lemma resolvedTime_values c t :
  resolvedTime c = Some t -> t ∈ values timeMap.
Proof.
  unfold resolvedTime, cardOf, enrich.
  destruct (foldM scanItem _ _) as [c1|] eqn:E; cbn [bind custom time]; [|discriminate].
  intros H. by destruct (scan_time _ _ _ _ E H) as [H'|H'].
Qed.

Local Transparent priorityMap.

Lemma hasPriority_resolved c :
  hasPriority (cardOf c) = bool_decide (is_Some (resolvedPriority c)).
Proof.
  unfold hasPriority. fold (resolvedPriority c).
  destruct (resolvedPriority c) as [p|] eqn:E.
  - apply resolvedPriority_values in E.
    rewrite bool_decide_eq_true_2 by eauto. each_entry E.
  - rewrite bool_decide_eq_false_2; [reflexivity|]. by intros [? ?].
Qed.

Local Opaque priorityMap.

Lemma mapM_enrich (cs : list val) :
  mapM enrich cs = if forallb scans cs then Ok (List.map cardOf cs) else TypeError.
Proof. apply mapM_total. intros c e. apply enrich_cardOf. Qed.

(** The six dictionaries, by the additions of the cards. *)
Lemma cardsByList_tally (cards : list card) :
  cardsByList cards
  = if forallb (fun c => closed c || isOk (to_string (idList c))) cards
    then Ok (tally listOps cards) else TypeError.
Proof.
  unfold cardsByList, tally, fill. rewrite <- fold_left_flat_map.
  apply foldM_total. intros d c. unfold listOps.
  destruct (closed c); cbn [negb orb fold_left]; [reflexivity|].
  unfold text. by destruct (to_string (idList c)).
Qed.

Lemma hasPriority_Some (c : card) :
  (forall p, priority (custom c) = Some p -> truthy (VStr p) = true) ->
  hasPriority c = bool_decide (is_Some (priority (custom c))).
Proof.
  intros H. unfold hasPriority. destruct (priority (custom c)) as [p|].
  - rewrite (H p eq_refl). by rewrite bool_decide_eq_true_2 by eauto.
  - rewrite bool_decide_eq_false_2; [reflexivity|]. by intros [? ?].
Qed.

Lemma cardsByPriority_tally (cs : list val) :
  cardsByPriority (List.map cardOf cs) = tally priorityOps (List.map cardOf cs).
Proof.
  unfold cardsByPriority, tally, fill. rewrite <- fold_left_flat_map.
  generalize (∅ : dict). induction cs as [|c cs IH]; intros d; [reflexivity|].
  cbn [List.map fold_left]. rewrite <- IH. f_equal.
  rewrite hasPriority_resolved. unfold priorityOps. fold (resolvedPriority c).
  destruct (negb (closed (cardOf c))); cbn [andb]; [|reflexivity].
  destruct (resolvedPriority c) as [p|].
  - rewrite bool_decide_eq_true_2 by eauto. cbn [andb].
    by destruct (negb (includes doneLists (idList (cardOf c)))).
  - rewrite bool_decide_eq_false_2 by (by intros [? ?]). cbn [andb].
    by destruct (negb (includes doneLists (idList (cardOf c)))).
Qed.

Lemma cardsByTime_tally (cards : list card) :
  cardsByTime cards = tally rangeOps cards.
Proof.
  unfold cardsByTime, tally, fill. rewrite <- fold_left_flat_map.
  generalize (∅ : dict). induction cards as [|c cards IH]; intros d; [reflexivity|].
  cbn [fold_left]. rewrite <- IH. f_equal. unfold rangeOps, hasTime.
  destruct (negb (closed c)); cbn [andb]; [|reflexivity].
  destruct (time (custom c)) as [t|].
  - by rewrite bool_decide_eq_true_2 by eauto.
  - by rewrite bool_decide_eq_false_2 by (by intros [? ?]).
Qed.

Lemma cardTimeByList_tally (cards : list card) :
  forallb (fun c => closed c || isOk (to_string (idList c))) cards = true ->
  cardTimeByList cards = Ok (tally timeOps cards).
Proof.
  intros Hok. unfold cardTimeByList, tally, fill. rewrite <- fold_left_flat_map.
  rewrite (foldM_total _
             (fun c => closed c || isOk (to_string (idList c))
                       || negb (bool_decide (is_Some (time (custom c)))))
             (fun d c => fold_left (fun d op => bump (fst op) (snd op) d) (timeOps c) d)).
  - replace (forallb _ cards) with true; [reflexivity|]. symmetry.
    apply forallb_forall. intros c Hc.
    rewrite forallb_forall in Hok. by rewrite (Hok c Hc).
  - intros d c. unfold timeOps, hasTime.
    destruct (closed c); cbn [negb orb andb fold_left]; [reflexivity|].
    destruct (time (custom c)) as [t|].
    + rewrite bool_decide_eq_true_2 by eauto. unfold text.
      destruct (to_string (idList c)); reflexivity.
    + rewrite bool_decide_eq_false_2 by (by intros [? ?]).
      by rewrite orb_true_r.
Qed.

Lemma entries_loop (ids : list val) (d : dict) :
  foldM (fun d i => let! k := to_string i in Ok (bump k 1 d)) ids d
  = if forallb (fun i => isOk (to_string i)) ids
    then Ok (fold_left (fun d op => bump (fst op) (snd op) d)
               (List.map (fun i => (text i, 1%N)) ids) d)
    else TypeError.
Proof.
  rewrite fold_left_map.
  apply (foldM_total _ _ (fun d i => bump (text i) 1 d)).
  intros s i. unfold text. by destruct (to_string i).
Qed.

Lemma countEntries_tally (field : card -> val) (cards : list card) :
  countEntries field cards
  = if forallb (fun c => closed c || keys (field c)) cards
    then Ok (tally (entryOps field) cards) else TypeError.
Proof.
  unfold countEntries, tally, fill. rewrite <- fold_left_flat_map.
  apply foldM_total. intros d c. unfold entryOps, keys.
  destruct (closed c); cbn [negb orb andb]; [reflexivity|].
  destruct (field c) as [| | | | |ids|]; try reflexivity.
  cbn [isArray elements]. destruct ids as [|i ids]; [reflexivity|].
  change (negb (length (i :: ids) =? 0)%nat) with true. cbv iota.
  apply entries_loop.
Qed.

End Loops.

(** ** The samples [buildMetrics] pushes *)

Section Pushes.

Local Opaque timeMap priorityMap.

Lemma push_pushAll name s m : push name s m = pushAll name [s] m.
Proof. reflexivity. Qed.

Lemma pushAll_nil name m : pushAll name [] m = m.
Proof.
  unfold pushAll. induction m as [|[n [h ss]] m IH]; simpl; [reflexivity|].
  rewrite IH, app_nil_r. by destruct (String.eqb n name).
Qed.

Lemma pushAll_app name ss1 ss2 m :
  pushAll name ss2 (pushAll name ss1 m) = pushAll name (ss1 ++ ss2) m.
Proof.
  unfold pushAll. rewrite List.map_map. apply List.map_ext. intros [n [h ss]]. simpl.
  destruct (String.eqb n name) eqn:E; simpl; rewrite ?E; [|reflexivity].
  by rewrite <- app_assoc.
Qed.

Lemma fold_push {A} name (f : A -> list sample) (xs : list A) m :
  fold_left (fun metrics x => pushAll name (f x) metrics) xs m
  = pushAll name (flat_map f xs) m.
Proof.
  revert m. induction xs as [|x xs IH]; intros m; simpl.
  - by rewrite pushAll_nil.
  - by rewrite IH, pushAll_app.
Qed.

Lemma flat_map_singleton {A B} (f : A -> B) (l : list A) :
  flat_map (fun a => [f a]) l = List.map f l.
Proof. induction l as [|a l IH]; [reflexivity|]. cbn. by rewrite IH. Qed.

Lemma pushLists_total name boardName (d : dict) (lists : list val) m :
  pushLists name boardName d lists m
  = if forallb listRuns lists
    then Ok (pushAll name (List.map (listSample boardName d) lists) m)
    else TypeError.
Proof.
  unfold pushLists. rewrite <- flat_map_singleton, <- fold_push.
  apply foldM_total. intros s l. unfold listRuns, listSample, idOf, text, escaped.
  destruct (to_string (prop l "id")); cbn [bind isOk andb]; [|reflexivity].
  by destruct (escapeLabel (prop l "name")).
Qed.

Lemma pushNamed_total name key nameOf boardName (d : dict) (xs : list val) m :
  pushNamed name key nameOf boardName d xs m
  = if forallb (namedRuns nameOf d) xs
    then Ok (pushAll name (flat_map (namedSamples key nameOf boardName d) xs) m)
    else TypeError.
Proof.
  unfold pushNamed. rewrite <- fold_push.
  apply foldM_total. intros s x. unfold namedRuns, namedSamples, get, idOf, text, escaped.
  destruct (nullish x); cbn [bind negb andb]; [reflexivity|].
  destruct (to_string (prop x "id")); cbn [bind isOk andb]; [|reflexivity].
  destruct (positive (count d a)); cbn [negb orb]; [|by rewrite pushAll_nil].
  by destruct (escapeLabel (nameOf x)).
Qed.

Lemma push_priorities boardName (d : dict) (ps : list string) m :
  foldM
    (fun metrics priority =>
       let cardCount := count d priority in
       let! shown := escapeLabel (VStr priority) in
       Ok (push "trello_cards_by_priority_total"
             {| labels := [("board", boardName); ("priority", shown)];
                value := cardCount |}
             metrics))
    ps m
  = Ok (pushAll "trello_cards_by_priority_total"
          (List.map (prioritySample boardName d) ps) m).
Proof.
  rewrite <- flat_map_singleton, <- fold_push. by apply foldM_Ok.
Qed.

Lemma push_times boardName (d : dict) (ts : list timeEntry) m :
  foldM
    (fun metrics t =>
       let cardCount := count d (t_range t) in
       let! shown := escapeLabel (VStr (t_range t)) in
       Ok (push "trello_cards_by_time_total"
             {| labels := [("board", boardName); ("time", shown)];
                value := cardCount |}
             metrics))
    ts m
  = Ok (pushAll "trello_cards_by_time_total" (List.map (timeSample boardName d) ts) m).
Proof.
  rewrite <- flat_map_singleton, <- fold_push. by apply foldM_Ok.
Qed.

Lemma keepList_eq l :
  keepList l
  = if nullish l then TypeError else Ok (negb (includes listsToIgnore (prop l "id"))).
Proof. unfold keepList, get. by destruct (nullish l). Qed.

Lemma filterM_keepList (ls : list val) :
  filterM keepList ls
  = if objects ls
    then Ok (List.filter (fun l => negb (includes listsToIgnore (prop l "id"))) ls)
    else TypeError.
Proof.
  induction ls as [|l ls IH]; [reflexivity|].
  cbn [filterM objects forallb]. rewrite (keepList_eq l), IH.
  destruct (nullish l); simpl; [reflexivity|].
  fold (objects ls). destruct (objects ls); simpl; [|reflexivity].
  by destruct (negb _).
Qed.

Lemma filterable_elements v l : filterable v = Ok l -> elements (or v (VArr [])) = l.
Proof.
  unfold filterable. destruct (or v (VArr [])); try discriminate.
  by intros [= ->].
Qed.

(** What makes the loops over the cards run, card by card. *)
Lemma cardRuns_split (cs : list val) :
  forallb cardRuns cs
  = forallb scans cs
    && forallb (fun c => closed c || isOk (to_string (idList c))) (List.map cardOf cs)
    && forallb (fun c => closed c || keys (idLabels c)) (List.map cardOf cs)
    && forallb (fun c => closed c || keys (idMembers c)) (List.map cardOf cs).
Proof.
  rewrite !forallb_map', <- !forallb_and. apply forallb_ext'. intros c.
  unfold cardRuns. rewrite closed_cardOf, idList_cardOf, idLabels_cardOf, idMembers_cardOf.
  destruct (scans c), (archived c), (isOk _), (keys _), (keys _); reflexivity.
Qed.

(** [aggregate] throws exactly when [runs] does not hold, and otherwise
    returns [families]. *)
Lemma aggregate_runs b ls lb ms cs :
  aggregate b ls lb ms cs
  = if runs b ls lb ms cs then Ok (families b ls lb ms cs) else TypeError.
Proof.
  unfold aggregate, runs, families, boardNameOf.
  destruct (boardName b) as [bn|]; cbn [bind isOk andb]; [|reflexivity].
  destruct (filterable ls) as [lsL|] eqn:Els; cbn [bind]; [|reflexivity].
  rewrite filterM_keepList.
  destruct (objects lsL) eqn:Ols; cbn [bind andb].
  2: { by destruct (iterate lb), (iterate ms), (filterable cs). }
  destruct (filterable cs) as [csL|] eqn:Ecs; cbn [bind].
  2: { by destruct (iterate lb), (iterate ms). }
  unfold survivingLists, enriched, survivingCards, cardsOf, itemsOf.
  rewrite (filterable_elements _ _ Els), (filterable_elements _ _ Ecs).
  set (lists := List.filter _ lsL). set (cards := List.filter keepCard csL).
  rewrite cardRuns_split, mapM_enrich.
  destruct (forallb scans cards); cbn [bind andb].
  2: { destruct (iterate lb), (iterate ms); by rewrite ?andb_false_r. }
  rewrite cardsByList_tally.
  destruct (forallb _ (List.map cardOf cards)) eqn:Eok; cbn [bind andb].
  2: { destruct (iterate lb), (iterate ms); by rewrite ?andb_false_r. }
  rewrite pushLists_total.
  destruct (forallb listRuns lists) eqn:Elists; cbn [bind andb].
  2: { by destruct (iterate lb), (iterate ms). }
  rewrite cardsByPriority_tally, push_priorities. cbn [bind].
  rewrite cardsByTime_tally, push_times. cbn [bind].
  rewrite (cardTimeByList_tally _ Eok). cbn [bind].
  rewrite pushLists_total, Elists. cbn [bind].
  unfold cardsByLabel, cardsByMember. rewrite !countEntries_tally.
  destruct (forallb (fun c => closed c || keys (idLabels c)) _); cbn [bind andb].
  2: { destruct (iterate lb), (iterate ms); by rewrite ?andb_false_r. }
  destruct (iterate lb) as [lbL|] eqn:Elb; cbn [bind]; [|reflexivity].
  rewrite pushNamed_total.
  destruct (forallb (namedRuns labelName _) lbL); cbn [bind andb].
  2: { destruct (forallb (fun c => closed c || keys (idMembers c)) _), (iterate ms);
       by rewrite ?andb_false_r. }
  destruct (forallb (fun c => closed c || keys (idMembers c)) _); cbn [bind andb].
  2: { by destruct (iterate ms). }
  destruct (iterate ms) as [msL|] eqn:Ems; cbn [bind]; [|reflexivity].
  rewrite pushNamed_total.
  destruct (forallb (namedRuns memberName _) msL); reflexivity.
Qed.

End Pushes.

Section Families.

Variables board listsRaw labelsRaw membersRaw cardsRaw : val.

Let fams := families board listsRaw labelsRaw membersRaw cardsRaw.
Let boardName := boardNameOf board.
Let lists := survivingLists listsRaw.
Let cards := enriched cardsRaw.

Lemma aggregate_Ok m :
  aggregate board listsRaw labelsRaw membersRaw cardsRaw = Ok m -> m = fams.
Proof.
  rewrite aggregate_runs. destruct (runs _ _ _ _ _); [|discriminate]. by intros [= <-].
Qed.

Lemma aggregate_Ok_runs m :
  aggregate board listsRaw labelsRaw membersRaw cardsRaw = Ok m ->
  runs board listsRaw labelsRaw membersRaw cardsRaw = true.
Proof. rewrite aggregate_runs. by destruct (runs _ _ _ _ _). Qed.

Lemma families_names :
  List.map fst fams
  = [ "trello_boards_total"; "trello_cards_in_list_total";
      "trello_labeled_cards_on_board"; "trello_cards_per_board_member";
      "trello_lists_per_board"; "trello_time_in_list_total";
      "trello_cards_by_priority_total"; "trello_cards_by_time_total" ].
Proof. reflexivity. Qed.

Lemma samples_boards_total :
  samplesOf "trello_boards_total" fams = [ {| labels := []; value := Num 1 |} ].
Proof. reflexivity. Qed.

Lemma samples_lists_per_board :
  samplesOf "trello_lists_per_board" fams
  = [ {| labels := [("board", boardName)]; value := Num (N.of_nat (length lists)) |} ].
Proof. reflexivity. Qed.

Lemma samples_cards_in_list :
  samplesOf "trello_cards_in_list_total" fams
  = List.map (listSample boardName (tally listOps cards)) lists.
Proof. reflexivity. Qed.

Lemma samples_cards_by_priority :
  samplesOf "trello_cards_by_priority_total" fams
  = List.map (prioritySample boardName (tally priorityOps cards)) (values priorityMap).
Proof. reflexivity. Qed.

Lemma samples_cards_by_time :
  samplesOf "trello_cards_by_time_total" fams
  = List.map (timeSample boardName (tally rangeOps cards)) (values timeMap).
Proof. reflexivity. Qed.

Lemma samples_time_in_list :
  samplesOf "trello_time_in_list_total" fams
  = List.map (listSample boardName (tally timeOps cards)) lists.
Proof. reflexivity. Qed.

Lemma samples_labeled_cards :
  samplesOf "trello_labeled_cards_on_board" fams
  = flat_map (namedSamples "label" labelName boardName (tally (entryOps idLabels) cards))
      (itemsOf labelsRaw).
Proof. reflexivity. Qed.

Lemma samples_cards_per_member :
  samplesOf "trello_cards_per_board_member" fams
  = flat_map (namedSamples "member" memberName boardName (tally (entryOps idMembers) cards))
      (itemsOf membersRaw).
Proof. reflexivity. Qed.

End Families.

(** ** Counting cards by key *)

Section Counting.

Lemma sumN_zero {A} (l : list A) : sumN (List.map (fun _ => 0%N) l) = 0%N.
Proof. induction l as [|a l IH]; simpl; [reflexivity|]. by rewrite IH. Qed.

Lemma sumN_plus {A} (f g : A -> N) (l : list A) :
  sumN (List.map (fun a => (f a + g a)%N) l)
  = (sumN (List.map f l) + sumN (List.map g l))%N.
Proof. induction l as [|a l IH]; simpl; [reflexivity|]. rewrite IH. lia. Qed.

(** Among pairwise distinct keys, at most one is the key looked for. *)
Lemma sum_key_NoDup (keys : list string) (x : string) :
  NoDup keys ->
  sumN (List.map (fun k => if bool_decide (x = k) then 1%N else 0%N) keys)
  = if bool_decide (x ∈ keys) then 1%N else 0%N.
Proof.
  induction 1 as [|k keys Hk Hnd IH]; simpl; [reflexivity|].
  rewrite IH. repeat case_bool_decide; subst;
    rewrite ?elem_of_cons in *; try tauto; try lia.
Qed.

Lemma howMany_filter (p q : val -> bool) (l : list val) :
  howMany (fun c => p c && q c) l = howMany q (List.filter p l).
Proof.
  unfold howMany. induction l as [|a l IH]; simpl; [reflexivity|].
  destruct (p a); simpl; [|exact IH]. destruct (q a); simpl; lia.
Qed.

Lemma howMany_ext (p q : val -> bool) (l : list val) :
  (forall c, p c = q c) -> howMany p l = howMany q l.
Proof.
  intros H. unfold howMany. induction l as [|a l IH]; simpl; [reflexivity|].
  rewrite H. destruct (q a); simpl; lia.
Qed.

(** Counting per key and adding up is counting the cards whose key is one
    of the keys, when no key comes twice. *)
Lemma sum_by_key (keys : list string) (ref : val -> string) (cards : list val) :
  NoDup keys ->
  sumN (List.map (fun k => howMany (fun c => bool_decide (ref c = k)) cards) keys)
  = howMany (fun c => bool_decide (ref c ∈ keys)) cards.
Proof.
  intros Hnd. induction cards as [|c cards IH].
  - unfold howMany. simpl. apply sumN_zero.
  - rewrite howMany_cons, <- IH.
    rewrite (sumN_ext _ (fun k => ((if bool_decide (ref c = k) then 1 else 0)
                                   + howMany (fun c => bool_decide (ref c = k)) cards)%N)).
    + by rewrite sumN_plus, sum_key_NoDup.
    + intros k. apply howMany_cons.
Qed.

Lemma sumN_filter (p : val -> bool) (f : val -> N) (l : list val) :
  sumN (List.map (fun c => if p c then f c else 0%N) l)
  = sumN (List.map f (List.filter p l)).
Proof.
  induction l as [|a l IH]; simpl; [reflexivity|].
  destruct (p a); simpl; rewrite IH; lia.
Qed.

Lemma sumValues_numbers (ss : list sample) (ns : list N) :
  List.map value ss = List.map Num ns -> sumValues ss = Some (sumN ns).
Proof.
  revert ns. induction ss as [|s ss IH]; intros [|n ns]; try discriminate; [reflexivity|].
  cbn [List.map sumValues sumN fold_right]. intros [= -> H]. by rewrite (IH _ H).
Qed.

Lemma sumValues_map {A} (f : A -> sample) (g : A -> N) (l : list A) :
  (forall a, In a l -> value (f a) = Num (g a)) ->
  sumValues (List.map f l) = Some (sumN (List.map g l)).
Proof.
  intros H. apply sumValues_numbers. rewrite !List.map_map.
  by apply List.map_ext_in.
Qed.

End Counting.

(** ** The dictionaries, over the cards that are not archived *)

Section OpenCards.

Variable cardsRaw : val.

(** The addends of the cards are those of the cards that are not
    archived. *)
Lemma addends_open (ops : card -> list (string * N)) (w : val -> list N) x :
  (forall c, addends x (ops (cardOf c)) = if archived c then [] else w c) ->
  addends x (flat_map ops (enriched cardsRaw)) = flat_map w (openCards cardsRaw).
Proof.
  intros Hw. unfold enriched, openCards. rewrite addends_flat_map.
  induction (survivingCards cardsRaw) as [|c l IH]; [reflexivity|].
  cbn [List.map flat_map List.filter]. rewrite IH, Hw.
  by destruct (archived c).
Qed.

Lemma addends_listOps x :
  addends x (flat_map listOps (enriched cardsRaw))
  = flat_map (fun c => if bool_decide (listRef c = x) then [1%N] else [])
      (openCards cardsRaw).
Proof.
  apply addends_open. intros c. unfold listOps, addends.
  rewrite closed_cardOf, idList_cardOf. fold (listRef c).
  destruct (archived c); [reflexivity|]. cbn.
  case_bool_decide as E; [by rewrite (proj2 (String.eqb_eq _ _) E)|].
  by rewrite (proj2 (String.eqb_neq _ _) E).
Qed.

Lemma addends_timeOps x :
  addends x (flat_map timeOps (enriched cardsRaw))
  = flat_map
      (fun c => match resolvedTime c with
                | Some t => if bool_decide (listRef c = x) then [t_s t] else []
                | None => []
                end)
      (openCards cardsRaw).
Proof.
  apply addends_open. intros c. unfold timeOps, addends.
  rewrite closed_cardOf, idList_cardOf. fold (listRef c) (resolvedTime c).
  destruct (archived c); [reflexivity|]. cbn [negb].
  destruct (resolvedTime c) as [t|]; [|reflexivity]. cbn.
  case_bool_decide as E; [by rewrite (proj2 (String.eqb_eq _ _) E)|].
  by rewrite (proj2 (String.eqb_neq _ _) E).
Qed.

Lemma addends_priorityOps p :
  addends p (flat_map priorityOps (enriched cardsRaw))
  = flat_map
      (fun c => if bool_decide (resolvedPriority c = Some p) && negb (terminal c)
                then [1%N] else [])
      (openCards cardsRaw).
Proof.
  apply addends_open. intros c. unfold priorityOps, addends.
  rewrite closed_cardOf, idList_cardOf. fold (terminal c) (resolvedPriority c).
  destruct (archived c); [reflexivity|]. cbn [negb andb].
  destruct (terminal c); cbn [negb]; [by rewrite andb_false_r|]. rewrite andb_true_r.
  destruct (resolvedPriority c) as [q|]; [|reflexivity]. cbn.
  case_bool_decide as E.
  - injection E as ->. by rewrite String.eqb_refl.
  - destruct (String.eqb q p) eqn:E'; [|reflexivity].
    apply String.eqb_eq in E' as ->. done.
Qed.

Lemma addends_rangeOps r :
  addends r (flat_map rangeOps (enriched cardsRaw))
  = flat_map
      (fun c => if bool_decide (t_range <$> resolvedTime c = Some r) then [1%N] else [])
      (openCards cardsRaw).
Proof.
  apply addends_open. intros c. unfold rangeOps, addends.
  rewrite closed_cardOf. fold (resolvedTime c).
  destruct (archived c); [reflexivity|]. cbn [negb].
  destruct (resolvedTime c) as [t|]; [|reflexivity]. cbn.
  case_bool_decide as E.
  - injection E as <-. by rewrite String.eqb_refl.
  - destruct (String.eqb (t_range t) r) eqn:E'; [|reflexivity].
    apply String.eqb_eq in E' as <-. done.
Qed.

Lemma addends_ids x (ids : list val) :
  addends x (List.map (fun i => (text i, 1%N)) ids)
  = flat_map (fun i => if bool_decide (text i = x) then [1%N] else []) ids.
Proof.
  unfold addends. induction ids as [|i ids IH]; [reflexivity|].
  cbn [List.map List.filter flat_map fst]. case_bool_decide as E.
  - rewrite (proj2 (String.eqb_eq _ _) E). cbn. by rewrite IH.
  - by rewrite (proj2 (String.eqb_neq _ _) E).
Qed.

Lemma addends_entryOps (f : string) x :
  addends x (flat_map (entryOps (fun c => prop (raw c) f)) (enriched cardsRaw))
  = flat_map
      (fun c => flat_map (fun i => if bool_decide (text i = x) then [1%N] else [])
                  (elements (prop c f)))
      (openCards cardsRaw).
Proof.
  apply addends_open. intros c. unfold entryOps.
  rewrite closed_cardOf, raw_cardOf.
  destruct (archived c); [reflexivity|]. cbn [negb]. apply addends_ids.
Qed.

Lemma sumN_ones {A} (p : A -> bool) (l : list A) :
  sumN (flat_map (fun a => if p a then [1%N] else []) l)
  = N.of_nat (length (List.filter p l)).
Proof.
  induction l as [|a l IH]; [reflexivity|]. cbn [flat_map List.filter].
  rewrite sumN_app, IH. destruct (p a); simpl; lia.
Qed.

(** What the six dictionaries hold under a name that is not inherited. *)
Lemma count_cardsByList x :
  ownKey x = true ->
  count (tally listOps (enriched cardsRaw)) x
  = Num (howMany (fun c => bool_decide (listRef c = x)) (openCards cardsRaw)).
Proof.
  intros Hx. unfold tally. rewrite count_fill, held_ownKey, addends_listOps by done.
  by rewrite sumN_ones.
Qed.

Lemma count_cardsByPriority p :
  ownKey p = true ->
  count (tally priorityOps (enriched cardsRaw)) p
  = Num (howMany (fun c => bool_decide (resolvedPriority c = Some p) && negb (terminal c))
           (openCards cardsRaw)).
Proof.
  intros Hx. unfold tally. rewrite count_fill, held_ownKey, addends_priorityOps by done.
  by rewrite sumN_ones.
Qed.

Lemma count_cardsByTime r :
  ownKey r = true ->
  count (tally rangeOps (enriched cardsRaw)) r
  = Num (howMany (fun c => bool_decide (t_range <$> resolvedTime c = Some r))
           (openCards cardsRaw)).
Proof.
  intros Hx. unfold tally. rewrite count_fill, held_ownKey, addends_rangeOps by done.
  by rewrite sumN_ones.
Qed.

Lemma count_cardTimeByList x :
  ownKey x = true ->
  count (tally timeOps (enriched cardsRaw)) x
  = Num (sumN (List.map (fun c => if bool_decide (listRef c = x) then seconds c else 0%N)
                 (openCards cardsRaw))).
Proof.
  intros Hx. unfold tally. rewrite count_fill, held_ownKey, addends_timeOps by done.
  rewrite sumN_flat_map. f_equal. apply sumN_ext. intros c. unfold seconds.
  destruct (resolvedTime c) as [t|]; [|by destruct (bool_decide _)].
  destruct (bool_decide _); simpl; lia.
Qed.



Local Transparent timeMap priorityMap.

Lemma ownKey_priority p : p ∈ values priorityMap -> ownKey p = true.
Proof. intros H. each_entry H. Qed.

Lemma ownKey_range t : t ∈ values timeMap -> ownKey (t_range t) = true.
Proof. intros H. each_entry H. Qed.

Lemma escapeText_priority p : p ∈ values priorityMap -> escapeText p = p.
Proof. intros H. each_entry H. Qed.

Lemma escapeText_range t : t ∈ values timeMap -> escapeText (t_range t) = t_range t.
Proof. intros H. each_entry H. Qed.

End OpenCards.

(** ** The properties of the specification *)

(** *** Sum of [cards_in_list_total] *)

Section CardsInList.

(** Two lists of the payload that carry the same identifier each report
    the card that names it, and the samples add up to 2 for 1 card; so do
    two lists whose identifiers, the number 1 and the text 1, differ but
    are one property key.  A list whose identifier is the name of a member
    that every object inherits reports that member, which is no number:
    without any card, the text of the function [Object]. *)
Lemma cards_in_list_total_sum_counterexamples :
  (exists m,
     aggregate (VObj []) twinLists (VArr []) (VArr []) oneCard = Ok m
     /\ sumValues (samplesOf "trello_cards_in_list_total" m) = Some 2%N
     /\ length (openCards oneCard) = 1)
  /\ (exists m,
        aggregate (VObj [])
          (VArr [ VObj [("id", VNum 1)]; VObj [("id", VStr "1")] ])
          (VArr []) (VArr []) (VArr [ VObj [("idList", VStr "1")] ]) = Ok m
        /\ sumValues (samplesOf "trello_cards_in_list_total" m) = Some 2%N)
  /\ (exists m,
        aggregate (VObj []) oddLists (VArr []) (VArr []) (VArr []) = Ok m
        /\ List.map (fun s => cellText (value s)) (samplesOf "trello_cards_in_list_total" m)
           = [ "function Object() { [native code] }" ]
        /\ sumValues (samplesOf "trello_cards_in_list_total" m) = None).
Proof.
  split; [|split]; eexists; (split; [vm_compute; reflexivity|]);
    repeat split; vm_compute; reflexivity.
Qed.

(** C3, amended: when the identifiers of the surviving lists, as property
    keys, are pairwise distinct and none of them is the name of a member
    that every object inherits, the values of the samples of
    [cards_in_list_total] are numbers, and they add up to the number of
    cards that are not archived, pass the filtering pipeline and name, in
    [idList], the key of a surviving list. *)
Theorem cards_in_list_total_sum board listsRaw labelsRaw membersRaw cardsRaw m :
  aggregate board listsRaw labelsRaw membersRaw cardsRaw = Ok m ->
  NoDup (List.map idOf (survivingLists listsRaw)) ->
  Forall (fun l => ownKey (idOf l) = true) (survivingLists listsRaw) ->
  sumValues (samplesOf "trello_cards_in_list_total" m)
  = Some (howMany
            (fun c => bool_decide (listRef c ∈ List.map idOf (survivingLists listsRaw)))
            (openCards cardsRaw)).
Proof.
  intros Hm Hnd Hown. rewrite (aggregate_Ok _ _ _ _ _ _ Hm), samples_cards_in_list.
  rewrite (sumValues_map _
             (fun l => howMany (fun c => bool_decide (listRef c = idOf l))
                         (openCards cardsRaw))).
  - f_equal. rewrite <- (sum_by_key _ listRef) by exact Hnd. by rewrite List.map_map.
  - intros l Hl. unfold listSample. cbn [value]. apply count_cardsByList.
    rewrite Forall_forall in Hown. by apply Hown, list_elem_of_In.
Qed.

Lemma cards_in_list_total_sum_witness :
  NoDup (List.map idOf (survivingLists demoLists))
  /\ sumValues (samplesOf "trello_cards_in_list_total" demoMetrics) = Some 3%N.
Proof.
  assert (Hnd : NoDup (List.map idOf (survivingLists demoLists))).
  { refine (bool_decide_unpack _ _). vm_compute. exact I. }
  split; [exact Hnd|].
  rewrite (cards_in_list_total_sum demoBoard demoLists demoLabels demoMembers
             demoCards demoMetrics); [| vm_compute; reflexivity | exact Hnd |].
  - vm_compute. reflexivity.
  - repeat constructor.
Defined.

End CardsInList.

(** *** Enumeration completeness and suppression *)

Section Enumeration.

Lemma namedSamples_positive key nameOf boardName (d : dict) (xs : list val) :
  Forall (fun s => exists n, value s = Num n /\ n <> 0%N)
    (flat_map (namedSamples key nameOf boardName d) xs).
Proof.
  induction xs as [|x xs IH]; simpl; [constructor|].
  apply Forall_app. split; [|exact IH].
  unfold namedSamples. destruct (count d (idOf x)) as [n|k added]; [|constructor].
  cbn [positive]. destruct (0 <? n)%N eqn:E; [|constructor].
  apply N.ltb_lt in E. repeat constructor. exists n. split; [reflexivity|lia].
Qed.

(** C4: the samples of [cards_by_priority_total] carry, in order, the
    levels of the priority table, one sample for each entry, and those of
    [cards_by_time_total] the ranges of the time table, whatever the counts
    are, zero included; every sample of [labeled_cards_on_board] and of
    [cards_per_board_member] has for value a number that is not 0. *)
Theorem enumeration_and_suppression board listsRaw labelsRaw membersRaw cardsRaw m :
  aggregate board listsRaw labelsRaw membersRaw cardsRaw = Ok m ->
  List.map labels (samplesOf "trello_cards_by_priority_total" m)
  = List.map (fun p => [("board", boardNameOf board); ("priority", p)])
      (values priorityMap)
  /\ List.map labels (samplesOf "trello_cards_by_time_total" m)
     = List.map (fun t => [("board", boardNameOf board); ("time", t_range t)])
         (values timeMap)
  /\ Forall (fun s => exists n, value s = Num n /\ n <> 0%N)
       (samplesOf "trello_labeled_cards_on_board" m)
  /\ Forall (fun s => exists n, value s = Num n /\ n <> 0%N)
       (samplesOf "trello_cards_per_board_member" m).
Proof.
  intros Hm. rewrite (aggregate_Ok _ _ _ _ _ _ Hm).
  rewrite samples_cards_by_priority, samples_cards_by_time,
    samples_labeled_cards, samples_cards_per_member.
  split; [|split; [|split]].
  - rewrite List.map_map. apply List.map_ext_in. intros p Hp. cbn [prioritySample labels].
    by rewrite escapeText_priority by by apply list_elem_of_In.
  - rewrite List.map_map. apply List.map_ext_in. intros t Ht. cbn [timeSample labels].
    by rewrite escapeText_range by by apply list_elem_of_In.
  - apply namedSamples_positive.
  - apply namedSamples_positive.
Qed.

(** On the demo board no card has the priority Medium or Lowest, and the
    only card of priority Low sits in the terminal list: the samples are
    there all the same. *)
Lemma enumeration_and_suppression_witness :
  List.map value (samplesOf "trello_cards_by_priority_total" demoMetrics)
  = [Num 1; Num 1; Num 0; Num 0; Num 0]
  /\ List.map labels (samplesOf "trello_cards_by_priority_total" demoMetrics)
     = List.map (fun p => [("board", "X"); ("priority", p)])
         ["Highest"; "High"; "Medium"; "Low"; "Lowest"]
  /\ List.map value (samplesOf "trello_cards_per_board_member" demoMetrics)
     = [Num 1; Num 2].
Proof.
  destruct (enumeration_and_suppression demoBoard demoLists demoLabels demoMembers
              demoCards demoMetrics) as (Hp & _ & _ & _); [vm_compute; reflexivity|].
  split; [vm_compute; reflexivity|]. split; [exact Hp|vm_compute; reflexivity].
Defined.

End Enumeration.

(** *** Cards of an array payload *)

Section ArrayPayload.

Lemma survivingCards_array l : survivingCards (VArr l) = List.filter keepCard l.
Proof. reflexivity. Qed.

Lemma openCards_app pre post :
  openCards (VArr (pre ++ post)) = openCards (VArr pre) ++ openCards (VArr post).
Proof.
  unfold openCards. by rewrite !survivingCards_array, !List.filter_app.
Qed.

Lemma openCards_with pre c post :
  keepCard c = true -> archived c = false ->
  openCards (VArr (pre ++ c :: post))
  = openCards (VArr pre) ++ c :: openCards (VArr post).
Proof.
  intros Hk Ha. rewrite openCards_app. f_equal.
  unfold openCards. rewrite !survivingCards_array. simpl. rewrite Hk. simpl.
  by rewrite Ha.
Qed.

Lemma survivingCards_dropped pre c post :
  keepCard c = false ->
  survivingCards (VArr (pre ++ c :: post)) = survivingCards (VArr (pre ++ post)).
Proof.
  intros Hk. rewrite !survivingCards_array, !List.filter_app. simpl. by rewrite Hk.
Qed.

Lemma survivingCards_kept pre c post :
  keepCard c = true ->
  survivingCards (VArr (pre ++ c :: post))
  = survivingCards (VArr pre) ++ c :: survivingCards (VArr post).
Proof.
  intros Hk. rewrite !survivingCards_array, !List.filter_app. simpl. by rewrite Hk.
Qed.

Lemma howMany_with p pre c post :
  keepCard c = true -> archived c = false ->
  howMany p (openCards (VArr (pre ++ c :: post)))
  = (howMany p (openCards (VArr (pre ++ post))) + if p c then 1 else 0)%N.
Proof.
  intros Hk Ha. rewrite openCards_with, openCards_app by done.
  rewrite !howMany_app, howMany_cons. lia.
Qed.


End ArrayPayload.

(** *** Priority leaves the terminal lists out, time does not *)

Section PriorityAndTime.

Lemma sum_range_once t :
  t ∈ values timeMap ->
  sumN (List.map (fun t' => if bool_decide (t_range t = t_range t') then 1%N else 0%N)
          (values timeMap)) = 1%N.
Proof.
  intros Ht. each_entry Ht.
Qed.

Lemma sum_priority_once p :
  p ∈ values priorityMap ->
  sumN (List.map (fun q => if bool_decide (Some p = Some q) then 1%N else 0%N)
          (values priorityMap)) = 1%N.
Proof.
  intros Hp. each_entry Hp.
Qed.

(** The samples of the two families that read the static tables, by the
    cards that are not archived. *)
Lemma priority_samples board listsRaw labelsRaw membersRaw cardsRaw :
  samplesOf "trello_cards_by_priority_total"
    (families board listsRaw labelsRaw membersRaw cardsRaw)
  = List.map
      (fun p =>
         {| labels := [("board", boardNameOf board); ("priority", p)];
            value := Num (howMany (fun c => bool_decide (resolvedPriority c = Some p)
                                            && negb (terminal c))
                            (openCards cardsRaw)) |})
      (values priorityMap).
Proof.
  rewrite samples_cards_by_priority. apply List.map_ext_in. intros p Hp%list_elem_of_In.
  unfold prioritySample.
  by rewrite escapeText_priority, count_cardsByPriority by auto using ownKey_priority.
Qed.

Lemma time_samples board listsRaw labelsRaw membersRaw cardsRaw :
  samplesOf "trello_cards_by_time_total"
    (families board listsRaw labelsRaw membersRaw cardsRaw)
  = List.map
      (fun t =>
         {| labels := [("board", boardNameOf board); ("time", t_range t)];
            value := Num (howMany
                            (fun c => bool_decide (t_range <$> resolvedTime c
                                                   = Some (t_range t)))
                            (openCards cardsRaw)) |})
      (values timeMap).
Proof.
  rewrite samples_cards_by_time. apply List.map_ext_in. intros t Ht%list_elem_of_In.
  unfold timeSample.
  by rewrite escapeText_range, count_cardsByTime by auto using ownKey_range.
Qed.

Lemma priority_sum board listsRaw labelsRaw membersRaw cardsRaw :
  sumValues (samplesOf "trello_cards_by_priority_total"
               (families board listsRaw labelsRaw membersRaw cardsRaw))
  = Some (sumN (List.map
                  (fun p => howMany (fun c => bool_decide (resolvedPriority c = Some p)
                                              && negb (terminal c))
                              (openCards cardsRaw))
                  (values priorityMap))).
Proof. rewrite priority_samples. by apply sumValues_map. Qed.

Lemma time_sum board listsRaw labelsRaw membersRaw cardsRaw :
  sumValues (samplesOf "trello_cards_by_time_total"
               (families board listsRaw labelsRaw membersRaw cardsRaw))
  = Some (sumN (List.map
                  (fun t => howMany
                              (fun c => bool_decide (t_range <$> resolvedTime c
                                                     = Some (t_range t)))
                              (openCards cardsRaw))
                  (values timeMap))).
Proof. rewrite time_samples. by apply sumValues_map. Qed.

(** One more card that resolves to a TimeEstimate is one more in the sum
    of [cards_by_time_total]; one more that resolves to a Priority outside
    the terminal lists is one more in that of [cards_by_priority_total]. *)
Lemma time_sum_with pre c post t :
  keepCard c = true -> archived c = false -> resolvedTime c = Some t ->
  sumN (List.map
          (fun t' => howMany (fun c => bool_decide (t_range <$> resolvedTime c
                                                    = Some (t_range t')))
                       (openCards (VArr (pre ++ c :: post))))
          (values timeMap))
  = (sumN (List.map
             (fun t' => howMany (fun c => bool_decide (t_range <$> resolvedTime c
                                                       = Some (t_range t')))
                          (openCards (VArr (pre ++ post))))
             (values timeMap)) + 1)%N.
Proof.
  intros Hk Ha Ht.
  rewrite (sumN_ext _
    (fun t' =>
       (howMany (fun c => bool_decide (t_range <$> resolvedTime c = Some (t_range t')))
          (openCards (VArr (pre ++ post)))
        + if bool_decide (t_range t = t_range t') then 1 else 0)%N)).
  - rewrite sumN_plus. f_equal. apply sum_range_once, resolvedTime_values with c, Ht.
  - intros t'. rewrite howMany_with by done. rewrite Ht. simpl.
    repeat case_bool_decide; congruence.
Qed.


(** C5: the sample of a priority level counts the cards that are not
    archived, resolve to that level and do not sit in a terminal list; the
    sample of a time range counts the cards that are not archived and
    resolve to that range, terminal list or not.  So a card that is not
    archived, passes the filters, resolves to a Priority and to a
    TimeEstimate and sits in a terminal list adds one to
    [cards_by_time_total] and leaves [cards_by_priority_total] as it is
    without the card. *)
Theorem priority_skips_terminal_time_does_not
    board listsRaw labelsRaw membersRaw cardsRaw m :
  aggregate board listsRaw labelsRaw membersRaw cardsRaw = Ok m ->
  samplesOf "trello_cards_by_priority_total" m
  = List.map
      (fun p =>
         {| labels := [("board", boardNameOf board); ("priority", p)];
            value := Num (howMany (fun c => bool_decide (resolvedPriority c = Some p)
                                            && negb (terminal c))
                            (openCards cardsRaw)) |})
      (values priorityMap)
  /\ samplesOf "trello_cards_by_time_total" m
     = List.map
         (fun t =>
            {| labels := [("board", boardNameOf board); ("time", t_range t)];
               value := Num (howMany
                               (fun c => bool_decide (t_range <$> resolvedTime c
                                                      = Some (t_range t)))
                               (openCards cardsRaw)) |})
         (values timeMap)
  /\ forall pre c post p t m',
       cardsRaw = VArr (pre ++ c :: post) ->
       keepCard c = true -> archived c = false -> terminal c = true ->
       resolvedPriority c = Some p -> resolvedTime c = Some t ->
       aggregate board listsRaw labelsRaw membersRaw (VArr (pre ++ post)) = Ok m' ->
       samplesOf "trello_cards_by_priority_total" m
       = samplesOf "trello_cards_by_priority_total" m'
       /\ exists k,
            sumValues (samplesOf "trello_cards_by_time_total" m') = Some k
            /\ sumValues (samplesOf "trello_cards_by_time_total" m) = Some (k + 1)%N.
Proof.
  intros Hm. rewrite (aggregate_Ok _ _ _ _ _ _ Hm).
  split; [apply priority_samples|]. split; [apply time_samples|].
  intros pre c post p t m' -> Hk Ha Hterm Hp Ht Hm'.
  rewrite (aggregate_Ok _ _ _ _ _ _ Hm'). split.
  - rewrite !priority_samples. apply List.map_ext. intros q. do 2 f_equal.
    rewrite howMany_with by done. rewrite Hterm, andb_false_r. lia.
  - eexists. split; [apply time_sum|]. rewrite time_sum. f_equal.
    by apply time_sum_with with t.
Qed.

(** On the demo board the third card sits in the terminal list with the
    priority Low and the range 5 min - 15 min. *)
Lemma priority_skips_terminal_time_does_not_witness :
  let pre := firstn 2 (elements demoCards) in
  let c := nth 2 (elements demoCards) VNull in
  let post := skipn 3 (elements demoCards) in
  List.map value (samplesOf "trello_cards_by_priority_total" demoMetrics)
  = [Num 1; Num 1; Num 0; Num 0; Num 0]
  /\ List.map value (samplesOf "trello_cards_by_time_total" demoMetrics)
     = [Num 1; Num 1; Num 0; Num 0; Num 0; Num 0]
  /\ exists m',
       aggregate demoBoard demoLists demoLabels demoMembers (VArr (pre ++ post)) = Ok m'
       /\ samplesOf "trello_cards_by_priority_total" demoMetrics
          = samplesOf "trello_cards_by_priority_total" m'
       /\ sumValues (samplesOf "trello_cards_by_time_total" m') = Some 1%N
       /\ sumValues (samplesOf "trello_cards_by_time_total" demoMetrics) = Some 2%N.
Proof.
  intros pre c post.
  destruct (priority_skips_terminal_time_does_not demoBoard demoLists demoLabels
              demoMembers demoCards demoMetrics) as (Hp & Ht & Hc);
    [vm_compute; reflexivity|].
  split; [rewrite Hp; vm_compute; reflexivity|].
  split; [rewrite Ht; vm_compute; reflexivity|].
  exists (families demoBoard demoLists demoLabels demoMembers (VArr (pre ++ post))).
  split; [vm_compute; reflexivity|].
  destruct (Hc pre c post "Low"
              {| t_range := "5 min - 15 min"; t_max := "5 min"; t_med := "10 minutes";
                 t_s := 600 |}
              (families demoBoard demoLists demoLabels demoMembers (VArr (pre ++ post))))
    as (Hs & k & Hk & Hk'); try (vm_compute; reflexivity).
  split; [exact Hs|]. split; vm_compute; reflexivity.
Defined.

End PriorityAndTime.

(** *** Cards with an exclusionary label *)

Section Exclusion.

Lemma keepCard_exclusionary c ids l :
  prop c "idLabels" = VArr ids ->
  l ∈ ignoreCardsWithAtLeastOneOfTheseLabelIds -> VStr l ∈ ids ->
  keepCard c = false.
Proof.
  intros Hids Hl Hin.
  assert (He : existsb (includes ignoreCardsWithAtLeastOneOfTheseLabelIds) ids = true).
  { apply existsb_exists. exists (VStr l). split; [by apply list_elem_of_In|].
    unfold includes. by apply bool_decide_eq_true_2. }
  unfold keepCard. rewrite Hids. cbn [isArray elements]. rewrite He.
  destruct (negb (truthy c) || negb (truthy (prop c "idList"))); [reflexivity|].
  destruct (includes listsToIgnore (prop c "idList")); reflexivity.
Qed.

(** A card the filter drops is as good as absent. *)
Lemma aggregate_dropped board listsRaw labelsRaw membersRaw pre c post :
  keepCard c = false ->
  aggregate board listsRaw labelsRaw membersRaw (VArr (pre ++ c :: post))
  = aggregate board listsRaw labelsRaw membersRaw (VArr (pre ++ post)).
Proof.
  intros Hk. rewrite !aggregate_runs.
  unfold runs, families, enriched. rewrite (survivingCards_dropped _ _ _ Hk).
  reflexivity.
Qed.

(** C6: a card whose [idLabels] array holds an exclusionary label
    identifier changes nothing in what is computed, whatever its other
    properties are: the metrics, and the text, are those of the payload
    without the card. *)
Theorem exclusionary_label_card_is_absent
    board listsRaw labelsRaw membersRaw pre c post ids l :
  prop c "idLabels" = VArr ids ->
  l ∈ ignoreCardsWithAtLeastOneOfTheseLabelIds -> VStr l ∈ ids ->
  aggregate board listsRaw labelsRaw membersRaw (VArr (pre ++ c :: post))
  = aggregate board listsRaw labelsRaw membersRaw (VArr (pre ++ post))
  /\ buildMetrics board listsRaw labelsRaw membersRaw (VArr (pre ++ c :: post))
     = buildMetrics board listsRaw labelsRaw membersRaw (VArr (pre ++ post)).
Proof.
  intros Hids Hl Hin.
  assert (Hk : keepCard c = false) by eauto using keepCard_exclusionary.
  unfold buildMetrics. rewrite (aggregate_dropped _ _ _ _ _ _ _ Hk). done.
Qed.

(** The fourth card of the demo board carries the Divider label. *)
Lemma exclusionary_label_card_is_absent_witness :
  let pre := firstn 3 (elements demoCards) in
  let c := nth 3 (elements demoCards) VNull in
  let post := skipn 4 (elements demoCards) in
  buildMetrics demoBoard demoLists demoLabels demoMembers demoCards
  = buildMetrics demoBoard demoLists demoLabels demoMembers (VArr (pre ++ post)).
Proof.
  intros pre c post.
  apply (exclusionary_label_card_is_absent demoBoard demoLists demoLabels demoMembers
           pre c post [VStr "l1"; VStr labelNameToId.Divider] labelNameToId.Divider).
  - vm_compute. reflexivity.
  - apply list_elem_of_here.
  - apply list_elem_of_further, list_elem_of_here.
Defined.

End Exclusion.

(** *** Resolution of the custom fields *)

Section Resolution.

Local Opaque timeMap priorityMap.

Lemma resolved_last c pre item post :
  prop c "customFieldItems" = VArr (pre ++ item :: post) ->
  scans c = true ->
  (forall t, recognized timeMap item = Ok (Some t) ->
             Forall (fun i => recognized timeMap i = Ok None) post ->
             resolvedTime c = Some t)
  /\ (forall p, recognized priorityMap item = Ok (Some p) ->
                Forall (fun i => recognized priorityMap i = Ok None) post ->
                resolvedPriority c = Some p).
Proof.
  intros Hitems. unfold scans, resolvedTime, resolvedPriority, cardOf, enrich.
  rewrite Hitems. cbn [isArray elements]. rewrite foldM_app.
  destruct (foldM scanItem pre _) as [c1|]; cbn [bind isOk]; [|discriminate].
  cbn [foldM]. rewrite scanItem_recognized.
  destruct (recognized timeMap item) as [rt|] eqn:Et; cbn [bind isOk]; [|discriminate].
  destruct (recognized priorityMap item) as [rp|] eqn:Ep; cbn [bind isOk]; [|discriminate].
  destruct (foldM scanItem post _) as [c2|] eqn:E2; cbn [bind isOk custom]; [|discriminate].
  intros _. split.
  - intros t [= ->] Hpost. by rewrite (scan_time_unrecognized _ _ _ Hpost E2).
  - intros p [= ->] Hpost. by rewrite (scan_priority_unrecognized _ _ _ Hpost E2).
Qed.

(** C7: when two entries of [customFieldItems] carry an [idValue] of the
    time table and no entry after the second one does, the card, once its
    custom fields are scanned, resolves to the TimeEstimate of the second
    one, whatever the first one and the entries around it stand for; and
    the same for the priority table. *)
Theorem last_recognized_item_wins c pre first mid last post :
  prop c "customFieldItems" = VArr (pre ++ first :: mid ++ last :: post) ->
  scans c = true ->
  (forall t1 t2,
     recognized timeMap first = Ok (Some t1) -> recognized timeMap last = Ok (Some t2) ->
     Forall (fun i => recognized timeMap i = Ok None) post ->
     resolvedTime c = Some t2)
  /\ (forall p1 p2,
        recognized priorityMap first = Ok (Some p1) ->
        recognized priorityMap last = Ok (Some p2) ->
        Forall (fun i => recognized priorityMap i = Ok None) post ->
        resolvedPriority c = Some p2).
Proof.
  intros Hitems Hscan.
  assert (H : prop c "customFieldItems" = VArr ((pre ++ first :: mid) ++ last :: post)).
  { by rewrite <- app_assoc. }
  destruct (resolved_last _ _ _ _ H Hscan) as [Ht Hp]. split; eauto.
Qed.

(** The first card of the demo board: 3+ hours, then a priority, then
    <5 min. *)
Lemma last_recognized_item_wins_witness :
  t_range <$> resolvedTime (nth 0 (elements demoCards) VNull) = Some "<5 min".
Proof.
  pose (c := nth 0 (elements demoCards) VNull). fold c.
  pose (items := elements (prop c "customFieldItems")).
  destruct (last_recognized_item_wins c [] (nth 0 items VNull) [nth 1 items VNull]
              (nth 2 items VNull) []) as [Ht _];
    [vm_compute; reflexivity | vm_compute; reflexivity |].
  rewrite (Ht {| t_range := "3+ hours"; t_max := "5 min"; t_med := "4 hours";
                 t_s := 14400 |}
              {| t_range := "<5 min"; t_max := "5 min"; t_med := "3 minutes";
                 t_s := 180 |});
    [reflexivity | vm_compute; reflexivity | vm_compute; reflexivity | constructor].
Defined.

End Resolution.

(** *** Cards that name no surviving list *)

Section UnknownList.







(** What the two dictionaries keyed by list hold under any name, by the
    cards that are not archived and name it. *)
Lemma held_cardsByList cardsRaw x :
  count (tally listOps (enriched cardsRaw)) x
  = held x (flat_map (fun c => if bool_decide (listRef c = x) then [1%N] else [])
              (openCards cardsRaw)).
Proof. unfold tally. by rewrite count_fill, addends_listOps. Qed.





End UnknownList.

(** *** Repeated identifiers *)

Section Repeated.





End Repeated.

(** *** Defaulting *)

Section Defaulting.

Local Opaque timeMap priorityMap.

Lemma member_last k v o k' :
  member k' (o ++ [(k, v)]) = if String.eqb k' k then Some v else member k' o.
Proof.
  induction o as [|[k0 v0] o IH]; simpl.
  - reflexivity.
  - rewrite IH. by destruct (String.eqb k' k).
Qed.

Lemma prop_withProp k v o k' :
  prop (withProp k v o) k' = if String.eqb k' k then v else prop (VObj o) k'.
Proof. unfold withProp, prop. rewrite member_last. by destruct (String.eqb k' k). Qed.

Lemma collection_filterable elem v :
  collection elem v = true -> exists l, filterable v = Ok l /\ forallb elem l = true.
Proof.
  destruct v; try discriminate; simpl; intros H; eexists; split; try reflexivity; done.
Qed.

Lemma collection_iterate elem v :
  collection elem v = true -> exists l, iterate v = Ok l /\ forallb elem l = true.
Proof.
  destruct v; try discriminate; simpl; intros H; eexists; split; try reflexivity; done.
Qed.

Lemma forallb_impl' {A} (p q : A -> bool) (l : list A) :
  (forall a, p a = true -> q a = true) -> forallb p l = true -> forallb q l = true.
Proof.
  intros H. rewrite !forallb_forall. intros Hp a Ha. by apply H, Hp.
Qed.

Lemma forallb_filter' {A} (p f : A -> bool) (l : list A) :
  forallb p l = true -> forallb p (List.filter f l) = true.
Proof.
  rewrite !forallb_forall. intros Hp a Ha. apply Hp. by apply List.filter_In in Ha as [? _].
Qed.

(** The scan of items whose [idValue] is primitive returns. *)
Lemma scan_primitive items c0 :
  typedItems (VArr items) = true -> isOk (foldM scanItem items c0) = true.
Proof.
  unfold typedItems. cbn [elements]. revert c0.
  induction items as [|item items IH]; intros c0; [reflexivity|].
  cbn [forallb foldM]. intros [Hi Hl]%andb_true_iff.
  apply primitive_to_string in Hi.
  rewrite scanItem_recognized. unfold recognized.
  destruct (truthy item && truthy (prop item "idValue")); cbn [bind].
  - destruct (to_string (prop item "idValue")); [|discriminate Hi]. cbn [bind].
    by apply IH.
  - by apply IH.
Qed.

Lemma typedCard_runs c : typedCard c = true -> cardRuns c = true.
Proof.
  unfold typedCard, cardRuns, scans, enrich, keys, primitives.
  intros [[[Hl Hlb]%andb_true_iff Hms]%andb_true_iff Hit]%andb_true_iff.
  rewrite (primitive_to_string _ Hl).
  rewrite (forallb_impl' _ _ _ primitive_to_string Hlb).
  rewrite (forallb_impl' _ _ _ primitive_to_string Hms).
  rewrite orb_true_r, andb_true_r.
  destruct (prop c "customFieldItems") as [| | | | |items|]; try reflexivity.
  cbn [isArray elements].
  pose proof (scan_primitive items {| time := None; priority := None |} Hit) as H.
  by destruct (foldM scanItem items _).
Qed.

Lemma typedList_runs l : typedList l = true -> negb (nullish l) && listRuns l = true.
Proof.
  unfold typedList, listRuns.
  intros [[Hr Hi]%andb_true_iff Hn]%andb_true_iff.
  rewrite (primitive_to_string _ Hi), (primitive_escapeLabel _ Hn).
  by destruct l.
Qed.

Lemma primitive_or a b : primitive a = true -> primitive b = true -> primitive (or a b) = true.
Proof. intros Ha Hb. unfold or. by destruct (truthy a). Qed.

Lemma typedLabel_runs d l : typedLabel l = true -> namedRuns labelName d l = true.
Proof.
  unfold typedLabel, namedRuns, labelName.
  intros [[[Hr Hi]%andb_true_iff Hn]%andb_true_iff Hc]%andb_true_iff.
  rewrite (primitive_to_string _ Hi), primitive_escapeLabel, orb_true_r.
  - by destruct l.
  - by repeat apply primitive_or.
Qed.

Lemma typedMember_runs d x : typedMember x = true -> namedRuns memberName d x = true.
Proof.
  unfold typedMember, namedRuns, memberName.
  intros [[[Hr Hi]%andb_true_iff Hn]%andb_true_iff Hc]%andb_true_iff.
  rewrite (primitive_to_string _ Hi), primitive_escapeLabel, orb_true_r.
  - by destruct x.
  - by repeat apply primitive_or.
Qed.

Lemma wellTyped_runs b ls lb ms cs :
  wellTyped b ls lb ms cs = true -> runs b ls lb ms cs = true.
Proof.
  unfold wellTyped, runs.
  intros [[[[Hb Hls]%andb_true_iff Hlb]%andb_true_iff Hms]%andb_true_iff Hcs]%andb_true_iff.
  unfold boardName. rewrite primitive_escapeLabel by by apply primitive_or.
  destruct (collection_filterable _ _ Hls) as (l1 & E1 & H1).
  destruct (collection_iterate _ _ Hlb) as (l2 & -> & H2).
  destruct (collection_iterate _ _ Hms) as (l3 & -> & H3).
  destruct (collection_filterable _ _ Hcs) as (l4 & E4 & H4).
  unfold survivingLists, survivingCards, cardsOf.
  rewrite (filterable_elements _ _ E1), (filterable_elements _ _ E4), E1, E4.
  pose proof (forallb_impl' _ _ _ typedList_runs H1) as H1'.
  rewrite forallb_and in H1'. apply andb_true_iff in H1' as [Ho Hr].
  unfold objects. rewrite Ho, (forallb_filter' _ _ _ Hr).
  rewrite (forallb_filter' _ _ _ (forallb_impl' _ _ _ typedCard_runs H4)).
  rewrite (forallb_impl' _ _ _ (typedLabel_runs _) H2).
  by rewrite (forallb_impl' _ _ _ (typedMember_runs _) H3).
Qed.

Lemma falsy_filterable v : truthy v = false -> filterable v = filterable (VArr []).
Proof. intros H. unfold filterable, or. by rewrite H. Qed.

Lemma falsy_iterate v : truthy v = false -> iterate v = iterate (VArr []).
Proof. intros H. unfold iterate, or. by rewrite H. Qed.

Lemma survivingCards_middle pre c post :
  survivingCards (VArr (pre ++ c :: post))
  = survivingCards (VArr pre) ++ (if keepCard c then [c] else [])
    ++ survivingCards (VArr post).
Proof.
  rewrite !survivingCards_array, List.filter_app. cbn [List.filter].
  by destruct (keepCard c).
Qed.

(** A card enters through the filter, through what makes the loops run
    and through what it adds to the six dictionaries. *)
Lemma aggregate_sameCard b ls lb ms pre c c' post :
  sameCard c c' ->
  aggregate b ls lb ms (VArr (pre ++ c :: post))
  = aggregate b ls lb ms (VArr (pre ++ c' :: post)).
Proof.
  intros (Hk & Hr & H1 & H2 & H3 & H4 & H5 & H6).
  rewrite !aggregate_runs. unfold runs, families, enriched, tally.
  rewrite !survivingCards_middle, Hk.
  destruct (keepCard c'); [|reflexivity].
  rewrite !List.map_app, !forallb_app, !flat_map_app. cbn [List.map forallb flat_map].
  by rewrite Hr, H1, H2, H3, H4, H5, H6.
Qed.

(** An array property that is absent, or not an array, reads as the empty
    array. *)
Lemma sameCard_empty_array field o :
  field ∈ ["idLabels"; "idMembers"; "customFieldItems"] ->
  isArray (prop (VObj o) field) = false ->
  sameCard (VObj o) (withProp field (VArr []) o).
Proof.
  intros Hf Harr.
  assert (He : elements (prop (VObj o) field) = []).
  { by destruct (prop (VObj o) field). }
  assert (Hc : cardOf (withProp field (VArr []) o)
               = {| raw := withProp field (VArr []) o; custom := custom (cardOf (VObj o)) |}).
  { unfold cardOf, enrich. rewrite !prop_withProp.
    repeat (apply elem_of_cons in Hf as [->|Hf]); [| | |by apply elem_of_nil in Hf];
      cbn [String.eqb Ascii.eqb Bool.eqb isArray elements foldM bind custom].
    - by destruct (foldM scanItem _ _).
    - by destruct (foldM scanItem _ _).
    - by rewrite Harr. }
  assert (Hs : scans (withProp field (VArr []) o) = scans (VObj o)).
  { unfold scans, enrich. rewrite !prop_withProp.
    repeat (apply elem_of_cons in Hf as [->|Hf]); [| | |by apply elem_of_nil in Hf];
      cbn [String.eqb Ascii.eqb Bool.eqb isArray elements foldM bind isOk].
    - by destruct (foldM scanItem _ _).
    - by destruct (foldM scanItem _ _).
    - by rewrite Harr. }
  unfold sameCard, keepCard, cardRuns, archived, keys,
    listOps, priorityOps, rangeOps, timeOps, entryOps, closed, idList, idLabels, idMembers.
  rewrite Hs, Hc, !raw_cardOf. cbn [raw custom truthy].
  change (VObj (o ++ [(field, VArr [])])) with (withProp field (VArr []) o).
  rewrite !prop_withProp.
  repeat (apply elem_of_cons in Hf as [->|Hf]); [| | |by apply elem_of_nil in Hf];
    cbn [String.eqb Ascii.eqb Bool.eqb isArray elements existsb andb forallb List.map];
    rewrite ?Harr, ?He; cbn [andb List.map forallb]; rewrite ?andb_true_r;
    repeat split; reflexivity.
Qed.

Lemma objects_middle pre x post :
  objects (pre ++ x :: post) = objects pre && negb (nullish x) && objects post.
Proof. unfold objects. rewrite forallb_app. simpl. by rewrite andb_assoc. Qed.

(** A label or a member enters through its identifier and its name. *)
Lemma aggregate_sameLabel b ls ms cs pre l l' post :
  nullish l = nullish l' -> prop l "id" = prop l' "id" -> labelName l = labelName l' ->
  aggregate b ls (VArr (pre ++ l :: post)) ms cs
  = aggregate b ls (VArr (pre ++ l' :: post)) ms cs.
Proof.
  intros Hn Hi Hl. rewrite !aggregate_runs. unfold runs, families, itemsOf.
  cbn [iterate or truthy]. rewrite !forallb_app, !flat_map_app.
  cbn [flat_map forallb]. unfold namedRuns, namedSamples, idOf.
  by rewrite Hn, Hi, Hl.
Qed.

Lemma aggregate_sameMember b ls lb cs pre x x' post :
  nullish x = nullish x' -> prop x "id" = prop x' "id" -> memberName x = memberName x' ->
  aggregate b ls lb (VArr (pre ++ x :: post)) cs
  = aggregate b ls lb (VArr (pre ++ x' :: post)) cs.
Proof.
  intros Hn Hi Hl. rewrite !aggregate_runs. unfold runs, families, itemsOf.
  cbn [iterate or truthy]. rewrite !forallb_app, !flat_map_app.
  cbn [flat_map forallb]. unfold namedRuns, namedSamples, idOf.
  by rewrite Hn, Hi, Hl.
Qed.

Lemma labelName_fallback o :
  truthy (prop (VObj o) "name") = false ->
  labelName (VObj o)
  = labelName (withProp "name" (or (prop (VObj o) "color") (VStr "unlabeled")) o).
Proof.
  intros H. unfold labelName. rewrite !prop_withProp. cbn [String.eqb Ascii.eqb Bool.eqb].
  unfold or at 2. rewrite H. unfold or.
  destruct (truthy (prop (VObj o) "color")) eqn:E; rewrite ?E; reflexivity.
Qed.

Lemma memberName_fallback o :
  truthy (prop (VObj o) "fullName") = false ->
  memberName (VObj o)
  = memberName (withProp "fullName"
                  (or (prop (VObj o) "username") (prop (VObj o) "id")) o).
Proof.
  intros H. unfold memberName. rewrite !prop_withProp.
  cbn [String.eqb Ascii.eqb Bool.eqb].
  unfold or at 2. rewrite H. unfold or.
  destruct (truthy (prop (VObj o) "username")) eqn:E; rewrite ?E; [reflexivity|].
  destruct (truthy (prop (VObj o) "id")) eqn:E'; rewrite ?E, ?E'; reflexivity.
Qed.

End Defaulting.

Section Totality.

(** A collection of the payload that is there but is not an array is not
    read as empty: filtering it, or looping over it, throws.  And so does
    the conversion to a property key of an identifier that is an object
    with a member named [toString], in a payload whose collections are
    arrays and whose lists, labels and members are records. *)
Lemma truthy_non_array_collection_throws :
  aggregate demoBoard (VObj [("message", VStr "invalid id")]) (VArr []) (VArr []) (VArr [])
  = TypeError
  /\ aggregate demoBoard (VArr []) (VNum 1) (VArr []) (VArr []) = TypeError
  /\ aggregate demoBoard (VArr []) (VArr []) (VBool true) (VArr []) = TypeError
  /\ aggregate demoBoard (VArr []) (VArr []) (VArr []) (VStr "cards") = TypeError
  /\ (exists m, aggregate demoBoard (VArr []) (VArr []) (VArr []) (VArr []) = Ok m)
  /\ shaped (VArr []) (VArr []) (VArr []) poisonCards = true
  /\ aggregate demoBoard (VArr []) (VArr []) (VArr []) poisonCards = TypeError.
Proof.
  repeat split; try (vm_compute; reflexivity). eexists. vm_compute. reflexivity.
Qed.

Lemma samples_time_in_list_seconds board listsRaw labelsRaw membersRaw cardsRaw :
  Forall (fun l => ownKey (idOf l) = true) (survivingLists listsRaw) ->
  samplesOf "trello_time_in_list_total"
    (families board listsRaw labelsRaw membersRaw cardsRaw)
  = List.map
      (fun l =>
         {| labels := [("board", boardNameOf board); ("list", escaped (prop l "name"))];
            value := Num (sumN (List.map
                                  (fun c => if bool_decide (listRef c = idOf l)
                                            then seconds c else 0%N)
                                  (openCards cardsRaw))) |})
      (survivingLists listsRaw).
Proof.
  intros Hown. rewrite samples_time_in_list. apply List.map_ext_in. intros l Hl.
  unfold listSample. rewrite count_cardTimeByList; [reflexivity|].
  rewrite Forall_forall in Hown. by apply Hown, list_elem_of_In.
Qed.

(** C8, amended: on a well-typed payload (collections absent or arrays;
    lists, labels and members records; the identifiers and the names
    primitive values) the aggregation throws nothing and returns a metrics
    mapping, which the formatter renders.  A [listsRaw], [labels],
    [members] or [cardsRaw] that is absent (or falsy) is read as the empty
    array; an [idLabels], [idMembers] or [customFieldItems] that is absent
    or not an array is read as the empty array; an absent board name reads
    as "(unknown)"; the name of a label falls back to its color, then to
    "unlabeled"; the name of a member falls back to the username, then to
    the identifier; a card without TimeEstimate stands for 0 seconds in
    [time_in_list_total]. *)
Theorem defaulting_keeps_aggregate_total board listsRaw labelsRaw membersRaw cardsRaw :
  (wellTyped board listsRaw labelsRaw membersRaw cardsRaw = true ->
   exists m,
     aggregate board listsRaw labelsRaw membersRaw cardsRaw = Ok m
     /\ buildMetrics board listsRaw labelsRaw membersRaw cardsRaw
        = Ok (formatPrometheusMetrics m)
     /\ (Forall (fun l => ownKey (idOf l) = true) (survivingLists listsRaw) ->
         samplesOf "trello_time_in_list_total" m
         = List.map
             (fun l =>
                {| labels := [("board", boardNameOf board);
                              ("list", escaped (prop l "name"))];
                   value := Num (sumN (List.map
                                         (fun c => if bool_decide (listRef c = idOf l)
                                                   then seconds c else 0%N)
                                         (openCards cardsRaw))) |})
             (survivingLists listsRaw)))
  /\ (forall c, resolvedTime c = None -> seconds c = 0%N)
  /\ (forall v, truthy v = false ->
        aggregate board v labelsRaw membersRaw cardsRaw
        = aggregate board (VArr []) labelsRaw membersRaw cardsRaw)
  /\ (forall v, truthy v = false ->
        aggregate board listsRaw v membersRaw cardsRaw
        = aggregate board listsRaw (VArr []) membersRaw cardsRaw)
  /\ (forall v, truthy v = false ->
        aggregate board listsRaw labelsRaw v cardsRaw
        = aggregate board listsRaw labelsRaw (VArr []) cardsRaw)
  /\ (forall v, truthy v = false ->
        aggregate board listsRaw labelsRaw membersRaw v
        = aggregate board listsRaw labelsRaw membersRaw (VArr []))
  /\ (forall field pre o post,
        field ∈ ["idLabels"; "idMembers"; "customFieldItems"] ->
        isArray (prop (VObj o) field) = false ->
        aggregate board listsRaw labelsRaw membersRaw (VArr (pre ++ VObj o :: post))
        = aggregate board listsRaw labelsRaw membersRaw
            (VArr (pre ++ withProp field (VArr []) o :: post)))
  /\ (truthy (prop board "name") = false ->
      aggregate board listsRaw labelsRaw membersRaw cardsRaw
      = aggregate (VObj [("name", VStr "(unknown)")]) listsRaw labelsRaw membersRaw
          cardsRaw)
  /\ (forall pre o post,
        truthy (prop (VObj o) "name") = false ->
        aggregate board listsRaw (VArr (pre ++ VObj o :: post)) membersRaw cardsRaw
        = aggregate board listsRaw
            (VArr (pre
                   ++ withProp "name"
                        (or (prop (VObj o) "color") (VStr "unlabeled")) o
                   :: post))
            membersRaw cardsRaw)
  /\ (forall pre o post,
        truthy (prop (VObj o) "fullName") = false ->
        aggregate board listsRaw labelsRaw (VArr (pre ++ VObj o :: post)) cardsRaw
        = aggregate board listsRaw labelsRaw
            (VArr (pre
                   ++ withProp "fullName"
                        (or (prop (VObj o) "username") (prop (VObj o) "id")) o
                   :: post))
            cardsRaw).
Proof.
  split; [|split; [|split; [|split; [|split; [|split; [|split; [|split; [|split]]]]]]]].
  - intros Hwt. exists (families board listsRaw labelsRaw membersRaw cardsRaw).
    assert (Hagg : aggregate board listsRaw labelsRaw membersRaw cardsRaw
                   = Ok (families board listsRaw labelsRaw membersRaw cardsRaw)).
    { by rewrite aggregate_runs, wellTyped_runs. }
    split; [exact Hagg|]. split; [unfold buildMetrics; by rewrite Hagg|].
    apply samples_time_in_list_seconds.
  - intros c Hc. unfold seconds. by rewrite Hc.
  - intros v Hv. unfold aggregate. by rewrite (falsy_filterable v Hv).
  - intros v Hv. unfold aggregate. by rewrite (falsy_iterate v Hv).
  - intros v Hv. unfold aggregate. by rewrite (falsy_iterate v Hv).
  - intros v Hv. unfold aggregate. by rewrite (falsy_filterable v Hv).
  - intros field pre o post Hf Harr. by apply aggregate_sameCard, sameCard_empty_array.
  - intros Hb. rewrite !aggregate_runs.
    unfold runs, families, boardNameOf, boardName, or. by rewrite Hb.
  - intros pre o post Hn. apply aggregate_sameLabel; [reflexivity| |].
    + by rewrite prop_withProp.
    + by apply labelName_fallback.
  - intros pre o post Hn. apply aggregate_sameMember; [reflexivity| |].
    + by rewrite prop_withProp.
    + by apply memberName_fallback.
Qed.

(** The demo board is well typed; its second label has an empty name and
    its second member no full name. *)
Lemma defaulting_keeps_aggregate_total_witness :
  wellTyped demoBoard demoLists demoLabels demoMembers demoCards = true
  /\ (exists m, aggregate demoBoard demoLists demoLabels demoMembers demoCards = Ok m
                /\ List.map value (samplesOf "trello_time_in_list_total" m)
                   = [Num 180; Num 600])
  /\ aggregate demoBoard VUndefined demoLabels demoMembers demoCards
     = aggregate demoBoard (VArr []) demoLabels demoMembers demoCards.
Proof.
  destruct (defaulting_keeps_aggregate_total demoBoard demoLists demoLabels
              demoMembers demoCards) as (Htot & _ & Hlists & _).
  assert (Hwt : wellTyped demoBoard demoLists demoLabels demoMembers demoCards = true)
    by (vm_compute; reflexivity).
  split; [exact Hwt|]. split.
  - destruct (Htot Hwt) as (m & Hm & _ & Ht). exists m. split; [exact Hm|].
    rewrite Ht; [vm_compute; reflexivity|]. repeat constructor.
  - apply Hlists. reflexivity.
Defined.

End Totality.

(** *** The properties of a plain object *)

Section Entries.

Lemma isIndex_name {A} (kv : string * A) : isIndex kv = isIndex (fst kv, tt).
Proof. reflexivity. Qed.

Lemma setOwn_new {A} (o : list (string * A)) kv :
  fst kv ∉ List.map fst o -> setOwn o kv = o ++ [kv].
Proof.
  intros H. unfold setOwn.
  replace (existsb _ o) with false; [reflexivity|]. symmetry.
  apply not_true_is_false. intros [e [He Hk]]%existsb_exists.
  apply String.eqb_eq in Hk. apply H. rewrite <- Hk.
  by apply list_elem_of_In, List.in_map.
Qed.

Lemma fold_setOwn {A} (l acc : list (string * A)) :
  NoDup (List.map fst (acc ++ l)) -> fold_left setOwn l acc = acc ++ l.
Proof.
  revert acc. induction l as [|kv l IH]; intros acc Hnd; cbn [fold_left].
  - by rewrite app_nil_r.
  - rewrite setOwn_new.
    + rewrite IH; rewrite <- app_assoc; [reflexivity|exact Hnd].
    + rewrite List.map_app in Hnd. cbn [List.map] in Hnd.
      apply NoDup_app in Hnd as (_ & Hd & _). intros Hin.
      apply (Hd _ Hin). apply list_elem_of_here.
Qed.

Lemma filter_none {A} (p : A -> bool) (l : list A) :
  forallb (fun a => negb (p a)) l = true ->
  List.filter p l = [] /\ List.filter (fun a => negb (p a)) l = l.
Proof.
  induction l as [|a l IH]; [done|]. cbn [forallb List.filter].
  intros [Ha Hl]%andb_true_iff. destruct (IH Hl) as [-> ->].
  rewrite Ha. apply negb_true_iff in Ha. by rewrite Ha.
Qed.

(** An object whose names are pairwise distinct and none of which is an
    array index lists its entries in the order of their creation. *)
Lemma entries_plain {A} (o : list (string * A)) :
  plainNames (List.map fst o) = true -> entries o = o.
Proof.
  unfold plainNames. intros [Hnd Hidx]%andb_true_iff.
  apply bool_decide_eq_true in Hnd.
  unfold entries. rewrite (fold_setOwn o []) by exact Hnd. cbn [app].
  rewrite forallb_map' in Hidx.
  destruct (filter_none isIndex o) as [-> ->]; [|reflexivity].
  erewrite forallb_ext'; [exact Hidx|]. intros kv. by rewrite isIndex_name.
Qed.

Lemma setOwn_In {A} (o : list (string * A)) kv x :
  In x (setOwn o kv) -> In x o \/ x = kv.
Proof.
  unfold setOwn. destruct (existsb _ o).
  - intros [e [<- He]]%List.in_map_iff. destruct (String.eqb _ _); auto.
  - intros [H|[<-|[]]]%List.in_app_iff; auto.
Qed.

Lemma fold_setOwn_In {A} (l acc : list (string * A)) x :
  In x (fold_left setOwn l acc) -> In x acc \/ In x l.
Proof.
  revert acc. induction l as [|kv l IH]; intros acc; cbn [fold_left]; [auto|].
  intros [H|H]%IH; [|right; by right].
  apply setOwn_In in H as [H| ->]; [by left|right; by left].
Qed.

Lemma insertByIndex_In {A} (kv : string * A) l x :
  In x (insertByIndex kv l) -> x = kv \/ In x l.
Proof.
  induction l as [|kv' l IH]; cbn [insertByIndex].
  - intros [<-|[]]. by left.
  - destruct (indexOf kv <? indexOf kv')%N.
    + intros [<-|H]; auto.
    + intros [<-|H]; [right; by left|]. destruct (IH H); auto. right. by right.
Qed.

Lemma sorted_In {A} (l : list (string * A)) x :
  In x (fold_right insertByIndex [] l) -> In x l.
Proof.
  induction l as [|kv l IH]; cbn [fold_right]; [done|].
  intros [->|H]%insertByIndex_In; [by left|right; by apply IH].
Qed.

(** Every entry of an object is one of the pairs that created it. *)
Lemma entries_In {A} (o : list (string * A)) x : In x (entries o) -> In x o.
Proof.
  unfold entries. intros [H|H]%List.in_app_iff.
  - apply sorted_In, List.filter_In in H as [H _].
    by apply fold_setOwn_In in H as [[]|H].
  - apply List.filter_In in H as [H _].
    by apply fold_setOwn_In in H as [[]|H].
Qed.

Lemma entries_one {A} (kv : string * A) : entries [kv] = [kv].
Proof.
  unfold entries. cbn [fold_left setOwn existsb app List.filter].
  destruct (isIndex kv); reflexivity.
Qed.

End Entries.

(** *** The text of the exposition *)

Section Text.

Local Arguments String.append : simpl nomatch.
Local Opaque timeMap priorityMap.

Lemma append_assoc (a b c : string) : (a +:+ b) +:+ c = a +:+ b +:+ c.
Proof. induction a as [|x a IH]; [reflexivity|]. cbn. f_equal. exact IH. Qed.

Lemma append_empty (a : string) : a +:+ EmptyString = a.
Proof. induction a as [|x a IH]; [reflexivity|]. cbn. f_equal. exact IH. Qed.

Lemma fold_formatSample metricName ss output :
  fold_left (formatSample metricName) ss output
  = output +:+ unlines (List.map (sampleLine metricName) ss).
Proof.
  revert output. induction ss as [|s ss IH]; intros output; simpl.
  - by rewrite append_empty.
  - rewrite IH. unfold formatSample, sampleLine. by rewrite !append_assoc.
Qed.

Lemma unlines_app ls1 ls2 : unlines (ls1 ++ ls2) = unlines ls1 +:+ unlines ls2.
Proof.
  induction ls1 as [|l ls1 IH]; simpl; [reflexivity|].
  by rewrite IH, !append_assoc.
Qed.

(** The text is the blocks of the families, in the order in which the
    mapping lists them, each with its samples in their order. *)
Lemma format_unlines metrics :
  formatPrometheusMetrics metrics = unlines (flat_map block (entries metrics)).
Proof.
  unfold formatPrometheusMetrics. generalize (entries metrics). clear metrics.
  intros metrics.
  enough (H : forall output,
    fold_left
      (fun output entry =>
         let metricName := fst entry in
         let metricData := snd entry in
         let output := output +:+ "# TYPE " +:+ metricName +:+ " gauge" +:+ str newline in
         let output :=
           output +:+ "# HELP " +:+ metricName +:+ " " +:+ help metricData
                  +:+ str newline in
         fold_left (formatSample metricName) (samples metricData) output)
      metrics output
    = output +:+ unlines (flat_map block metrics)) by apply (H EmptyString).
  induction metrics as [|entry metrics IH]; intros output.
  - simpl. by rewrite append_empty.
  - cbn [fold_left flat_map]. rewrite IH, fold_formatSample, unlines_app.
    unfold block at 2. cbn [unlines]. unfold typeLine, helpLine.
    by rewrite !append_assoc.
Qed.

Lemma hasChar_app c (a b : string) :
  hasChar c (a +:+ b) = hasChar c a || hasChar c b.
Proof.
  induction a as [|x a IH]; simpl; [reflexivity|]. by rewrite IH, orb_assoc.
Qed.

Lemma lines_line (l rest : string) :
  hasChar newline l = false ->
  lines (l +:+ String newline rest) = l :: lines rest.
Proof.
  induction l as [|x l IH]; simpl.
  - reflexivity.
  - intros [Hx Hl]%orb_false_iff. by rewrite Hx, IH.
Qed.

Lemma lines_unlines ls :
  Forall (fun l => hasChar newline l = false) ls -> lines (unlines ls) = ls.
Proof.
  induction 1 as [|l ls Hl _ IH]; [reflexivity|].
  cbn [unlines]. change (str newline +:+ unlines ls) with (String newline (unlines ls)).
  by rewrite lines_line, IH.
Qed.

(** Escaped text holds no line end, and neither does a number. *)
Lemma replaceAll_newline r s :
  hasChar newline r = false -> hasChar newline (replaceAll newline r s) = false.
Proof.
  intros Hr. induction s as [|x s IH]; simpl; [reflexivity|].
  destruct (Ascii.eqb x newline) eqn:E.
  - by rewrite hasChar_app, Hr, IH.
  - simpl. by rewrite E, IH.
Qed.

Lemma escapeText_newline s : hasChar newline (escapeText s) = false.
Proof. unfold escapeText. by apply replaceAll_newline. Qed.

Lemma string_of_uint_newline d :
  hasChar newline (NilEmpty.string_of_uint d) = false.
Proof. induction d; simpl; auto. Qed.

Lemma string_of_N_newline n : hasChar newline (string_of_N n) = false.
Proof.
  unfold string_of_N, NilZero.string_of_uint.
  destruct (N.to_uint n); try reflexivity; apply string_of_uint_newline.
Qed.

Lemma concat_newline (l : list N) :
  hasChar newline (String.concat EmptyString (List.map string_of_N l)) = false.
Proof.
  induction l as [|n l IH]; [reflexivity|]. cbn [List.map String.concat].
  destruct (List.map string_of_N l) eqn:E.
  - apply string_of_N_newline.
  - by rewrite !hasChar_app, string_of_N_newline, IH.
Qed.

(** What a dictionary filled by a loop holds is written on one line. *)
Lemma held_newline x ns : hasChar newline (cellText (held x ns)) = false.
Proof.
  unfold held. destruct (String.eqb x "__proto__") eqn:E.
  { apply String.eqb_eq in E as ->. reflexivity. }
  destruct (inherited x) eqn:Ei; [|apply string_of_N_newline].
  cbn [cellText]. rewrite hasChar_app, concat_newline, orb_false_r.
  apply bool_decide_eq_true in Ei. unfold inheritedNames in Ei.
  repeat (apply elem_of_cons in Ei as [->|Ei]; [reflexivity|]).
  by apply elem_of_nil in Ei.
Qed.

Lemma tally_newline ops (cards : list card) x :
  hasChar newline (cellText (count (tally ops cards) x)) = false.
Proof. unfold tally. rewrite count_fill. apply held_newline. Qed.

Lemma join_newline sep l :
  hasChar newline sep = false ->
  Forall (fun x => hasChar newline x = false) l ->
  hasChar newline (join sep l) = false.
Proof.
  intros Hsep. induction 1 as [|x l Hx Hl IH]; [reflexivity|].
  destruct l as [|y l]; [exact Hx|].
  change (join sep (x :: y :: l)) with (x +:+ sep +:+ join sep (y :: l)).
  by rewrite !hasChar_app, Hx, Hsep, IH.
Qed.

Lemma formatLabels_newline s :
  plainKeys s = true -> hasChar newline (formatLabels s) = false.
Proof.
  unfold plainKeys, formatLabels. intros H.
  apply join_newline; [reflexivity|]. apply Forall_map, Forall_forall.
  intros [k v] Hin. rewrite forallb_forall in H.
  apply list_elem_of_In, entries_In, H in Hin.
  apply negb_true_iff in Hin. cbn [fst snd] in *.
  by rewrite !hasChar_app, Hin, escapeText_newline.
Qed.

Lemma sampleLine_plain rest s :
  hasChar newline rest = false -> plainKeys s = true ->
  hasChar newline (cellText (value s)) = false ->
  plainLine (sampleLine (String "t" rest) s).
Proof.
  intros Hn Hk Hv. split; [reflexivity|].
  unfold sampleLine. rewrite !hasChar_app, formatLabels_newline, Hv by done.
  simpl. by rewrite Hn.
Qed.

Lemma tidy_pushAll name ss metrics :
  Forall tidyEntry metrics ->
  Forall (fun s => plainLine (sampleLine name s)) ss ->
  Forall tidyEntry (pushAll name ss metrics).
Proof.
  intros Hm Hss. unfold pushAll. apply Forall_map.
  eapply Forall_impl; [exact Hm|]. intros [n d] (Ht & Hh & Hs).
  cbn [fst snd] in *.
  destruct (String.eqb n name) eqn:E; [|by split].
  apply String.eqb_eq in E as ->. split; [exact Ht|]. split; [exact Hh|].
  cbn [fst snd samples]. apply Forall_app. by split.
Qed.

Lemma grouped_plain ls rest :
  Forall plainLine ls ->
  grouped (ls ++ rest) = (ls ++ fst (grouped rest), snd (grouped rest)).
Proof.
  induction 1 as [|l ls [Hl _] _ IH]; simpl.
  - by destruct (grouped rest).
  - rewrite IH, Hl. reflexivity.
Qed.

Lemma grouped_blocks metrics :
  Forall tidyEntry metrics ->
  grouped (flat_map block metrics)
  = ([], List.map
           (fun entry =>
              (fst entry,
               helpLine (fst entry) (help (snd entry))
               :: List.map (sampleLine (fst entry)) (samples (snd entry))))
           metrics).
Proof.
  induction 1 as [|entry metrics ((Ht & _) & Hh & Hs) _ IH]; [reflexivity|].
  cbn [flat_map List.map]. unfold block at 1.
  rewrite <- app_comm_cons. cbn [grouped].
  rewrite (grouped_plain
             (helpLine (fst entry) (help (snd entry))
              :: List.map (sampleLine (fst entry)) (samples (snd entry)))), IH, Ht.
  - cbn [fst snd]. by rewrite app_nil_r.
  - constructor; [exact Hh|]. apply Forall_map. exact Hs.
Qed.

Lemma block_lines metrics :
  Forall tidyEntry metrics ->
  Forall (fun l => hasChar newline l = false) (flat_map block metrics).
Proof.
  induction 1 as [|entry metrics ((_ & Ht) & (_ & Hh) & Hs) _ IH]; [constructor|].
  cbn [flat_map]. apply Forall_app. split; [|exact IH].
  unfold block. repeat constructor; try done.
  apply Forall_map. eapply Forall_impl; [exact Hs|]. by intros s [_ ?].
Qed.

(** Reading back the text of a tidy mapping gives its families in order,
    each with its help line and the lines of its samples in order. *)
Lemma familiesIn_format metrics :
  Forall tidyEntry (entries metrics) ->
  familiesIn (formatPrometheusMetrics metrics)
  = List.map
      (fun entry =>
         (fst entry,
          helpLine (fst entry) (help (snd entry))
          :: List.map (sampleLine (fst entry)) (samples (snd entry))))
      (entries metrics).
Proof.
  intros H. unfold familiesIn.
  rewrite format_unlines, lines_unlines by by apply block_lines.
  by rewrite grouped_blocks.
Qed.

Lemma namedSamples_plain rest key nameOf boardName ops (cards : list card) xs :
  hasChar newline rest = false -> hasChar newline key = false ->
  Forall (fun s => plainLine (sampleLine (String "t" rest) s))
    (flat_map (namedSamples key nameOf boardName (tally ops cards)) xs).
Proof.
  intros Hr Hk. induction xs as [|x xs IH]; [constructor|].
  cbn [flat_map]. apply Forall_app. split; [|exact IH].
  unfold namedSamples. destruct (positive _); constructor; [|constructor].
  apply sampleLine_plain; [exact Hr| |apply tally_newline].
  unfold plainKeys. simpl. by rewrite Hk.
Qed.

Lemma mapped_plain {A} rest (f : A -> sample) (xs : list A) :
  hasChar newline rest = false ->
  (forall x, plainKeys (f x) = true) ->
  (forall x, hasChar newline (cellText (value (f x))) = false) ->
  Forall (fun s => plainLine (sampleLine (String "t" rest) s)) (List.map f xs).
Proof.
  intros Hr Hf Hv. apply Forall_map, Forall_forall. intros x _.
  by apply sampleLine_plain.
Qed.

Lemma metrics0_tidy : Forall tidyEntry metrics0.
Proof. repeat constructor. Qed.

(** The mapping [buildMetrics] formats reads back from its text. *)
Lemma families_tidy b ls lb ms cs : Forall tidyEntry (families b ls lb ms cs).
Proof.
  unfold families.
  repeat apply tidy_pushAll.
  all: try apply metrics0_tidy.
  all: try by apply namedSamples_plain.
  all: try (apply mapped_plain; [done|done|intros x; apply tally_newline]).
  all: repeat constructor.
  all: apply sampleLine_plain; [done|done|apply string_of_N_newline].
Qed.

Lemma families_entries b ls lb ms cs :
  entries (families b ls lb ms cs) = families b ls lb ms cs.
Proof. apply entries_plain. rewrite families_names. vm_compute. reflexivity. Qed.

End Text.

(** *** Order of the families *)

Section Order.

(** Read back from the text of the demo board, the families come in the
    order of the literal [metrics] is created from, and that is not the
    order of the family list of the specification. *)
Lemma family_order_differs_from_specification :
  exists output,
    buildMetrics demoBoard demoLists demoLabels demoMembers demoCards = Ok output
    /\ List.map fst (familiesIn output) = metricsOrder
    /\ List.map fst (familiesIn output) <> specFamilyOrder.
Proof.
  eexists. split; [vm_compute; reflexivity|].
  split; [vm_compute; reflexivity|]. vm_compute. discriminate.
Qed.

(** C2, amended: the mapping the aggregation returns lists the families
    in the order of the literal it starts from (boards_total,
    cards_in_list_total, labeled_cards_on_board, cards_per_board_member,
    lists_per_board, time_in_list_total, cards_by_priority_total,
    cards_by_time_total); the text is the header lines and the sample
    lines of the families in the order of the mapping, the samples of each
    family in the order they were pushed, and reading the text back gives
    exactly that. *)
Theorem families_in_mapping_order board listsRaw labelsRaw membersRaw cardsRaw m :
  aggregate board listsRaw labelsRaw membersRaw cardsRaw = Ok m ->
  List.map fst m = metricsOrder
  /\ formatPrometheusMetrics m = unlines (flat_map block m)
  /\ familiesIn (formatPrometheusMetrics m)
     = List.map
         (fun entry =>
            (fst entry,
             helpLine (fst entry) (help (snd entry))
             :: List.map (sampleLine (fst entry)) (samples (snd entry))))
         m.
Proof.
  intros Hm. rewrite (aggregate_Ok _ _ _ _ _ _ Hm).
  split; [apply families_names|].
  rewrite familiesIn_format, format_unlines, families_entries;
    [done|rewrite families_entries; apply families_tidy].
Qed.

Lemma families_in_mapping_order_witness :
  List.map fst demoMetrics = metricsOrder
  /\ List.map fst (familiesIn (formatPrometheusMetrics demoMetrics)) = metricsOrder.
Proof.
  destruct (families_in_mapping_order demoBoard demoLists demoLabels demoMembers
              demoCards demoMetrics) as (Hn & _ & Hf); [vm_compute; reflexivity|].
  split; [exact Hn|]. rewrite Hf, List.map_map. exact Hn.
Defined.

End Order.

(** *** Escaping of label values *)

Section Escaping.

Local Arguments String.append : simpl nomatch.

Lemma replaceAll_app c r (a b : string) :
  replaceAll c r (a +:+ b) = replaceAll c r a +:+ replaceAll c r b.
Proof.
  induction a as [|x a IH]; simpl; [reflexivity|].
  destruct (Ascii.eqb x c); simpl; by rewrite IH, ?append_assoc.
Qed.

(** The three replacements of [escapeLabel], one after the other, escape
    every character once and alter no other character. *)
Lemma escapeText_once s : escapeText s = escapeOnce s.
Proof.
  unfold escapeText. induction s as [|x s IH]; [reflexivity|].
  cbn [replaceAll escapeOnce]. unfold escapeChar.
  destruct (Ascii.eqb x backslash) eqn:Eb.
  - rewrite !replaceAll_app, IH. reflexivity.
  - cbn [replaceAll]. destruct (Ascii.eqb x dquote) eqn:Eq.
    + rewrite !replaceAll_app, IH. reflexivity.
    + cbn [replaceAll]. destruct (Ascii.eqb x newline) eqn:En.
      * by rewrite IH.
      * by rewrite IH.
Qed.

Lemma escapeLabel_once s : escapeLabel (VStr s) = Ok (escapeOnce s).
Proof. by rewrite escapeLabel_str, escapeText_once. Qed.

(** The formatter escapes the label values it is given once. *)
Lemma formatLabels_once k v n :
  formatLabels {| labels := [(k, v)]; value := n |}
  = k +:+ "=" +:+ str dquote +:+ escapeOnce v +:+ str dquote.
Proof. unfold formatLabels. cbn [labels]. rewrite entries_one. simpl. by rewrite escapeText_once. Qed.

(** The name of a list is escaped when its sample is built and again when
    the sample is formatted. *)
Lemma list_name_escaped_twice boardName (d : dict) l :
  formatLabels (listSample boardName d l)
  = "board=" +:+ str dquote +:+ escapeOnce boardName +:+ str dquote +:+ ", "
    +:+ "list=" +:+ str dquote +:+ escapeOnce (escaped (prop l "name"))
    +:+ str dquote.
Proof.
  unfold formatLabels, listSample. cbn [labels].
  rewrite entries_plain by (vm_compute; reflexivity). cbn [List.map join fst snd].
  by rewrite !escapeText_once, !append_assoc.
Qed.

(** C1: for a list named [He said "hi"] and a line end, the sample line of
    [cards_in_list_total] carries the name escaped twice, backslashes of
    the first escaping included, and the text holds nowhere the name
    escaped once. *)
Theorem label_text_is_escaped_twice :
  escapeLabel (VStr labelText) = Ok escapedOnce
  /\ escapeLabel (VStr escapedOnce) = Ok escapedTwice
  /\ exists output,
       buildMetrics (VObj [("name", VStr "X")])
         (VArr [ VObj [("id", VStr "L"); ("name", VStr labelText)] ])
         (VArr []) (VArr []) (VArr []) = Ok output
       /\ contains
            ("trello_cards_in_list_total{board=" +:+ str dquote +:+ "X" +:+ str dquote
             +:+ ", list=" +:+ str dquote +:+ escapedTwice +:+ str dquote +:+ "} 0"
             +:+ str newline)
            output = true
       /\ contains escapedOnce output = false.
Proof.
  split; [vm_compute; reflexivity|]. split; [vm_compute; reflexivity|].
  eexists. split; [vm_compute; reflexivity|]. split; vm_compute; reflexivity.
Qed.

End Escaping.

(** *** The end-to-end example of the specification *)

Section EndToEnd.

Example inbox_end_to_end :
  exists output,
    buildMetrics demoBoard inboxLists (VArr []) (VArr []) inboxCards = Ok output
    /\ contains
         ("trello_cards_in_list_total{board=" +:+ str dquote +:+ "X" +:+ str dquote
          +:+ ", list=" +:+ str dquote +:+ "Inbox" +:+ str dquote +:+ "} 2"
          +:+ str newline)
         output = true
    /\ contains
         ("trello_time_in_list_total{board=" +:+ str dquote +:+ "X" +:+ str dquote
          +:+ ", list=" +:+ str dquote +:+ "Inbox" +:+ str dquote +:+ "} 180"
          +:+ str newline)
         output = true
    /\ contains ("trello_boards_total{} 1" +:+ str newline) output = true.
Proof.
  eexists. split; [vm_compute; reflexivity|]. repeat split; vm_compute; reflexivity.
Qed.

End EndToEnd.

(** ** Further properties of the code *)

(** *** [escapeLabel] *)

Section EscapingMore.

Local Arguments String.append : simpl nomatch.

Lemma readQuoted_escapeOnce s rest :
  readQuoted (escapeOnce s +:+ String dquote rest) = Some (s, rest).
Proof.
  induction s as [|c s IH]; [reflexivity|].
  cbn [escapeOnce]. unfold escapeChar.
  destruct (Ascii.eqb c backslash) eqn:Eb.
  { apply Ascii.eqb_eq in Eb as ->. simpl. by rewrite IH. }
  destruct (Ascii.eqb c dquote) eqn:Eq.
  { apply Ascii.eqb_eq in Eq as ->. simpl. by rewrite IH. }
  destruct (Ascii.eqb c newline) eqn:En.
  { apply Ascii.eqb_eq in En as ->. simpl. by rewrite IH. }
  simpl. by rewrite Eq, Eb, IH.
Qed.

Lemma escapeOnce_inj s1 s2 : escapeOnce s1 = escapeOnce s2 -> s1 = s2.
Proof.
  intros H.
  assert (E : Some (s1, EmptyString) = Some (s2, EmptyString)).
  { by rewrite <- !readQuoted_escapeOnce, H. }
  by injection E.
Qed.

Lemma escapeText_inj s1 s2 : escapeText s1 = escapeText s2 -> s1 = s2.
Proof. rewrite !escapeText_once. apply escapeOnce_inj. Qed.

(** X1: the escaping of a text returns; a reader of the exposition format
    that starts after the opening quote of the escaped text finds the text
    itself and stops at the closing quote, whatever follows it; so two
    texts are escaped alike only when they are the same. *)
Theorem escaped_text_reads_back s :
  exists e,
    escapeLabel (VStr s) = Ok e
    /\ (forall rest, readQuoted (e +:+ String dquote rest) = Some (s, rest))
    /\ (forall s', escapeLabel (VStr s') = Ok e -> s' = s).
Proof.
  exists (escapeOnce s). split; [apply escapeLabel_once|]. split.
  - intros rest. apply readQuoted_escapeOnce.
  - intros s'. rewrite escapeLabel_once. intros [= H]. by apply escapeOnce_inj.
Qed.

Lemma escaped_text_reads_back_witness :
  exists e,
    escapeLabel (VStr ("a" +:+ str dquote +:+ str backslash)) = Ok e
    /\ readQuoted (e +:+ String dquote "} 1")
       = Some ("a" +:+ str dquote +:+ str backslash, "} 1").
Proof.
  destruct (escaped_text_reads_back ("a" +:+ str dquote +:+ str backslash))
    as (e & He & Hr & Hi).
  exists e. split; [exact He|exact (Hr "} 1")].
Defined.

Lemma length_append (a b : string) :
  String.length (a +:+ b) = String.length a + String.length b.
Proof. induction a as [|x a IH]; simpl; [reflexivity|]. by rewrite IH. Qed.

Lemma escapeChar_length c :
  String.length (escapeChar c) = (if special c then 2 else 1).
Proof.
  unfold escapeChar, special.
  destruct (Ascii.eqb c backslash); [reflexivity|].
  destruct (Ascii.eqb c dquote); [reflexivity|].
  by destruct (Ascii.eqb c newline).
Qed.

(** X2: escaping makes a text longer by one character for each
    backslash, double quote and line end in it; a text that holds none of
    them comes back unchanged. *)
Theorem escaping_costs_one_per_special s :
  exists e,
    escapeLabel (VStr s) = Ok e
    /\ String.length e = String.length s + countSpecial s
    /\ (countSpecial s = 0 -> e = s).
Proof.
  exists (escapeOnce s). split; [apply escapeLabel_once|]. split.
  - induction s as [|c s IH]; [reflexivity|].
    cbn [escapeOnce countSpecial String.length].
    rewrite length_append, escapeChar_length, IH. destruct (special c); lia.
  - induction s as [|c s IH]; [reflexivity|].
    cbn [escapeOnce countSpecial]. unfold escapeChar, special.
    destruct (Ascii.eqb c backslash); [discriminate|].
    destruct (Ascii.eqb c dquote); [discriminate|].
    destruct (Ascii.eqb c newline); [discriminate|].
    simpl. intros H. by rewrite IH.
Qed.

Lemma escaping_costs_one_per_special_witness :
  countSpecial "To do" = 0 /\ escapeLabel (VStr "To do") = Ok "To do".
Proof.
  split; [reflexivity|].
  destruct (escaping_costs_one_per_special "To do") as (e & He & _ & Hs).
  rewrite He. f_equal. apply Hs. reflexivity.
Defined.

End EscapingMore.

(** *** [formatPrometheusMetrics] *)

Section FormattingMore.

Local Arguments String.append : simpl nomatch.

Lemma plainNames_app names1 names2 :
  plainNames (names1 ++ names2) = true ->
  plainNames names1 = true /\ plainNames names2 = true.
Proof.
  unfold plainNames. rewrite forallb_app.
  intros [Hnd [H1 H2]%andb_true_iff]%andb_true_iff.
  apply bool_decide_eq_true, NoDup_app in Hnd as (Hn1 & _ & Hn2).
  rewrite H1, H2, !andb_true_r. split; by apply bool_decide_eq_true.
Qed.

Lemma entries_app {A} (o1 o2 : list (string * A)) :
  plainNames (List.map fst (o1 ++ o2)) = true -> entries (o1 ++ o2) = entries o1 ++ entries o2.
Proof.
  intros H. rewrite (entries_plain _ H). rewrite List.map_app in H.
  apply plainNames_app in H as [H1 H2]. by rewrite !entries_plain.
Qed.

(** A name that is an array index, created last, is listed first. *)
Lemma entries_index_last {A} (o : list (string * A)) kv :
  plainNames (List.map fst o) = true -> isIndex kv = true ->
  entries (o ++ [kv]) = kv :: o.
Proof.
  intros Ho Hkv. pose proof Ho as Ho'. unfold plainNames in Ho'.
  apply andb_true_iff in Ho' as [Hnd Hidx]. apply bool_decide_eq_true in Hnd.
  rewrite forallb_map' in Hidx.
  assert (Hidx' : forallb (fun e => negb (isIndex e)) o = true).
  { erewrite forallb_ext'; [exact Hidx|]. intros e. by rewrite isIndex_name. }
  unfold entries. rewrite (fold_setOwn (o ++ [kv]) []).
  - cbn [app]. rewrite !List.filter_app. cbn [List.filter].
    destruct (filter_none isIndex o Hidx') as [-> ->].
    rewrite Hkv. cbn. by rewrite app_nil_r.
  - cbn [app]. rewrite List.map_app. cbn [List.map].
    apply NoDup_app. split; [exact Hnd|]. split; [|apply NoDup_singleton].
    intros k Hk [->|[]%elem_of_nil]%elem_of_cons.
    apply list_elem_of_In, List.in_map_iff in Hk as (e & He & Hin).
    rewrite forallb_forall in Hidx'. apply Hidx' in Hin.
    rewrite isIndex_name, He, <- isIndex_name, Hkv in Hin. discriminate Hin.
Qed.

(** X3: when the names of the families are pairwise distinct and none is
    an array index, formatting is done family by family in the order of
    the mapping: the text of two mappings put one after the other is the
    text of the first followed by the text of the second.  A family
    without samples still has its two header lines; and a family whose
    name is an array index comes first in the text, though created last. *)
Theorem format_family_by_family (m1 m2 : metricsObj) :
  (plainNames (List.map fst (m1 ++ m2)) = true ->
   formatPrometheusMetrics (m1 ++ m2)
   = formatPrometheusMetrics m1 +:+ formatPrometheusMetrics m2)
  /\ (forall name h,
        formatPrometheusMetrics [(name, {| help := h; samples := [] |})]
        = typeLine name +:+ str newline +:+ helpLine name h +:+ str newline)
  /\ (forall name d,
        plainNames (List.map fst m1) = true -> isIndex (name, d) = true ->
        formatPrometheusMetrics (m1 ++ [(name, d)])
        = formatPrometheusMetrics [(name, d)] +:+ formatPrometheusMetrics m1).
Proof.
  split; [|split].
  - intros H. by rewrite !format_unlines, entries_app, flat_map_app, unlines_app.
  - intros name h. rewrite format_unlines, entries_one. reflexivity.
  - intros name d Hm Hi.
    rewrite !format_unlines, entries_index_last, entries_one, entries_plain by done.
    cbn [flat_map]. by rewrite app_nil_r, unlines_app.
Qed.

Lemma format_family_by_family_witness :
  let one := {| help := "h"; samples := [] |} in
  formatPrometheusMetrics [("b", one); ("a", one)]
  = formatPrometheusMetrics [("b", one)] +:+ formatPrometheusMetrics [("a", one)]
  /\ formatPrometheusMetrics [("b", one); ("1", one)]
     = formatPrometheusMetrics [("1", one)] +:+ formatPrometheusMetrics [("b", one)].
Proof.
  intros one.
  destruct (format_family_by_family [("b", one)] [("a", one)]) as (H1 & _ & H3).
  split.
  - apply H1. vm_compute. reflexivity.
  - apply (H3 "1" one); vm_compute; reflexivity.
Defined.

Lemma oneLiners_lines metrics :
  oneLiners metrics = true ->
  Forall (fun l => hasChar newline l = false) (flat_map block (entries metrics)).
Proof.
  unfold oneLiners. intros H. rewrite forallb_forall in H.
  assert (He : Forall (fun entry => In entry metrics) (entries metrics)).
  { apply Forall_forall. intros e He. by apply entries_In, list_elem_of_In. }
  induction He as [|[name d] es Hin _ IH]; [constructor|].
  cbn [flat_map]. apply Forall_app. split; [|exact IH].
  apply H in Hin. cbn [fst snd] in Hin.
  apply andb_true_iff in Hin as [[Hn Hh]%andb_true_iff Hs].
  apply negb_true_iff in Hn, Hh.
  unfold block. cbn [fst snd]. constructor; [|constructor].
  - unfold typeLine. by rewrite !hasChar_app, Hn.
  - unfold helpLine. by rewrite !hasChar_app, Hn, Hh.
  - apply Forall_map, Forall_forall. intros s Hs'.
    rewrite forallb_forall in Hs. apply list_elem_of_In, Hs in Hs'.
    apply andb_true_iff in Hs' as [Hk Hv]. apply negb_true_iff in Hv.
    unfold sampleLine.
    by rewrite !hasChar_app, Hn, formatLabels_newline, Hv.
Qed.

(** X4: when no name, help text, label key or value holds a line end, the
    lines of the text are, family after family in the order in which the
    mapping lists its entries, the TYPE line, the HELP line and one line
    for each sample: a line end inside a label value never breaks a
    line. *)
Theorem text_has_one_line_per_sample metrics :
  oneLiners metrics = true ->
  lines (formatPrometheusMetrics metrics) = flat_map block (entries metrics)
  /\ length (lines (formatPrometheusMetrics metrics))
     = list_sum (List.map (fun entry => 2 + length (samples (snd entry)))
                   (entries metrics)).
Proof.
  intros H.
  assert (E : lines (formatPrometheusMetrics metrics) = flat_map block (entries metrics)).
  { rewrite format_unlines. by apply lines_unlines, oneLiners_lines. }
  split; [exact E|]. rewrite E. clear.
  induction (entries metrics) as [|entry es IH]; [reflexivity|].
  cbn [flat_map List.map list_sum]. rewrite length_app, IH.
  unfold block. simpl. by rewrite length_map.
Qed.

Lemma text_has_one_line_per_sample_witness :
  length (lines (formatPrometheusMetrics demoMetrics)) = 37.
Proof.
  destruct (text_has_one_line_per_sample demoMetrics) as [_ ->];
    vm_compute; reflexivity.
Defined.

End FormattingMore.

(** *** Which cards and lists [buildMetrics] looks at *)

Section CardsMore.

Lemma buildMetrics_aggregate b ls lb ms cs cs' :
  aggregate b ls lb ms cs = aggregate b ls lb ms cs' ->
  buildMetrics b ls lb ms cs = buildMetrics b ls lb ms cs'.
Proof. intros H. unfold buildMetrics. by rewrite H. Qed.

Lemma survivingCards_app pre post :
  survivingCards (VArr (pre ++ post))
  = survivingCards (VArr pre) ++ survivingCards (VArr post).
Proof. by rewrite !survivingCards_array, List.filter_app. Qed.

(** A card that passes the filter and adds to no dictionary is as good as
    absent when nothing throws on it, and makes the aggregation throw
    otherwise. *)
Lemma aggregate_idle b ls lb ms pre c post :
  keepCard c = true -> closed (cardOf c) = true ->
  aggregate b ls lb ms (VArr (pre ++ c :: post))
  = if cardRuns c then aggregate b ls lb ms (VArr (pre ++ post)) else TypeError.
Proof.
  intros Hk Hc. rewrite !aggregate_runs. unfold runs, families, enriched, tally.
  rewrite survivingCards_middle, survivingCards_app, Hk.
  rewrite !List.map_app, !forallb_app, !flat_map_app. cbn [List.map forallb flat_map].
  unfold listOps, priorityOps, rangeOps, timeOps, entryOps. rewrite Hc. cbn [negb andb app].
  destruct (cardRuns c); cbn [andb]; [reflexivity|].
  destruct (isOk (boardName b)), (filterable ls), (iterate lb), (iterate ms);
    cbn [andb]; rewrite ?andb_false_r; reflexivity.
Qed.

(** X5: an archived card that passes the filter is still scanned for its
    custom fields: when the scan returns, the card changes nothing in any
    family, and the metrics and the text are those of the payload without
    it; when the scan throws, so does the aggregation. *)
Theorem archived_card_is_absent board listsRaw labelsRaw membersRaw pre c post :
  archived c = true ->
  aggregate board listsRaw labelsRaw membersRaw (VArr (pre ++ c :: post))
  = (if keepCard c && negb (scans c) then TypeError
     else aggregate board listsRaw labelsRaw membersRaw (VArr (pre ++ post)))
  /\ buildMetrics board listsRaw labelsRaw membersRaw (VArr (pre ++ c :: post))
     = (if keepCard c && negb (scans c) then TypeError
        else buildMetrics board listsRaw labelsRaw membersRaw (VArr (pre ++ post))).
Proof.
  intros Ha.
  assert (H : aggregate board listsRaw labelsRaw membersRaw (VArr (pre ++ c :: post))
              = if keepCard c && negb (scans c) then TypeError
                else aggregate board listsRaw labelsRaw membersRaw (VArr (pre ++ post))).
  { destruct (keepCard c) eqn:Hk; cbn [andb]; [|by apply aggregate_dropped].
    rewrite aggregate_idle by (by rewrite ?closed_cardOf).
    unfold cardRuns. rewrite Ha, andb_true_r. by destruct (scans c). }
  split; [exact H|]. unfold buildMetrics at 1. rewrite H.
  by destruct (keepCard c && negb (scans c)).
Qed.

(** The sixth card of the demo board is archived. *)
Lemma archived_card_is_absent_witness :
  let pre := firstn 5 (elements demoCards) in
  let c := nth 5 (elements demoCards) VNull in
  let post := skipn 6 (elements demoCards) in
  buildMetrics demoBoard demoLists demoLabels demoMembers demoCards
  = buildMetrics demoBoard demoLists demoLabels demoMembers (VArr (pre ++ post)).
Proof.
  intros pre c post.
  destruct (archived_card_is_absent demoBoard demoLists demoLabels demoMembers pre c post)
    as [_ H]; [reflexivity|].
  exact H.
Defined.

(** X6: an entry of the cards array that is [null], has no [idList], names
    an ignored list or carries the role separator changes nothing in any
    family. *)
Theorem card_outside_the_board_is_absent
    board listsRaw labelsRaw membersRaw pre c post :
  truthy c = false \/ truthy (prop c "idList") = false
  \/ includes listsToIgnore (prop c "idList") = true
  \/ prop c "cardRole" = VStr "separator" ->
  aggregate board listsRaw labelsRaw membersRaw (VArr (pre ++ c :: post))
  = aggregate board listsRaw labelsRaw membersRaw (VArr (pre ++ post))
  /\ buildMetrics board listsRaw labelsRaw membersRaw (VArr (pre ++ c :: post))
     = buildMetrics board listsRaw labelsRaw membersRaw (VArr (pre ++ post)).
Proof.
  intros H.
  assert (Hk : keepCard c = false).
  { unfold keepCard. destruct H as [H|[H|[H|H]]].
    - by rewrite H.
    - by rewrite H, orb_true_r.
    - destruct (negb (truthy c) || negb (truthy (prop c "idList"))); [reflexivity|].
      by rewrite H.
    - destruct (negb (truthy c) || negb (truthy (prop c "idList"))); [reflexivity|].
      destruct (includes listsToIgnore (prop c "idList")); [reflexivity|].
      destruct (isArray (prop c "idLabels") && _); [reflexivity|].
      by rewrite H. }
  split; [|apply buildMetrics_aggregate]; by apply aggregate_dropped.
Qed.

(** The last entry of the cards of the demo board is [null]. *)
Lemma card_outside_the_board_is_absent_witness :
  buildMetrics demoBoard demoLists demoLabels demoMembers demoCards
  = buildMetrics demoBoard demoLists demoLabels demoMembers
      (VArr (firstn 6 (elements demoCards) ++ [])).
Proof.
  apply (card_outside_the_board_is_absent demoBoard demoLists demoLabels demoMembers
           (firstn 6 (elements demoCards)) VNull []).
  left. reflexivity.
Defined.

(** X7: a list record whose identifier is in the ignored set changes
    nothing in any family, [lists_per_board] included. *)
Theorem ignored_list_is_absent board labelsRaw membersRaw cardsRaw pre l post :
  includes listsToIgnore (prop l "id") = true ->
  aggregate board (VArr (pre ++ l :: post)) labelsRaw membersRaw cardsRaw
  = aggregate board (VArr (pre ++ post)) labelsRaw membersRaw cardsRaw.
Proof.
  intros Hl.
  assert (Hn : nullish l = false) by (by destruct l).
  assert (Hs : survivingLists (VArr (pre ++ l :: post))
               = survivingLists (VArr (pre ++ post))).
  { unfold survivingLists. cbn [or truthy elements]. rewrite !List.filter_app.
    cbn [List.filter]. by rewrite Hl. }
  assert (Hr : runs board (VArr (pre ++ l :: post)) labelsRaw membersRaw cardsRaw
               = runs board (VArr (pre ++ post)) labelsRaw membersRaw cardsRaw).
  { unfold runs. rewrite Hs. cbn [filterable or truthy].
    destruct (iterate labelsRaw), (iterate membersRaw), (filterable cardsRaw);
      try reflexivity.
    rewrite objects_middle, Hn. unfold objects. rewrite forallb_app.
    by rewrite andb_true_r. }
  rewrite !aggregate_runs, Hr. unfold families. by rewrite Hs.
Qed.

(** The second list of the demo board is the ignored list Ref. *)
Lemma ignored_list_is_absent_witness :
  aggregate demoBoard demoLists demoLabels demoMembers demoCards
  = aggregate demoBoard
      (VArr (firstn 1 (elements demoLists) ++ skipn 2 (elements demoLists)))
      demoLabels demoMembers demoCards.
Proof.
  apply (ignored_list_is_absent demoBoard demoLabels demoMembers demoCards
           (firstn 1 (elements demoLists)) (nth 1 (elements demoLists) VNull)
           (skipn 2 (elements demoLists))).
  reflexivity.
Defined.

(** The families read the dictionaries under the keys of the lists, of
    the static tables, of the labels and of the members only. *)
Lemma families_counts b ls lb ms cs cs' :
  (forall x, count (tally listOps (enriched cs)) x
             = count (tally listOps (enriched cs')) x) ->
  (forall x, count (tally priorityOps (enriched cs)) x
             = count (tally priorityOps (enriched cs')) x) ->
  (forall x, count (tally rangeOps (enriched cs)) x
             = count (tally rangeOps (enriched cs')) x) ->
  (forall l, In l (survivingLists ls) ->
             count (tally timeOps (enriched cs)) (idOf l)
             = count (tally timeOps (enriched cs')) (idOf l)) ->
  (forall x, count (tally (entryOps idLabels) (enriched cs)) x
             = count (tally (entryOps idLabels) (enriched cs')) x) ->
  (forall x, count (tally (entryOps idMembers) (enriched cs)) x
             = count (tally (entryOps idMembers) (enriched cs')) x) ->
  families b ls lb ms cs = families b ls lb ms cs'.
Proof.
  intros H1 H2 H3 H4 H5 H6. unfold families.
  rewrite (List.map_ext (listSample (boardNameOf b) (tally listOps (enriched cs)))
             (listSample (boardNameOf b) (tally listOps (enriched cs'))))
    by (intros l; unfold listSample; by rewrite H1).
  rewrite (List.map_ext (prioritySample (boardNameOf b) (tally priorityOps (enriched cs)))
             (prioritySample (boardNameOf b) (tally priorityOps (enriched cs'))))
    by (intros l; unfold prioritySample; by rewrite H2).
  rewrite (List.map_ext (timeSample (boardNameOf b) (tally rangeOps (enriched cs)))
             (timeSample (boardNameOf b) (tally rangeOps (enriched cs'))))
    by (intros l; unfold timeSample; by rewrite H3).
  rewrite (List.map_ext_in (listSample (boardNameOf b) (tally timeOps (enriched cs)))
             (listSample (boardNameOf b) (tally timeOps (enriched cs'))))
    by (intros l Hl; unfold listSample; by rewrite H4).
  rewrite (List.flat_map_ext
             (namedSamples "label" labelName (boardNameOf b)
                (tally (entryOps idLabels) (enriched cs)))
             (namedSamples "label" labelName (boardNameOf b)
                (tally (entryOps idLabels) (enriched cs'))))
    by (intros l; unfold namedSamples; by rewrite H5).
  rewrite (List.flat_map_ext
             (namedSamples "member" memberName (boardNameOf b)
                (tally (entryOps idMembers) (enriched cs)))
             (namedSamples "member" memberName (boardNameOf b)
                (tally (entryOps idMembers) (enriched cs'))))
    by (intros l; unfold namedSamples; by rewrite H6).
  reflexivity.
Qed.

Lemma runs_counts b ls lb ms l l' :
  forallb cardRuns (survivingCards (VArr l)) = forallb cardRuns (survivingCards (VArr l')) ->
  (forall x, count (tally (entryOps idLabels) (enriched (VArr l))) x
             = count (tally (entryOps idLabels) (enriched (VArr l'))) x) ->
  (forall x, count (tally (entryOps idMembers) (enriched (VArr l))) x
             = count (tally (entryOps idMembers) (enriched (VArr l'))) x) ->
  runs b ls lb ms (VArr l) = runs b ls lb ms (VArr l').
Proof.
  intros Hc H5 H6. unfold runs. rewrite Hc. cbn [filterable or truthy].
  destruct (filterable ls), (iterate lb) as [lbL|], (iterate ms) as [msL|];
    try reflexivity.
  rewrite (forallb_ext' (namedRuns labelName (tally (entryOps idLabels) (enriched (VArr l))))
             (namedRuns labelName (tally (entryOps idLabels) (enriched (VArr l')))))
    by (intros x; unfold namedRuns; by rewrite H5).
  rewrite (forallb_ext'
             (namedRuns memberName (tally (entryOps idMembers) (enriched (VArr l))))
             (namedRuns memberName (tally (entryOps idMembers) (enriched (VArr l')))))
    by (intros x; unfold namedRuns; by rewrite H6).
  reflexivity.
Qed.

Lemma Permutation_filter' {A} (p : A -> bool) (l l' : list A) :
  Permutation l l' -> Permutation (List.filter p l) (List.filter p l').
Proof.
  induction 1 as [|x l l' _ IH|x y l|l l' l'' _ IH1 _ IH2]; cbn [List.filter].
  - constructor.
  - destruct (p x); [by constructor|exact IH].
  - destruct (p x), (p y); try reflexivity. constructor.
  - by etrans.
Qed.

Lemma openCards_Permutation l l' :
  Permutation l l' -> Permutation (openCards (VArr l)) (openCards (VArr l')).
Proof.
  intros H. unfold openCards. rewrite !survivingCards_array.
  by do 2 apply Permutation_filter'.
Qed.

Lemma forallb_Permutation {A} (p : A -> bool) (l l' : list A) :
  Permutation l l' -> forallb p l = forallb p l'.
Proof.
  induction 1 as [|x l l' _ IH|x y l|l l' l'' _ IH1 _ IH2]; cbn [forallb].
  - reflexivity.
  - by rewrite IH.
  - by destruct (p x), (p y).
  - by etrans.
Qed.

Lemma sumN_Permutation (l l' : list N) : Permutation l l' -> sumN l = sumN l'.
Proof. induction 1; simpl; lia. Qed.

(** Addends that are all 1 come in one order only. *)
Lemma ones_Permutation (ns ns' : list N) :
  Forall (fun n => n = 1%N) ns -> Permutation ns ns' -> ns = ns'.
Proof.
  intros H1 Hp.
  assert (H2 : Forall (fun n => n = 1%N) ns') by (by rewrite <- Hp).
  apply Permutation_length in Hp. revert ns' H2 Hp.
  induction H1 as [|n ns -> _ IH]; intros [|n' ns'] H2 Hl; try discriminate; [done|].
  apply Forall_cons in H2 as [-> H2]. f_equal. apply IH; [done|]. by injection Hl.
Qed.

Lemma ones_flat_map {A} (f : A -> list N) (l : list A) :
  (forall a, Forall (fun n => n = 1%N) (f a)) -> Forall (fun n => n = 1%N) (flat_map f l).
Proof.
  intros H. induction l as [|a l IH]; [constructor|]. cbn. apply Forall_app. by split.
Qed.

Lemma held_ones {A} x (f : A -> list N) (l l' : list A) :
  (forall a, Forall (fun n => n = 1%N) (f a)) -> Permutation l l' ->
  held x (flat_map f l) = held x (flat_map f l').
Proof.
  intros Hf Hp. f_equal. apply ones_Permutation; [by apply ones_flat_map|].
  by apply Permutation_flat_map.
Qed.

(** How the cards come in the payload shows under the name of an
    inherited member, where the seconds are put one after the other. *)
Lemma card_order_shows_under_inherited_name :
  exists t t',
    buildMetrics demoBoard oddLists (VArr []) (VArr []) oddCards = Ok t
    /\ buildMetrics demoBoard oddLists (VArr []) (VArr []) (VArr (rev (elements oddCards)))
       = Ok t'
    /\ contains "} function Object() { [native code] }180600" t = true
    /\ contains "} function Object() { [native code] }600180" t' = true.
Proof.
  do 2 eexists. split; [vm_compute; reflexivity|]. split; [vm_compute; reflexivity|].
  split; vm_compute; reflexivity.
Qed.

(** X8: when no surviving list is known under the name of an inherited
    member, the order of the cards in the payload does not matter: a
    permutation of the cards array gives the same metrics and the same
    text. *)
Theorem card_order_does_not_matter board listsRaw labelsRaw membersRaw l l' :
  Permutation l l' ->
  Forall (fun x => ownKey (idOf x) = true) (survivingLists listsRaw) ->
  aggregate board listsRaw labelsRaw membersRaw (VArr l)
  = aggregate board listsRaw labelsRaw membersRaw (VArr l')
  /\ buildMetrics board listsRaw labelsRaw membersRaw (VArr l)
     = buildMetrics board listsRaw labelsRaw membersRaw (VArr l').
Proof.
  intros Hp Hown. pose proof (openCards_Permutation _ _ Hp) as Ho.
  assert (H5 : forall (f : string) x,
    count (tally (entryOps (fun c => prop (raw c) f)) (enriched (VArr l))) x
    = count (tally (entryOps (fun c => prop (raw c) f)) (enriched (VArr l'))) x).
  { intros f x. unfold tally. rewrite !count_fill, !addends_entryOps.
    apply held_ones; [|exact Ho]. intros c. apply ones_flat_map. intros i.
    destruct (bool_decide _); repeat constructor. }
  assert (H : aggregate board listsRaw labelsRaw membersRaw (VArr l)
              = aggregate board listsRaw labelsRaw membersRaw (VArr l')).
  { rewrite !aggregate_runs.
    rewrite (runs_counts _ _ _ _ l l');
      [| rewrite !survivingCards_array; by apply forallb_Permutation, Permutation_filter'
       | apply (H5 "idLabels") | apply (H5 "idMembers") ].
    destruct (runs _ _ _ _ _); [|reflexivity]. f_equal.
    apply families_counts; [| | | |apply (H5 "idLabels")|apply (H5 "idMembers")].
    - intros x. rewrite !held_cardsByList. apply held_ones; [|exact Ho].
      intros c. destruct (bool_decide _); repeat constructor.
    - intros x. unfold tally. rewrite !count_fill, !addends_priorityOps.
      apply held_ones; [|exact Ho]. intros c. destruct (_ && _); repeat constructor.
    - intros x. unfold tally. rewrite !count_fill, !addends_rangeOps.
      apply held_ones; [|exact Ho]. intros c. destruct (bool_decide _); repeat constructor.
    - intros x Hx. rewrite Forall_forall in Hown.
      rewrite !count_cardTimeByList by by apply Hown, list_elem_of_In.
      f_equal. apply sumN_Permutation. by apply Permutation_map. }
  split; [exact H|by apply buildMetrics_aggregate].
Qed.

Lemma card_order_does_not_matter_witness :
  buildMetrics demoBoard demoLists demoLabels demoMembers demoCards
  = buildMetrics demoBoard demoLists demoLabels demoMembers
      (VArr (rev (elements demoCards))).
Proof.
  apply (card_order_does_not_matter demoBoard demoLists demoLabels demoMembers
           (elements demoCards) (rev (elements demoCards))).
  - apply Permutation_rev.
  - repeat constructor.
Defined.

End CardsMore.

(** *** The per-list families and the totals *)

Section ListsMore.

Lemma seconds_bound c : (seconds c <= 14400)%N.
Proof.
  unfold seconds. destruct (resolvedTime c) as [t|] eqn:E; [|lia].
  apply resolvedTime_values in E. vm_compute in E.
  repeat (apply elem_of_cons in E as [->|E]; [simpl; lia|]).
  by apply elem_of_nil in E.
Qed.

Lemma time_bound x (cards : list val) :
  (sumN (List.map (fun c => if bool_decide (listRef c = x) then seconds c else 0%N) cards)
   <= 14400 * howMany (fun c => bool_decide (listRef c = x)) cards)%N.
Proof.
  induction cards as [|c cards IH].
  - unfold howMany. simpl. lia.
  - rewrite howMany_cons. cbn [List.map sumN fold_right]. fold (sumN
      (List.map (fun c => if bool_decide (listRef c = x) then seconds c else 0%N) cards)).
    pose proof (seconds_bound c). destruct (bool_decide (listRef c = x)); lia.
Qed.

(** X9: [boards_total] has one sample, without labels and of value 1;
    [lists_per_board] has one sample, labelled with the board, whose value
    is the number of lists that are not ignored; [cards_in_list_total] and
    [time_in_list_total] have one sample for each of these lists, in the
    order of the payload and whatever the cards are; and when no such list
    is known under the name of an inherited member, the values are
    numbers, the seconds of a list at most 14400 for each of its counted
    cards. *)
Theorem one_sample_per_surviving_list
    board listsRaw labelsRaw membersRaw cardsRaw m :
  aggregate board listsRaw labelsRaw membersRaw cardsRaw = Ok m ->
  samplesOf "trello_boards_total" m = [ {| labels := []; value := Num 1 |} ]
  /\ samplesOf "trello_lists_per_board" m
     = [ {| labels := [("board", boardNameOf board)];
            value := Num (N.of_nat (length (survivingLists listsRaw))) |} ]
  /\ List.map labels (samplesOf "trello_cards_in_list_total" m)
     = List.map
         (fun l => [("board", boardNameOf board); ("list", escaped (prop l "name"))])
         (survivingLists listsRaw)
  /\ List.map labels (samplesOf "trello_time_in_list_total" m)
     = List.map labels (samplesOf "trello_cards_in_list_total" m)
  /\ (Forall (fun l => ownKey (idOf l) = true) (survivingLists listsRaw) ->
      Forall2
        (fun sc st =>
           exists n t, value sc = Num n /\ value st = Num t /\ (t <= 14400 * n)%N)
        (samplesOf "trello_cards_in_list_total" m)
        (samplesOf "trello_time_in_list_total" m)).
Proof.
  intros Hm. rewrite (aggregate_Ok _ _ _ _ _ _ Hm).
  rewrite samples_boards_total, samples_lists_per_board, samples_cards_in_list,
    samples_time_in_list, !List.map_map.
  repeat split.
  induction 1 as [|l ls Hl _ IH]; [constructor|].
  cbn [List.map]. constructor; [|exact IH].
  unfold listSample. cbn [value].
  rewrite count_cardTimeByList, count_cardsByList by done.
  do 2 eexists. split; [reflexivity|]. split; [reflexivity|]. apply time_bound.
Qed.

Lemma one_sample_per_surviving_list_witness :
  List.map value (samplesOf "trello_cards_in_list_total" demoMetrics) = [Num 2; Num 1]
  /\ List.map value (samplesOf "trello_time_in_list_total" demoMetrics)
     = [Num 180; Num 600]
  /\ List.map value (samplesOf "trello_lists_per_board" demoMetrics) = [Num 2].
Proof.
  destruct (one_sample_per_surviving_list demoBoard demoLists demoLabels demoMembers
              demoCards demoMetrics) as (_ & Hl & _); [vm_compute; reflexivity|].
  split; [vm_compute; reflexivity|]. split; [vm_compute; reflexivity|].
  rewrite Hl. vm_compute. reflexivity.
Defined.

(** Counting per key and adding up, card by card. *)
Lemma sum_howMany {K} (p : K -> val -> bool) (ks : list K) (cards : list val) :
  sumN (List.map (fun k => howMany (p k) cards) ks)
  = sumN (List.map
            (fun c => sumN (List.map (fun k => if p k c then 1%N else 0%N) ks))
            cards).
Proof.
  induction cards as [|c cards IH].
  - unfold howMany. simpl. apply sumN_zero.
  - cbn [List.map sumN fold_right]. fold (sumN
      (List.map (fun c => sumN (List.map (fun k => if p k c then 1%N else 0%N) ks))
         cards)).
    rewrite <- IH, <- sumN_plus. apply sumN_ext. intros k. apply howMany_cons.
Qed.

Lemma range_indicator (rt : option timeEntry) :
  (forall t, rt = Some t -> t ∈ values timeMap) ->
  sumN (List.map
          (fun t' => if bool_decide (t_range <$> rt = Some (t_range t'))
                     then 1%N else 0%N)
          (values timeMap))
  = if bool_decide (is_Some rt) then 1%N else 0%N.
Proof.
  intros H. destruct rt as [t|]; [|reflexivity].
  rewrite bool_decide_eq_true_2 by eauto.
  rewrite (sumN_ext _
    (fun t' => if bool_decide (t_range t = t_range t') then 1%N else 0%N)).
  - by apply sum_range_once, H.
  - intros t'. simpl. repeat case_bool_decide; congruence.
Qed.

Lemma priority_indicator (rp : option string) :
  (forall p, rp = Some p -> p ∈ values priorityMap) ->
  sumN (List.map (fun q => if bool_decide (rp = Some q) then 1%N else 0%N)
          (values priorityMap))
  = if bool_decide (is_Some rp) then 1%N else 0%N.
Proof.
  intros H. destruct rp as [p|]; [|reflexivity].
  rewrite bool_decide_eq_true_2 by eauto. by apply sum_priority_once, H.
Qed.

(** X10: the values of the samples of [cards_by_time_total] are numbers
    that add up to the number of cards, not archived and past the filters,
    that resolve to a TimeEstimate, and those of [cards_by_priority_total]
    to the number of those that resolve to a Priority and sit outside the
    terminal lists: no card is counted under two ranges or two levels. *)
Theorem totals_by_time_and_priority board listsRaw labelsRaw membersRaw cardsRaw m :
  aggregate board listsRaw labelsRaw membersRaw cardsRaw = Ok m ->
  sumValues (samplesOf "trello_cards_by_time_total" m)
  = Some (howMany (fun c => bool_decide (is_Some (resolvedTime c))) (openCards cardsRaw))
  /\ sumValues (samplesOf "trello_cards_by_priority_total" m)
     = Some (howMany
               (fun c => bool_decide (is_Some (resolvedPriority c)) && negb (terminal c))
               (openCards cardsRaw)).
Proof.
  intros Hm. rewrite (aggregate_Ok _ _ _ _ _ _ Hm).
  rewrite time_sum, priority_sum. split; f_equal.
  - rewrite (sum_howMany
               (fun t' c => bool_decide (t_range <$> resolvedTime c = Some (t_range t')))).
    unfold howMany. rewrite <- sumN_indicator. apply sumN_ext. intros c.
    apply range_indicator. intros t. apply resolvedTime_values.
  - rewrite (sum_howMany
               (fun q c => bool_decide (resolvedPriority c = Some q) && negb (terminal c))).
    unfold howMany. rewrite <- sumN_indicator. apply sumN_ext. intros c.
    destruct (negb (terminal c)).
    + rewrite andb_true_r.
      rewrite (sumN_ext _
        (fun q => if bool_decide (resolvedPriority c = Some q) then 1%N else 0%N))
        by (intros q; by rewrite andb_true_r).
      apply priority_indicator. intros p. apply resolvedPriority_values.
    + rewrite andb_false_r.
      rewrite (sumN_ext _ (fun _ => 0%N)) by (intros q; by rewrite andb_false_r).
      apply sumN_zero.
Qed.

Lemma totals_by_time_and_priority_witness :
  sumValues (samplesOf "trello_cards_by_time_total" demoMetrics) = Some 2%N
  /\ sumValues (samplesOf "trello_cards_by_priority_total" demoMetrics) = Some 2%N.
Proof.
  destruct (totals_by_time_and_priority demoBoard demoLists demoLabels demoMembers
              demoCards demoMetrics) as [-> ->]; [vm_compute; reflexivity|].
  split; vm_compute; reflexivity.
Defined.

End ListsMore.

Section TimeInList.

Lemma sum_exchange {K} (w : K -> val -> N) (ks : list K) (cards : list val) :
  sumN (List.map (fun k => sumN (List.map (w k) cards)) ks)
  = sumN (List.map (fun c => sumN (List.map (fun k => w k c) ks)) cards).
Proof.
  induction cards as [|c cards IH].
  - simpl. apply sumN_zero.
  - cbn [List.map sumN fold_right]. fold (sumN
      (List.map (fun c => sumN (List.map (fun k => w k c) ks)) cards)).
    rewrite <- IH, <- sumN_plus. reflexivity.
Qed.

Lemma sum_key_weight (keys : list string) (x : string) (n : N) :
  NoDup keys ->
  sumN (List.map (fun k => if bool_decide (x = k) then n else 0%N) keys)
  = if bool_decide (x ∈ keys) then n else 0%N.
Proof.
  induction 1 as [|k keys Hk Hnd IH]; simpl; [reflexivity|].
  rewrite IH. repeat case_bool_decide; subst;
    rewrite ?elem_of_cons in *; try tauto; try lia.
Qed.

(** X11: when the identifiers of the surviving lists, as property keys,
    are pairwise distinct and none of them is the name of an inherited
    member, the values of the samples of [time_in_list_total] are numbers
    that add up to the seconds of the cards, not archived and past the
    filters, that name the key of a surviving list. *)
Theorem time_in_list_total_sum board listsRaw labelsRaw membersRaw cardsRaw m :
  aggregate board listsRaw labelsRaw membersRaw cardsRaw = Ok m ->
  NoDup (List.map idOf (survivingLists listsRaw)) ->
  Forall (fun l => ownKey (idOf l) = true) (survivingLists listsRaw) ->
  sumValues (samplesOf "trello_time_in_list_total" m)
  = Some (sumN (List.map seconds
                  (List.filter
                     (fun c => bool_decide
                                 (listRef c ∈ List.map idOf (survivingLists listsRaw)))
                     (openCards cardsRaw)))).
Proof.
  intros Hm Hnd Hown. rewrite (aggregate_Ok _ _ _ _ _ _ Hm), samples_time_in_list.
  rewrite (sumValues_map _
             (fun l => sumN (List.map
                               (fun c => if bool_decide (listRef c = idOf l)
                                         then seconds c else 0%N)
                               (openCards cardsRaw)))).
  - f_equal. rewrite <- sumN_filter.
    rewrite (sum_exchange
               (fun l c => if bool_decide (listRef c = idOf l) then seconds c else 0%N)).
    apply sumN_ext. intros c.
    rewrite <- (sum_key_weight _ (listRef c) (seconds c) Hnd).
    by rewrite List.map_map.
  - intros l Hl. unfold listSample. cbn [value]. apply count_cardTimeByList.
    rewrite Forall_forall in Hown. by apply Hown, list_elem_of_In.
Qed.

Lemma time_in_list_total_sum_witness :
  sumValues (samplesOf "trello_time_in_list_total" demoMetrics) = Some 780%N.
Proof.
  rewrite (time_in_list_total_sum demoBoard demoLists demoLabels demoMembers
             demoCards demoMetrics).
  - vm_compute. reflexivity.
  - vm_compute. reflexivity.
  - refine (bool_decide_unpack _ _). vm_compute. exact I.
  - repeat constructor.
Defined.

End TimeInList.

(** *** Custom-field items that stand for nothing *)

Section Unrecognized.

Local Opaque timeMap priorityMap.

Lemma scanItem_unrecognized c item :
  recognized timeMap item = Ok None -> recognized priorityMap item = Ok None ->
  scanItem c item = Ok c.
Proof.
  intros Ht Hp. rewrite scanItem_recognized, Ht, Hp. cbn [bind]. by destruct c.
Qed.

Lemma scan_without_item pre item post c0 :
  recognized timeMap item = Ok None -> recognized priorityMap item = Ok None ->
  foldM scanItem (pre ++ item :: post) c0 = foldM scanItem (pre ++ post) c0.
Proof.
  intros Ht Hp. rewrite !foldM_app.
  destruct (foldM scanItem pre c0) as [c1|]; cbn [bind foldM]; [|reflexivity].
  by rewrite scanItem_unrecognized.
Qed.

Lemma sameCard_without_item o pre item post :
  prop (VObj o) "customFieldItems" = VArr (pre ++ item :: post) ->
  recognized timeMap item = Ok None -> recognized priorityMap item = Ok None ->
  sameCard (VObj o) (withProp "customFieldItems" (VArr (pre ++ post)) o).
Proof.
  intros Hitems Ht Hp.
  assert (Hs : scans (withProp "customFieldItems" (VArr (pre ++ post)) o)
               = scans (VObj o)).
  { unfold scans, enrich. rewrite prop_withProp, Hitems.
    cbn [String.eqb Ascii.eqb Bool.eqb isArray elements].
    rewrite (scan_without_item _ _ _ _ Ht Hp). by destruct (foldM scanItem _ _). }
  assert (Hc : cardOf (withProp "customFieldItems" (VArr (pre ++ post)) o)
               = {| raw := withProp "customFieldItems" (VArr (pre ++ post)) o;
                    custom := custom (cardOf (VObj o)) |}).
  { unfold cardOf, enrich. rewrite prop_withProp, Hitems.
    cbn [String.eqb Ascii.eqb Bool.eqb isArray elements].
    rewrite (scan_without_item _ _ _ _ Ht Hp). by destruct (foldM scanItem _ _). }
  unfold sameCard, keepCard, cardRuns, archived, keys,
    listOps, priorityOps, rangeOps, timeOps, entryOps, closed, idList, idLabels, idMembers.
  rewrite Hs, Hc, !raw_cardOf. cbn [raw custom truthy].
  change (VObj (o ++ [("customFieldItems", VArr (pre ++ post))]))
    with (withProp "customFieldItems" (VArr (pre ++ post)) o).
  rewrite !prop_withProp. cbn [String.eqb Ascii.eqb Bool.eqb].
  repeat split.
Qed.

(** X12: an entry of [customFieldItems] whose [idValue] is missing, or
    converts to a property key that is in neither static table, is
    ignored: the metrics are those of the payload where the card comes
    without the entry. *)
Theorem unrecognized_item_is_ignored
    board listsRaw labelsRaw membersRaw before o after pre item post :
  prop (VObj o) "customFieldItems" = VArr (pre ++ item :: post) ->
  recognized timeMap item = Ok None -> recognized priorityMap item = Ok None ->
  aggregate board listsRaw labelsRaw membersRaw (VArr (before ++ VObj o :: after))
  = aggregate board listsRaw labelsRaw membersRaw
      (VArr (before ++ withProp "customFieldItems" (VArr (pre ++ post)) o :: after)).
Proof.
  intros Hitems Ht Hp. apply aggregate_sameCard.
  by apply (sameCard_without_item o pre item post).
Qed.

Lemma unrecognized_item_is_ignored_witness :
  let known := VObj [("idValue", VStr "6317987e46e82a010a822ec0")] in
  let unknown := VObj [("idValue", VStr "000000000000000000000000")] in
  let o := [ ("idList", VStr listNameToId.Inbox);
             ("customFieldItems", VArr [unknown; known]) ] in
  aggregate demoBoard demoLists demoLabels demoMembers (VArr [VObj o])
  = aggregate demoBoard demoLists demoLabels demoMembers
      (VArr [withProp "customFieldItems" (VArr [known]) o]).
Proof.
  intros known unknown o.
  apply (unrecognized_item_is_ignored demoBoard demoLists demoLabels demoMembers
           [] o [] [] unknown [known]); reflexivity.
Defined.

(** An entry whose [idValue] does not convert is not ignored: the
    aggregation throws with it and returns without it. *)
Lemma unconvertible_item_throws :
  let o := [ ("idList", VStr listNameToId.Inbox);
             ("customFieldItems", VArr [ VObj [("idValue", poison)] ]) ] in
  aggregate demoBoard demoLists demoLabels demoMembers (VArr [VObj o]) = TypeError
  /\ isOk (aggregate demoBoard demoLists demoLabels demoMembers
             (VArr [withProp "customFieldItems" (VArr []) o])) = true.
Proof. split; vm_compute; reflexivity. Qed.

End Unrecognized.

(** *** Label sets *)

Section LabelSets.

Lemma NoDup_map_inj {A B} (f : A -> B) (l : list A) :
  (forall x y, f x = f y -> x = y) -> (NoDup (List.map f l) <-> NoDup l).
Proof.
  intros Hf. induction l as [|a l IH]; simpl.
  - split; constructor.
  - rewrite !NoDup_cons, IH. split; intros [Hn Hd]; split; try done.
    + intros Hin. apply Hn, list_elem_of_In, List.in_map, list_elem_of_In, Hin.
    + intros Hin. apply list_elem_of_In, List.in_map_iff in Hin as (y & Hy & Hin).
      apply Hf in Hy as ->. by apply Hn, list_elem_of_In.
Qed.

(** X13: within [cards_by_priority_total] and within [cards_by_time_total]
    no two samples carry the same label set; within [cards_in_list_total]
    and [time_in_list_total], for lists whose names are texts, no two
    samples carry the same label set exactly when no two surviving lists
    carry the same name. *)
Theorem label_sets_are_distinct board listsRaw labelsRaw membersRaw cardsRaw m :
  aggregate board listsRaw labelsRaw membersRaw cardsRaw = Ok m ->
  NoDup (List.map labels (samplesOf "trello_cards_by_priority_total" m))
  /\ NoDup (List.map labels (samplesOf "trello_cards_by_time_total" m))
  /\ forall names,
       List.map (fun l => prop l "name") (survivingLists listsRaw) = List.map VStr names ->
       (NoDup (List.map labels (samplesOf "trello_cards_in_list_total" m))
        <-> NoDup names)
       /\ (NoDup (List.map labels (samplesOf "trello_time_in_list_total" m))
           <-> NoDup names).
Proof.
  intros Hm. rewrite (aggregate_Ok _ _ _ _ _ _ Hm).
  rewrite samples_cards_by_priority, samples_cards_by_time, samples_cards_in_list,
    samples_time_in_list, !List.map_map.
  split; [|split].
  - change (NoDup (List.map
                     (fun p => [("board", boardNameOf board); ("priority", escapeText p)])
                     (values priorityMap))).
    apply NoDup_map_inj.
    + intros x y [= H]. by apply escapeText_inj.
    + refine (bool_decide_unpack _ _). vm_compute. exact I.
  - change (NoDup (List.map
                     (fun r => [("board", boardNameOf board); ("time", escapeText r)])
                     (List.map t_range (values timeMap)))).
    apply NoDup_map_inj.
    + intros x y [= H]. by apply escapeText_inj.
    + refine (bool_decide_unpack _ _). vm_compute. exact I.
  - intros names Hnames.
    assert (E : forall d,
      List.map (fun l => labels (listSample (boardNameOf board) d l))
        (survivingLists listsRaw)
      = List.map
          (fun n => [("board", boardNameOf board); ("list", escapeText n)])
          names).
    { intros d. unfold listSample. cbn [labels].
      change (List.map
                (fun l => [("board", boardNameOf board);
                           ("list", escaped (prop l "name"))])
                (survivingLists listsRaw))
        with (List.map
                (fun l => (fun v => [("board", boardNameOf board);
                                     ("list", escaped v)])
                            ((fun l => prop l "name") l))
                (survivingLists listsRaw)).
      by rewrite <- (List.map_map (fun l => prop l "name")), Hnames, List.map_map. }
    rewrite !E.
    assert (Hinj : forall x y : string,
      [("board", boardNameOf board); ("list", escapeText x)]
      = [("board", boardNameOf board); ("list", escapeText y)] -> x = y).
    { intros x y [= H]. by apply escapeText_inj. }
    split; by apply NoDup_map_inj.
Qed.

Lemma label_sets_are_distinct_witness :
  NoDup (List.map labels (samplesOf "trello_cards_in_list_total" demoMetrics)).
Proof.
  destruct (label_sets_are_distinct demoBoard demoLists demoLabels demoMembers
              demoCards demoMetrics) as (_ & _ & H); [vm_compute; reflexivity|].
  apply (H ["Inbox"; "Done"]); [reflexivity|].
  refine (bool_decide_unpack _ _). vm_compute. exact I.
Defined.

End LabelSets.

(** *** What makes the aggregation throw *)

Section Throws.

Lemma objects_nullish l v : v ∈ l -> nullish v = true -> objects l = false.
Proof.
  intros Hin Hv. unfold objects. apply not_true_is_false. intros H.
  rewrite forallb_forall in H. apply list_elem_of_In, H in Hin.
  by rewrite Hv in Hin.
Qed.

Lemma namedRuns_nullish nameOf d l v :
  v ∈ l -> nullish v = true -> forallb (namedRuns nameOf d) l = false.
Proof.
  intros Hin Hv. apply not_true_is_false. intros H.
  rewrite forallb_forall in H. apply list_elem_of_In, H in Hin.
  unfold namedRuns in Hin. by rewrite Hv in Hin.
Qed.

(** X14: an entry that is [null] (or [undefined]) in the lists array, in
    the labels array or in the members array makes the aggregation throw,
    whatever the other payloads are, and no text is built. *)
Theorem null_record_throws board listsRaw labelsRaw membersRaw cardsRaw l v :
  v ∈ l -> nullish v = true ->
  aggregate board (VArr l) labelsRaw membersRaw cardsRaw = TypeError
  /\ aggregate board listsRaw (VArr l) membersRaw cardsRaw = TypeError
  /\ aggregate board listsRaw labelsRaw (VArr l) cardsRaw = TypeError
  /\ buildMetrics board (VArr l) labelsRaw membersRaw cardsRaw = TypeError.
Proof.
  intros Hin Hv. pose proof (objects_nullish _ _ Hin Hv) as Ho.
  assert (H1 : aggregate board (VArr l) labelsRaw membersRaw cardsRaw = TypeError).
  { rewrite aggregate_runs. unfold runs. cbn [filterable or truthy]. rewrite Ho.
    destruct (isOk (boardName board)), (iterate labelsRaw), (iterate membersRaw),
      (filterable cardsRaw); reflexivity. }
  split; [exact H1|]. split; [|split].
  - rewrite aggregate_runs. unfold runs. cbn [iterate or truthy].
    rewrite (namedRuns_nullish _ _ _ _ Hin Hv).
    destruct (isOk (boardName board)), (filterable listsRaw), (iterate membersRaw),
      (filterable cardsRaw); cbn [andb]; rewrite ?andb_false_r; reflexivity.
  - rewrite aggregate_runs. unfold runs. cbn [iterate or truthy].
    rewrite (namedRuns_nullish _ _ _ _ Hin Hv).
    destruct (isOk (boardName board)), (filterable listsRaw), (iterate labelsRaw),
      (filterable cardsRaw); cbn [andb]; rewrite ?andb_false_r; reflexivity.
  - unfold buildMetrics. by rewrite H1.
Qed.

Lemma null_record_throws_witness :
  buildMetrics demoBoard (VArr [VNull]) demoLabels demoMembers demoCards = TypeError.
Proof.
  apply (null_record_throws demoBoard demoLists demoLabels demoMembers demoCards
           [VNull] VNull); [apply list_elem_of_here|reflexivity].
Defined.

End Throws.
(** *** The Trello query *)

Section Query.

Local Arguments String.append : simpl nomatch.

Lemma urlencode_cons c s : urlencode (String c s) = encodeChar c +:+ urlencode s.
Proof.
  unfold encodeChar. cbn [urlencode].
  induction (utf8 c) as [|b bs IH]; [reflexivity|].
  cbn [fold_right]. by rewrite IH, append_assoc.
Qed.

Lemma allChars_app p (a b : string) :
  allChars p (a +:+ b) = allChars p a && allChars p b.
Proof. induction a as [|x a IH]; simpl; [reflexivity|]. by rewrite IH, andb_assoc. Qed.

Lemma countChar_app c (a b : string) :
  countChar c (a +:+ b) = countChar c a + countChar c b.
Proof. induction a as [|x a IH]; simpl; [reflexivity|]. rewrite IH. lia. Qed.

Lemma encodeChar_spec c :
  allChars queryChar (encodeChar c) = true
  /\ countChar "&" (encodeChar c) = 0 /\ countChar "=" (encodeChar c) = 0.
Proof. destruct c as [[] [] [] [] [] [] [] []]; vm_compute; done. Qed.

Lemma urlencode_spec s :
  allChars queryChar (urlencode s) = true
  /\ countChar "&" (urlencode s) = 0 /\ countChar "=" (urlencode s) = 0.
Proof.
  induction s as [|c s (IH1 & IH2 & IH3)]; [done|].
  destruct (encodeChar_spec c) as (H1 & H2 & H3).
  by rewrite urlencode_cons, allChars_app, !countChar_app, H1, H2, H3, IH1, IH2, IH3.
Qed.

Lemma pair_spec (kv : string * string) :
  let text := urlencode (fst kv) +:+ "=" +:+ urlencode (snd kv) in
  allChars queryChar text = true /\ countChar "&" text = 0 /\ countChar "=" text = 1.
Proof.
  destruct (urlencode_spec (fst kv)) as (H1 & H2 & H3).
  destruct (urlencode_spec (snd kv)) as (H4 & H5 & H6).
  cbn zeta. rewrite !allChars_app, !countChar_app, H1, H2, H3, H4, H5, H6. done.
Qed.

Lemma serialize_spec (kv : string * string) (pairs : list (string * string)) :
  let text := serialize (kv :: pairs) in
  allChars queryChar text = true
  /\ countChar "&" text = length pairs /\ countChar "=" text = S (length pairs).
Proof.
  unfold serialize. revert kv. induction pairs as [|kv' pairs IH]; intros kv.
  - apply pair_spec.
  - destruct (pair_spec kv) as (H1 & H2 & H3).
    destruct (IH kv') as (H4 & H5 & H6). cbn zeta in *.
    set (f := fun kv : string * string => urlencode (fst kv) +:+ "=" +:+ urlencode (snd kv))
      in *.
    change (join "&" (List.map f (kv :: kv' :: pairs)))
      with (f kv +:+ "&" +:+ join "&" (List.map f (kv' :: pairs))).
    set (t := f kv) in *. set (r := join "&" (List.map f (kv' :: pairs))) in *.
    change (allChars queryChar t = true) in H1. change (countChar "&" t = 0) in H2.
    change (countChar "=" t = 1) in H3.
    rewrite !allChars_app, !countChar_app, H1, H2, H3, H4, H5, H6.
    cbn [length]. repeat split; simpl; lia.
Qed.


Lemma query_loop (params : list (string * val)) (sp : list (string * string)) :
  foldM
    (fun sp kv =>
       if negb (nullish (snd kv)) then
         let! s := to_string (snd kv) in
         Ok (sp ++ [(fst kv, s)])
       else Ok sp)
    params sp
  = if forallb (fun kv => isOk (to_string (snd kv)))
         (List.filter (fun kv => negb (nullish (snd kv))) params)
    then Ok (sp ++ List.map (fun kv => (fst kv, text (snd kv)))
                     (List.filter (fun kv => negb (nullish (snd kv))) params))
    else TypeError.
Proof.
  revert sp. induction params as [|kv params IH]; intros sp.
  - simpl. by rewrite app_nil_r.
  - cbn [foldM List.filter]. destruct (negb (nullish (snd kv))).
    + cbn [forallb List.map].
      destruct (to_string (snd kv)) as [s|] eqn:E; cbn [bind isOk andb]; [|reflexivity].
      rewrite IH, (to_string_text _ _ E). by rewrite <- app_assoc.
    + cbn [bind]. apply IH.
Qed.

(** X15: the query is built exactly when every argument that is neither
    [null] nor [undefined] converts to text; it is then made of letters,
    digits and [* - . _ + % & =] only, whatever the key, the token and the
    arguments are; it holds one [=] for the key, one for the token and one
    for each such argument, and one [&] between two of them: no text can
    add or hide an argument. *)
Theorem query_is_well_formed cfg (params : list (string * val)) :
  isOk (trelloQuery cfg params)
  = forallb (fun kv => isOk (to_string (snd kv))) (sentParams params)
  /\ forall q, trelloQuery cfg params = Ok q ->
       allChars queryChar q = true
       /\ countChar "=" q = 2 + length (sentParams params)
       /\ countChar "&" q = 1 + length (sentParams params).
Proof.
  unfold trelloQuery, sentParams. rewrite query_loop.
  destruct (forallb _ _); cbn [bind isOk]; [|by split].
  split; [reflexivity|]. intros q [= <-].
  destruct (serialize_spec ("key", TRELLO_KEY cfg)
              (("token", TRELLO_TOKEN cfg)
               :: List.map (fun kv => (fst kv, text (snd kv)))
                    (List.filter (fun kv => negb (nullish (snd kv))) (entries params))))
    as (H1 & H2 & H3).
  cbn zeta in *. cbn [app]. rewrite H1, H2, H3. cbn [length]. by rewrite length_map.
Qed.

Lemma query_is_well_formed_witness :
  let cfg := {| TRELLO_KEY := "k&y"; TRELLO_TOKEN := "t=n"; BOARD_ID := "b";
                API_TOKEN := "a" |} in
  let params := [("fields", VStr "name,closed"); ("filter", VNull);
                 ("customFieldItems", VBool true)] in
  trelloQuery cfg params
  = Ok "key=k%26y&token=t%3Dn&fields=name%2Cclosed&customFieldItems=true"
  /\ countChar "&" "key=k%26y&token=t%3Dn&fields=name%2Cclosed&customFieldItems=true" = 3.
Proof.
  intros cfg params.
  assert (H : trelloQuery cfg params
              = Ok "key=k%26y&token=t%3Dn&fields=name%2Cclosed&customFieldItems=true")
    by (vm_compute; reflexivity).
  split; [exact H|].
  destruct (query_is_well_formed cfg params) as (_ & Hq).
  destruct (Hq _ H) as (_ & _ & ->). vm_compute. reflexivity.
Defined.

(** An argument that does not convert makes the query throw. *)
Lemma query_throws_on_unconvertible cfg :
  trelloQuery cfg [("fields", poison)] = TypeError.
Proof. reflexivity. Qed.

End Query.
(** *** Loading the module, [checkAuth] and the HTTP handler *)

Section Server.

Local Arguments String.append : simpl nomatch.

Lemma blank_false s : blank s = false <-> s <> EmptyString.
Proof. unfold blank. apply String.eqb_neq. Qed.

Lemma getenv_set (e : env) k :
  getenv e k <> EmptyString <-> exists v, e !! k = Some v /\ v <> EmptyString.
Proof.
  unfold getenv. destruct (e !! k) as [v|]; simpl.
  - split; [eauto|]. by intros (? & [= <-] & ?).
  - split; [done|]. by intros (? & ? & ?).
Qed.

(** X16: the checks made at load time pass exactly when [fetch] exists
    and the variables TRELLO_KEY, TRELLO_TOKEN and TRELLO_BOARD_ID are set
    to texts that are not empty, and the constants are then the values of
    the environment; a variable named BOARD_ID, the name in the message of
    the error, is never read. *)
Theorem module_loads_iff (e : env) (fetchExists : bool) cfg :
  (loadModule e fetchExists = Returned cfg
   <-> cfg = readConfig e
       /\ fetchExists = true
       /\ (exists v, e !! "TRELLO_KEY" = Some v /\ v <> EmptyString)
       /\ (exists v, e !! "TRELLO_TOKEN" = Some v /\ v <> EmptyString)
       /\ (exists v, e !! "TRELLO_BOARD_ID" = Some v /\ v <> EmptyString))
  /\ (forall v, loadModule (<["BOARD_ID" := v]> e) fetchExists = loadModule e fetchExists).
Proof.
  split.
  - rewrite <- !getenv_set, <- !blank_false. unfold loadModule.
    change (TRELLO_KEY (readConfig e)) with (getenv e "TRELLO_KEY").
    change (TRELLO_TOKEN (readConfig e)) with (getenv e "TRELLO_TOKEN").
    change (BOARD_ID (readConfig e)) with (getenv e "TRELLO_BOARD_ID").
    destruct (blank (getenv e "TRELLO_KEY")), (blank (getenv e "TRELLO_TOKEN")),
      (blank (getenv e "TRELLO_BOARD_ID")), fetchExists; cbn [orb negb];
      split; try discriminate; try (intros (_ & ? & ? & ? & ?); discriminate).
    + by intros [= <-].
    + by intros (-> & _).
  - intros v. unfold loadModule, readConfig, getenv.
    by rewrite !lookup_insert_ne.
Qed.

Lemma module_loads_iff_witness :
  let e : env :=
    <["TRELLO_KEY" := "k"]> (<["TRELLO_TOKEN" := "t"]> (<["TRELLO_BOARD_ID" := "b"]>
      (<["BOARD_ID" := "other"]> ∅))) in
  loadModule e true
  = Returned {| TRELLO_KEY := "k"; TRELLO_TOKEN := "t"; BOARD_ID := "b";
                API_TOKEN := EmptyString |}.
Proof.
  intros e.
  destruct (module_loads_iff e true
              {| TRELLO_KEY := "k"; TRELLO_TOKEN := "t"; BOARD_ID := "b";
                 API_TOKEN := EmptyString |}) as [[_ H] _].
  apply H. split; [vm_compute; reflexivity|]. split; [reflexivity|].
  split; [|split]; eexists; (split; [vm_compute; reflexivity|discriminate]).
Defined.

Lemma stripPrefix_Some p s r : stripPrefix p s = Some r -> s = p +:+ r.
Proof.
  revert s. induction p as [|a p IH]; intros s; simpl.
  - by intros [= ->].
  - destruct s as [|b s]; [discriminate|].
    destruct (Ascii.eqb a b) eqn:E; [|discriminate].
    apply Ascii.eqb_eq in E as ->. intros H. by rewrite (IH _ H).
Qed.

Lemma stripPrefix_app p r : stripPrefix p (p +:+ r) = Some r.
Proof.
  induction p as [|a p IH]; simpl; [reflexivity|]. by rewrite Ascii.eqb_refl.
Qed.

Lemma slice_app p r : slice (String.length p) (p +:+ r) = r.
Proof. induction p as [|a p IH]; simpl; [by destruct r|exact IH]. Qed.

Lemma checkAuth_bearer cfg (authorization : option string) :
  checkAuth cfg authorization = true
  <-> API_TOKEN cfg = EmptyString
      \/ authorization = Some ("Bearer " +:+ API_TOKEN cfg).
Proof.
  unfold checkAuth. destruct (blank (API_TOKEN cfg)) eqn:Eb.
  { apply String.eqb_eq in Eb. by split; [left|]. }
  apply blank_false in Eb.
  destruct authorization as [h|]; [|split; [done|by intros [?|?]]].
  destruct (blank h) eqn:Eh; cbn [orb].
  { apply String.eqb_eq in Eh as ->. split; [done|]. by intros [?|[=]]. }
  unfold startsWith. destruct (stripPrefix "Bearer " h) as [r|] eqn:Ep; cbn [negb].
  - apply stripPrefix_Some in Ep as ->.
    change 7 with (String.length "Bearer "). rewrite slice_app, String.eqb_eq.
    split; [by intros ->; right|]. by intros [?|[= ->]].
  - split; [done|]. intros [?|H]; [done|]. apply (inj Some) in H. subst h.
    by rewrite stripPrefix_app in Ep.
Qed.

(** X17: without an API token every request is let in; with one, a
    request is let in exactly when its authorization header is the text
    [Bearer], one space and the token, to the letter. *)
Theorem checkAuth_iff cfg (authorization : option string) :
  checkAuth cfg authorization = true
  <-> API_TOKEN cfg = EmptyString
      \/ authorization = Some ("Bearer " +:+ API_TOKEN cfg).
Proof. apply checkAuth_bearer. Qed.

Lemma checkAuth_iff_witness :
  let cfg := {| TRELLO_KEY := "k"; TRELLO_TOKEN := "t"; BOARD_ID := "b";
                API_TOKEN := "secret" |} in
  checkAuth cfg (Some "Bearer secret") = true
  /\ (API_TOKEN cfg = EmptyString \/ Some "bearer secret" = Some "Bearer secret"
      -> False).
Proof.
  intros cfg. split.
  - apply (checkAuth_iff cfg (Some "Bearer secret")). right. reflexivity.
  - intros H. apply (checkAuth_iff cfg (Some "bearer secret")) in H.
    vm_compute in H. discriminate H.
Defined.

Lemma loaded_not_blank e cfg :
  loadModule e true = Returned cfg ->
  blank (TRELLO_KEY cfg) || blank (TRELLO_TOKEN cfg) || blank (BOARD_ID cfg) = false.
Proof.
  unfold loadModule.
  destruct (blank (TRELLO_KEY (readConfig e)) || blank (TRELLO_TOKEN (readConfig e))
            || blank (BOARD_ID (readConfig e))) eqn:E; [discriminate|].
  by intros [= <-].
Qed.

(** X18: once the checks at load time have passed, a request is answered
    with status 200, the headers of the exposition format and a text
    exactly when its path is /metrics, it is let in (no API token, or the
    header [Bearer] and the token) and building the metrics returned that
    text. *)
Theorem metrics_are_served_iff e cfg req scrape text :
  loadModule e true = Returned cfg ->
  handler cfg req scrape = {| status := 200; headers := metricsHeaders; body := text |}
  <-> pathname req = Returned "/metrics"
      /\ (API_TOKEN cfg = EmptyString
          \/ authorization req = Some ("Bearer " +:+ API_TOKEN cfg))
      /\ scrape = Returned text.
Proof.
  intros Hload. rewrite <- checkAuth_bearer. unfold handler.
  rewrite (loaded_not_blank _ _ Hload).
  destruct (pathname req) as [path|msg]; [|split; [discriminate|by intros ([=] & _)]].
  destruct (String.eqb path "/metrics") eqn:Ep.
  - apply String.eqb_eq in Ep as ->.
    destruct (checkAuth cfg (authorization req)); simpl.
    + destruct scrape as [t|msg]; split; try discriminate.
      * by intros [= ->].
      * by intros (_ & _ & [= ->]).
      * by intros (_ & _ & [=]).
    + split; [discriminate|]. by intros (_ & [=] & _).
  - apply String.eqb_neq in Ep.
    split; [|by intros ([= ->] & _)].
    destruct (String.eqb path "/health"); discriminate.
Qed.

Lemma metrics_are_served_iff_witness :
  let e : env :=
    <["TRELLO_KEY" := "k"]> (<["TRELLO_TOKEN" := "t"]> (<["TRELLO_BOARD_ID" := "b"]>
      (<["API_TOKEN" := "secret"]> ∅))) in
  handler (readConfig e)
    {| pathname := Returned "/metrics"; authorization := Some "Bearer secret" |}
    (Returned "# TYPE")
  = {| status := 200; headers := metricsHeaders; body := "# TYPE" |}.
Proof.
  intros e.
  apply (metrics_are_served_iff e (readConfig e)); [vm_compute; reflexivity|].
  split; [reflexivity|]. split; [right; vm_compute; reflexivity|reflexivity].
Defined.

(** X19: building the metrics is looked at only for a request to
    /metrics that is let in: every other request gets its answer whatever
    the build would come to, and a request to another path also whatever
    its authorization header is; /health is answered 200 and ok. *)
Theorem scrape_only_for_authorized_metrics cfg req :
  (checkAuth cfg (authorization req) = false ->
   forall s1 s2, handler cfg req s1 = handler cfg req s2)
  /\ (pathname req <> Returned "/metrics" ->
      forall a s1 s2,
        handler cfg {| pathname := pathname req; authorization := a |} s1
        = handler cfg req s2)
  /\ (pathname req = Returned "/health" ->
      forall s, handler cfg req s
                = {| status := 200; headers := [("Content-Type", "text/plain")];
                     body := "ok" +:+ str newline |}).
Proof.
  unfold handler. split; [|split].
  - intros Ha s1 s2. rewrite Ha. destruct (pathname req) as [path|]; [|done].
    by destruct (String.eqb path "/metrics").
  - intros Hp a s1 s2. cbn [pathname]. destruct (pathname req) as [path|]; [|done].
    destruct (String.eqb path "/metrics") eqn:E; [|done].
    apply String.eqb_eq in E as ->. done.
  - intros -> s. reflexivity.
Qed.

Lemma scrape_only_for_authorized_metrics_witness :
  let cfg := {| TRELLO_KEY := "k"; TRELLO_TOKEN := "t"; BOARD_ID := "b";
                API_TOKEN := "secret" |} in
  let req := {| pathname := Returned "/metrics"; authorization := Some "Bearer guess" |} in
  handler cfg req (Returned "# TYPE")
  = {| status := 401; headers := []; body := EmptyString |}.
Proof.
  intros cfg req.
  destruct (scrape_only_for_authorized_metrics cfg req) as (H & _ & _).
  rewrite (H eq_refl (Returned "# TYPE") (Threw EmptyString)). reflexivity.
Defined.

(** X20: once the checks at load time have passed, an answer with status
    500 always comes from something thrown, by the parsing of the URL or
    by the building of the metrics, and carries its message after the line
    Internal Server Error: the answer about missing environment variables
    is never given. *)
Theorem status_500_carries_the_error e cfg req scrape :
  loadModule e true = Returned cfg ->
  status (handler cfg req scrape) = 500%N ->
  exists message,
    handler cfg req scrape = internalServerError message
    /\ (pathname req = Threw message
        \/ (pathname req = Returned "/metrics" /\ scrape = Threw message)).
Proof.
  intros Hload. unfold handler. rewrite (loaded_not_blank _ _ Hload).
  destruct (pathname req) as [path|msg]; [|by eauto].
  destruct (String.eqb path "/metrics") eqn:Ep.
  - apply String.eqb_eq in Ep as ->.
    destruct (checkAuth cfg (authorization req)); simpl; [|discriminate].
    destruct scrape as [t|msg]; [discriminate|]. eauto.
  - destruct (String.eqb path "/health"); discriminate.
Qed.

Lemma status_500_carries_the_error_witness :
  let e : env :=
    <["TRELLO_KEY" := "k"]> (<["TRELLO_TOKEN" := "t"]> (<["TRELLO_BOARD_ID" := "b"]> ∅)) in
  exists message,
    handler (readConfig e) {| pathname := Returned "/metrics"; authorization := None |}
      (Threw "Trello GET /boards/b failed: 401 Unauthorized invalid key")
    = internalServerError message.
Proof.
  intros e.
  destruct (status_500_carries_the_error e (readConfig e)
              {| pathname := Returned "/metrics"; authorization := None |}
              (Threw "Trello GET /boards/b failed: 401 Unauthorized invalid key"))
    as (message & H & _); [vm_compute; reflexivity|vm_compute; reflexivity|].
  by exists message.
Defined.

End Server.

(** *** The board payload *)

Section Board.

Local Opaque timeMap priorityMap.

Lemma namedSamples_board key nameOf B d xs :
  Forall (fun s => exists rest, labels s = ("board", B) :: rest /\ length rest = 1)
    (flat_map (namedSamples key nameOf B d) xs).
Proof.
  apply Forall_flat_map, Forall_forall. intros x _. unfold namedSamples.
  destruct (positive _); repeat constructor. by eexists.
Qed.

(** X21: every sample of every family but [boards_total] carries the
    label [board] first, with the same value, and at most one label after
    it; the board payload matters through the text of its name only, and a
    board that is [null], or whose name is missing or empty, is shown as
    (unknown). *)
Theorem board_label_on_every_sample
    board listsRaw labelsRaw membersRaw cardsRaw m :
  aggregate board listsRaw labelsRaw membersRaw cardsRaw = Ok m ->
  (forall name, name ∈ tail metricsOrder ->
     Forall (fun s => exists rest,
               labels s = ("board", boardNameOf board) :: rest /\ length rest <= 1)
       (samplesOf name m))
  /\ (forall board', boardName board' = boardName board ->
        aggregate board' listsRaw labelsRaw membersRaw cardsRaw = Ok m)
  /\ (truthy (prop board "name") = false -> boardNameOf board = "(unknown)").
Proof.
  intros Hm. split; [|split].
  - rewrite (aggregate_Ok _ _ _ _ _ _ Hm). intros name Hn.
    cbn [tail metricsOrder] in Hn.
    repeat (apply elem_of_cons in Hn as [->|Hn]); [..|by apply elem_of_nil in Hn].
    + rewrite samples_cards_in_list. apply Forall_map, Forall_forall.
      intros l _. eexists. split; [reflexivity|]. simpl. lia.
    + rewrite samples_labeled_cards.
      eapply Forall_impl; [apply namedSamples_board|].
      intros s (rest & ? & ?). exists rest. split; [done|lia].
    + rewrite samples_cards_per_member.
      eapply Forall_impl; [apply namedSamples_board|].
      intros s (rest & ? & ?). exists rest. split; [done|lia].
    + rewrite samples_lists_per_board. repeat constructor.
      eexists. split; [reflexivity|]. simpl. lia.
    + rewrite samples_time_in_list. apply Forall_map, Forall_forall.
      intros l _. eexists. split; [reflexivity|]. simpl. lia.
    + rewrite samples_cards_by_priority. apply Forall_map, Forall_forall.
      intros p _. eexists. split; [reflexivity|]. simpl. lia.
    + rewrite samples_cards_by_time. apply Forall_map, Forall_forall.
      intros t _. eexists. split; [reflexivity|]. simpl. lia.
  - intros board' Hb. rewrite aggregate_runs in Hm |- *.
    unfold runs, families, boardNameOf in *. rewrite Hb. exact Hm.
  - intros Hn. unfold boardNameOf, boardName, or. by rewrite Hn.
Qed.

Lemma board_label_on_every_sample_witness :
  boardNameOf VNull = "(unknown)"
  /\ Forall (fun s => exists rest,
                labels s = ("board", "(unknown)") :: rest /\ length rest <= 1)
       (samplesOf "trello_time_in_list_total"
          (families VNull demoLists demoLabels demoMembers demoCards))
  /\ aggregate (VObj [("name", VStr EmptyString)]) demoLists demoLabels demoMembers demoCards
     = Ok (families VNull demoLists demoLabels demoMembers demoCards).
Proof.
  destruct (board_label_on_every_sample VNull demoLists demoLabels demoMembers demoCards
              (families VNull demoLists demoLabels demoMembers demoCards))
    as (H1 & H2 & H3); [vm_compute; reflexivity|].
  split; [apply H3; reflexivity|]. split.
  - rewrite <- (H3 eq_refl). apply H1.
    refine (bool_decide_unpack _ _). vm_compute. exact I.
  - apply H2. vm_compute. reflexivity.
Defined.

End Board.
